(** * pdf2img: a shallow embedding of [mupdf.py]

    The script converts every page of a PDF into an image file.  Two
    functions carry the behaviour: [process_page] (open the document, load
    and rasterise one page, encode it, write one file, close the document)
    and [pdf_to_jpeg] (create the output directory, probe the page count,
    run one [process_page] per page, sequentially or on a process pool).

    The embedding keeps the program's shape:
    - a Python [str] is a [string] (its UTF-8 bytes; the characters the
      program looks at, the separator, the dot and the letters of the
      format names, are ASCII); [bytes] is [list byte]; an [int] is [Z],
      a page number [nat], as [range] produces it;
    - the collaborating libraries (PyMuPDF, Pillow, the operating system)
      are the fields of a [Library] class.  Each call may fail, and its
      answer is a function of its arguments: the input PDF and the
      permissions of the file system do not change while the script runs;
    - effects are threaded through a [world] (file system, table of open
      documents, clock reads, trace of observable events) by a state and
      exception monad [M]; an exception leaves the world as it was when
      it was raised;
    - [os.path], [str.lower], [str(int)] and [base64.b64encode] are
      written out, since the claims depend on what they compute, and so
      are the directories [os.makedirs] goes through;
    - in parallel mode the order in which the pool completes the tasks is
      a parameter [sched] of [pdf_to_jpeg]; a task's only shared effect is
      the one file it writes, so tasks are run whole, in that order.

    Definitions come first; the lemmas start at the line of equal signs. *)

From Stdlib Require Import String Ascii List ZArith NArith QArith Lia Permutation.
From Stdlib Require Import DecimalString DecimalNat.
From Stdlib.Strings Require Import Byte.
From stdpp Require Import base gmap strings list.

Open Scope string_scope.

(** ** Python strings *)

Module Str.

(** [str.lower], character by character.  Only A..Z change; the format
    names compared against are ASCII, and no character outside ASCII
    lowers into one of their letters. *)
Definition lower_char (c : ascii) : ascii :=
  if (Ascii.leb "A" c && Ascii.leb c "Z")%bool
  then ascii_of_N (N_of_ascii c + 32)
  else c.

Fixpoint lower (s : string) : string :=
  match s with
  | EmptyString => EmptyString
  | String c r => String (lower_char c) (lower r)
  end.

(** [str(n)] for a non-negative integer: decimal, no leading zero. *)
Definition of_nat (n : nat) : string :=
  NilEmpty.string_of_uint (Nat.to_uint n).

(** [c in s] *)
Fixpoint contains (c : ascii) (s : string) : bool :=
  match s with
  | EmptyString => false
  | String x r => Ascii.eqb x c || contains c r
  end.

(** [s.startswith(c)] and [s.endswith(c)] for a one-character [c]. *)
Definition startswith (c : ascii) (s : string) : bool :=
  match s with
  | String x _ => Ascii.eqb x c
  | EmptyString => false
  end.

Fixpoint endswith (c : ascii) (s : string) : bool :=
  match s with
  | EmptyString => false
  | String x EmptyString => Ascii.eqb x c
  | String _ r => endswith c r
  end.

(** Split at the last occurrence of [c]: [Some (s[:i], s[i+1:])] with
    [i = s.rfind(c)], [None] when [rfind] answers -1. *)
Fixpoint rsplit (c : ascii) (s : string) : option (string * string) :=
  match s with
  | EmptyString => None
  | String x r =>
      match rsplit c r with
      | Some (a, b) => Some (String x a, b)
      | None => if Ascii.eqb x c then Some (EmptyString, r) else None
      end
  end.

(** Every character of [s] is [c]. *)
Fixpoint all_char (c : ascii) (s : string) : bool :=
  match s with
  | EmptyString => true
  | String x r => Ascii.eqb x c && all_char c r
  end.

(** [s.rstrip(c)] for a one-character [c]. *)
Fixpoint rstrip (c : ascii) (s : string) : string :=
  match s with
  | EmptyString => EmptyString
  | String x r =>
      match rstrip c r with
      | EmptyString => if Ascii.eqb x c then EmptyString else String x EmptyString
      | r' => String x r'
      end
  end.

End Str.

(** ** [os.path] on POSIX *)

Module posixpath.

Definition sep : ascii := "/"%char.
Definition extsep : ascii := "."%char.

(** [basename(p)] is [p[p.rfind('/') + 1:]]. *)
Definition basename (p : string) : string :=
  match Str.rsplit sep p with
  | Some (_, tail) => tail
  | None => p
  end.

(** [splitext(p)]: the extension starts at the last dot of the last path
    component, unless only dots precede it there (leading dots belong to
    the root). *)
Definition splitext (p : string) : string * string :=
  let '(head, fname) :=
    match Str.rsplit sep p with
    | Some (a, b) => (a ++ String sep EmptyString, b)
    | None => (EmptyString, p)
    end in
  match Str.rsplit extsep fname with
  | Some (r, e) =>
      if Str.all_char extsep r then (p, EmptyString)
      else (head ++ r, String extsep e)
  | None => (p, EmptyString)
  end.

(** [split(p)]: head and tail around the last separator,
    [p[:i]] and [p[i:]] with [i = p.rfind('/') + 1]; the separators that
    end the head are taken off, unless the head holds nothing else. *)
Definition split (p : string) : string * string :=
  match Str.rsplit sep p with
  | Some (a, tail) =>
      let head := a ++ String sep EmptyString in
      (if Str.all_char sep head then head else Str.rstrip sep head, tail)
  | None => (EmptyString, p)
  end.

(** [join(a, b)] with one component [b]. *)
Definition join (a b : string) : string :=
  if Str.startswith sep b then b
  else if (String.eqb a EmptyString || Str.endswith sep a)%bool then a ++ b
  else a ++ String sep b.

End posixpath.

(** ** [base64.b64encode] (RFC 4648, section 4, with padding) *)

Module Base64.

Definition byte_to_Z (b : byte) : Z := Z.of_N (Byte.to_N b).

Definition byte_of_Z (z : Z) : byte :=
  match Byte.of_N (Z.to_N z) with
  | Some b => b
  | None => x00
  end.

Definition alphabet : list byte :=
  list_byte_of_string
    "ABCDEFGHIJKLMNOPQRSTUVWXYZabcdefghijklmnopqrstuvwxyz0123456789+/".

Definition pad : byte := "="%byte.

(** The character of a 6-bit value. *)
Definition b64char (n : Z) : byte := nth (Z.to_nat n) alphabet pad.

(** Three input bytes make one 24-bit group, cut into four 6-bit values;
    a final group of one or two bytes is zero-extended and padded. *)
Definition group (a b c : byte) : Z :=
  Z.lor (Z.shiftl (byte_to_Z a) 16) (Z.lor (Z.shiftl (byte_to_Z b) 8) (byte_to_Z c)).

Definition sextet (n : Z) (k : Z) : Z := Z.land (Z.shiftr n (6 * k)) 63.

Fixpoint b64encode (bs : list byte) : list byte :=
  match bs with
  | [] => []
  | [a] =>
      let n := group a x00 x00 in
      [b64char (sextet n 3); b64char (sextet n 2); pad; pad]
  | [a; b] =>
      let n := group a b x00 in
      [b64char (sextet n 3); b64char (sextet n 2); b64char (sextet n 1); pad]
  | a :: b :: c :: rest =>
      let n := group a b c in
      b64char (sextet n 3) :: b64char (sextet n 2) ::
      b64char (sextet n 1) :: b64char (sextet n 0) :: b64encode rest
  end.

(** The decoder used to state the round trip: the position of a character
    in the alphabet, and the inverse regrouping of four characters. *)
Fixpoint index_of (c : byte) (l : list byte) (i : Z) : option Z :=
  match l with
  | [] => None
  | x :: r => if Byte.eqb x c then Some i else index_of c r (i + 1)
  end.

Definition b64index (c : byte) : option Z := index_of c alphabet 0.

Definition ungroup (s3 s2 s1 s0 : Z) : Z :=
  Z.lor (Z.shiftl s3 18) (Z.lor (Z.shiftl s2 12) (Z.lor (Z.shiftl s1 6) s0)).

Definition octet (n : Z) (k : Z) : byte :=
  byte_of_Z (Z.land (Z.shiftr n (8 * k)) 255).

Definition decode_group (c3 c2 c1 c0 : byte) : option Z :=
  match b64index c3, b64index c2, b64index c1, b64index c0 with
  | Some s3, Some s2, Some s1, Some s0 => Some (ungroup s3 s2 s1 s0)
  | _, _, _, _ => None
  end.

Fixpoint b64decode (cs : list byte) : option (list byte) :=
  match cs with
  | [] => Some []
  | c3 :: c2 :: c1 :: c0 :: rest =>
      if Byte.eqb c0 pad then
        match rest with
        | [] =>
            if Byte.eqb c1 pad then
              match decode_group c3 c2 "A"%byte "A"%byte with
              | Some n => Some [octet n 2]
              | None => None
              end
            else
              match decode_group c3 c2 c1 "A"%byte with
              | Some n => Some [octet n 2; octet n 1]
              | None => None
              end
        | _ :: _ => None
        end
      else
        match decode_group c3 c2 c1 c0, b64decode rest with
        | Some n, Some out => Some (octet n 2 :: octet n 1 :: octet n 0 :: out)
        | _, _ => None
        end
  | _ => None
  end.

End Base64.

(** ** The world the program runs in *)

(** What a path of the file system holds. *)
Inductive node : Type :=
  | Dir
  | File (content : list byte).

(** The lines the script prints; the text around the numbers is fixed. *)
Inductive line : Type :=
  | LineConverting (page_count : nat) (parallel : bool)
  | LinePage (page : nat) (page_count : nat) (duration : Q)
  | LineTotal (duration : Q).

(** Observable events, oldest first in a trace.  [EvCall] marks the entry
    of [process_page], [EvSubmit] a task handed to the process pool. *)
Inductive event : Type :=
  | EvMakedirs (path : string)
  | EvOpen (handle : nat) (path : string)
  | EvClose (handle : nat)
  | EvSubmit (page_num : nat)
  | EvCall (page_num : nat)
  | EvWrite (path : string) (content : list byte)
  | EvPrint (l : line).

Record world : Type := World {
  fs : gmap string node;
  open_docs : gset nat;
  next_doc : nat;
  clock_reads : nat;
  trace : list event
}.

(** The errors of section 7 of the specification, plus the two that the
    libraries raise on misuse: closing a closed document, and a process
    pool asked for no workers. *)
Inductive exn : Type :=
  | DocumentOpenError
  | PageIndexError
  | RenderError
  | EncodeError
  | IOError
  | DocumentClosed
  | PoolSizeError.

Inductive outcome (A : Type) : Type :=
  | Ret (a : A)
  | Raise (e : exn).
Arguments Ret {A} a.
Arguments Raise {A} e.

(** State and exceptions: a computation ends with a value or a raised
    exception, and in both cases with the world it leaves behind. *)
Definition M (A : Type) : Type := world -> outcome A * world.

Definition ret {A} (a : A) : M A := fun w => (Ret a, w).

Definition raise {A} (e : exn) : M A := fun w => (Raise e, w).

Definition bind {A B} (m : M A) (k : A -> M B) : M B :=
  fun w =>
    match m w with
    | (Ret a, w') => k a w'
    | (Raise e, w') => (Raise e, w')
    end.

Notation "x <- m ;; k" := (bind m (fun x => k))
  (at level 100, m at next level, right associativity).
Notation "m ;;; k" := (bind m (fun _ => k))
  (at level 100, right associativity).

(** What a worker process does with a task: the exception, if any, is
    stored in the future instead of propagating. *)
Definition capture {A} (m : M A) : M (outcome A) :=
  fun w => let '(r, w') := m w in (Ret r, w').

Definition emit (e : event) : M unit :=
  fun w => (Ret tt,
            World (fs w) (open_docs w) (next_doc w) (clock_reads w) (trace w ++ [e])).

Definition print (l : line) : M unit := emit (EvPrint l).

(** ** The collaborating libraries *)

Record pixmap : Type := Pixmap {
  width : Z;
  height : Z;
  samples : list byte
}.

Record Matrix : Type := mkMatrix { zoom_a : Q; zoom_d : Q }.

(** The keyword arguments of [Image.save], by format. *)
Inductive codec : Type :=
  | WEBP (quality : Z) (method : Z)
  | JPEG (quality : Z) (optimize : bool)
  | PNG (optimize : bool) (compress_level : Z).

(** PyMuPDF, Pillow and the operating system, as far as the script uses
    them.  Each answer is a function of the arguments of the call: the
    input PDF and the permissions of the file system do not change while
    the script runs. *)
Class Library : Type := {
  page : Type;
  image : Type;
  (** the pages [fitz.open] finds at a path, if it is a readable PDF *)
  fitz_pages : string -> option (list page);
  (** [page.get_pixmap(matrix=...)] *)
  get_pixmap : page -> Matrix -> option pixmap;
  (** [Image.frombytes("RGB", [w, h], data)] *)
  Image_frombytes : Z -> Z -> list byte -> option image;
  (** the encoder behind [Image.save] *)
  Image_encode : image -> codec -> option (list byte);
  (** whether [os.makedirs] can create a path, [open(_, "wb")] a file *)
  can_makedirs : string -> bool;
  can_write : string -> bool;
  (** the value of the n-th call of [time.time()] *)
  clock : nat -> Q
}.

Record document `{Library} : Type := Document {
  handle : nat;
  pages : list page
}.
Arguments Document {_} handle pages.

Section Program.
Context `{L : Library}.

(** [time.time()] *)
Definition time_time : M Q :=
  fun w => (Ret (clock (clock_reads w)),
            World (fs w) (open_docs w) (next_doc w) (S (clock_reads w)) (trace w)).

(** [fitz.open(path)] *)
Definition fitz_open (path : string) : M document :=
  fun w =>
    match fitz_pages path with
    | None => (Raise DocumentOpenError, w)
    | Some ps =>
        let h := next_doc w in
        (Ret (Document h ps),
         World (fs w) ({[h]} ∪ open_docs w) (S h) (clock_reads w)
               (trace w ++ [EvOpen h path]))
    end.

(** [len(doc)] *)
Definition len (doc : document) : nat := length (pages doc).

(** [doc.load_page(n)] for [n >= 0] *)
Definition load_page (doc : document) (n : nat) : M page :=
  match nth_error (pages doc) n with
  | Some p => ret p
  | None => raise PageIndexError
  end.

(** [doc.close()] *)
Definition doc_close (doc : document) : M unit :=
  fun w =>
    if bool_decide (handle doc ∈ open_docs w) then
      (Ret tt,
       World (fs w) (open_docs w ∖ {[handle doc]}) (next_doc w) (clock_reads w)
             (trace w ++ [EvClose (handle doc)]))
    else (Raise DocumentClosed, w).

(** [page.get_pixmap(matrix=matrix)] *)
Definition page_get_pixmap (p : page) (matrix : Matrix) : M pixmap :=
  match get_pixmap p matrix with
  | Some pix => ret pix
  | None => raise RenderError
  end.

(** [Image.frombytes("RGB", [w, h], data)]; a buffer that does not fit
    the size counts as a rendering failure. *)
Definition frombytes (w h : Z) (data : list byte) : M image :=
  match Image_frombytes w h data with
  | Some img => ret img
  | None => raise RenderError
  end.

(** [open(path, "wb")] followed by [write(content)]: the file is created
    or replaced. *)
Definition write_file (path : string) (content : list byte) : M unit :=
  fun w =>
    if can_write path then
      (Ret tt,
       World (<[path := File content]> (fs w)) (open_docs w) (next_doc w)
             (clock_reads w) (trace w ++ [EvWrite path content]))
    else (Raise IOError, w).

(** [img.save(buffer, format=...)] into a [BytesIO]. *)
Definition save_to_buffer (img : image) (c : codec) : M (list byte) :=
  match Image_encode img c with
  | Some b => ret b
  | None => raise EncodeError
  end.

(** [img.save(path, format=...)]: the destination is opened for writing,
    then the encoder fills it.  When the encoder fails no file is
    written; what Pillow leaves at the destination in that case (it has
    truncated a file that was there) is not modelled. *)
Definition save (img : image) (path : string) (c : codec) : M unit :=
  if can_write path then
    b <- save_to_buffer img c ;;
    write_file path b
  else raise IOError.

(** [os.path.exists] *)
Definition os_path_exists (path : string) : M bool :=
  fun w => (Ret (bool_decide (is_Some (fs w !! path))), w).

(** [os.makedirs(name)], after [os.py]:
    [head, tail = path.split(name)], split once more when the tail is
    empty; [if head and tail and not path.exists(head)] the head is
    created first, by [makedirs(head)]; then [mkdir(name)] creates the
    directory itself.

    [makedirs_head] is the head the call looks at, when head and tail are
    not empty.  [makedirs_heads] lists the missing heads the recursion
    goes through, the nearest first; every level looks at the file system
    before any directory is made.  A head is shorter than its name, so
    the length of the name bounds the depth of the recursion. *)
Definition makedirs_head (name : string) : option string :=
  let '(head, tail) := posixpath.split name in
  let '(head, tail) :=
    if String.eqb tail "" then posixpath.split head else (head, tail) in
  if (negb (String.eqb head "") && negb (String.eqb tail ""))%bool
  then Some head else None.

Fixpoint makedirs_heads (depth : nat) (m : gmap string node) (name : string)
    : list string :=
  match depth with
  | 0 => []
  | S depth =>
      match makedirs_head name with
      | Some head =>
          if bool_decide (is_Some (m !! head)) then []
          else head :: makedirs_heads depth m head
      | None => []
      end
  end.

(** [os.mkdir] of each directory of a list. *)
Definition mkdirs (dirs : list string) (m : gmap string node) : gmap string node :=
  foldr (fun p m => <[p := Dir]> m) m dirs.

(** The heads that exist after a call that fails: [can_makedirs head]
    says whether the inner call [makedirs(head)] succeeds; the nearest
    head for which it does is made with all the heads above it, and the
    exception comes from the level below. *)
Fixpoint made_heads (heads : list string) : list string :=
  match heads with
  | [] => []
  | head :: rest => if can_makedirs head then head :: rest else made_heads rest
  end.

(** The call succeeds or fails as the library says.  When it succeeds
    the missing heads are directories, and so is the path as it was
    spelled (also for a name that ends in [/.], which [os.makedirs] does
    not pass to [mkdir] once it has made the head: the path names the
    head then). *)
Definition os_makedirs (name : string) : M unit :=
  fun w =>
    let heads := makedirs_heads (String.length name) (fs w) name in
    if can_makedirs name then
      (Ret tt,
       World (<[name := Dir]> (mkdirs heads (fs w))) (open_docs w) (next_doc w)
             (clock_reads w) (trace w ++ [EvMakedirs name]))
    else
      (Raise IOError,
       World (mkdirs (made_heads heads) (fs w)) (open_docs w) (next_doc w)
             (clock_reads w) (trace w)).

(** ** [process_page] *)

(** Line 32: the PDF's base name without its extension. *)
Definition file_name (pdf_path : string) : string :=
  fst (posixpath.splitext (posixpath.basename pdf_path)).

(** Line 33: [os.path.join(output_dir, f"{file_name}_{page_num + 1}.{img_format}")] *)
Definition output_image (pdf_path : string) (page_num : nat)
    (output_dir img_format : string) : string :=
  posixpath.join output_dir
    (file_name pdf_path ++ "_" ++ Str.of_nat (page_num + 1) ++ "." ++ img_format).

Definition process_page (pdf_path : string) (page_num : nat) (output_dir : string)
    (dpi : Z) (img_format : string) (quality : Z) : M (nat * Q) :=
  emit (EvCall page_num) ;;;
  page_start_time <- time_time ;;
  let zoom_x := (dpi # 72)%Q in
  let zoom_y := (dpi # 72)%Q in
  let matrix := mkMatrix zoom_x zoom_y in
  doc <- fitz_open pdf_path ;;
  page <- load_page doc page_num ;;
  pix <- page_get_pixmap page matrix ;;
  let img_data := samples pix in
  img <- frombytes (width pix) (height pix) img_data ;;
  let output_image := output_image pdf_path page_num output_dir img_format in
  (if String.eqb (Str.lower img_format) "webp" then
     save img output_image (WEBP quality 0)
   else if (String.eqb (Str.lower img_format) "jpeg"
            || String.eqb (Str.lower img_format) "jpg")%bool then
     save img output_image (JPEG quality false)
   else if String.eqb (Str.lower img_format) "png" then
     save img output_image (PNG false 1)
   else if String.eqb (Str.lower img_format) "base64" then
     buffer <- save_to_buffer img (WEBP quality 0) ;;
     let b64_str := Base64.b64encode buffer in
     let b64_output := fst (posixpath.splitext output_image) ++ ".b64" in
     write_file b64_output b64_str
   else
     save img output_image (WEBP quality 0)) ;;;
  doc_close doc ;;;
  page_end_time <- time_time ;;
  let page_duration := (page_end_time - page_start_time)%Q in
  ret (page_num, page_duration).

(** ** [pdf_to_jpeg] *)

(** [ProcessPoolExecutor(max_workers=...)]: a given size must be positive. *)
Definition ProcessPoolExecutor (max_workers : option Z) : M unit :=
  match max_workers with
  | Some n => if (n <=? 0)%Z then raise PoolSizeError else ret tt
  | None => ret tt
  end.

(** Lines 108-110: the sequential loop over [range(page_count)]. *)
Fixpoint sequential_loop (pdf_path output_dir : string) (dpi : Z)
    (img_format : string) (quality : Z) (page_count : nat)
    (range : list nat) : M unit :=
  match range with
  | [] => ret tt
  | page_num :: rest =>
      r <- process_page pdf_path page_num output_dir dpi img_format quality ;;
      let '(page_num, page_duration) := r in
      print (LinePage (page_num + 1) page_count page_duration) ;;;
      sequential_loop pdf_path output_dir dpi img_format quality page_count rest
  end.

(** Line 100: every page is submitted before any result is read. *)
Fixpoint submit_all (range : list nat) : M unit :=
  match range with
  | [] => ret tt
  | i :: rest => emit (EvSubmit i) ;;; submit_all rest
  end.

(** Lines 103-105 and the exit of the [with] block.  The pool runs every
    submitted task to its end, in some order of completion; the driver
    reports each result as it arrives, until a result is an exception,
    which it re-raises once the pool has shut down. *)
Fixpoint as_completed_loop (pdf_path output_dir : string) (dpi : Z)
    (img_format : string) (quality : Z) (page_count : nat)
    (completion : list nat) (failed : option exn) : M unit :=
  match completion with
  | [] =>
      match failed with
      | Some e => raise e
      | None => ret tt
      end
  | i :: rest =>
      r <- capture (process_page pdf_path i output_dir dpi img_format quality) ;;
      match failed, r with
      | None, Ret (page_num, page_duration) =>
          print (LinePage (page_num + 1) page_count page_duration) ;;;
          as_completed_loop pdf_path output_dir dpi img_format quality page_count
            rest None
      | None, Raise e =>
          as_completed_loop pdf_path output_dir dpi img_format quality page_count
            rest (Some e)
      | Some e, _ =>
          as_completed_loop pdf_path output_dir dpi img_format quality page_count
            rest (Some e)
      end
  end.

(** [sched] is the choice the operating system makes in parallel mode:
    the order in which the submitted tasks complete. *)
Definition pdf_to_jpeg (sched : list nat -> list nat)
    (pdf_path output_dir : string) (dpi : Z) (parallel : bool)
    (max_workers : option Z) (img_format : string) (quality : Z) : M unit :=
  dir_exists <- os_path_exists output_dir ;;
  (if negb dir_exists then os_makedirs output_dir else ret tt) ;;;
  doc <- fitz_open pdf_path ;;
  let page_count := len doc in
  doc_close doc ;;;
  print (LineConverting page_count parallel) ;;;
  total_start_time <- time_time ;;
  (if parallel then
     ProcessPoolExecutor max_workers ;;;
     submit_all (seq 0 page_count) ;;;
     as_completed_loop pdf_path output_dir dpi img_format quality page_count
       (sched (seq 0 page_count)) None
   else
     sequential_loop pdf_path output_dir dpi img_format quality page_count
       (seq 0 page_count)) ;;;
  total_end_time <- time_time ;;
  let total_duration := (total_end_time - total_start_time)%Q in
  print (LineTotal total_duration).

End Program.

(** ** What a page task amounts to *)

(** The branch of the [if]/[elif] chain of lines 35-58 a format takes. *)
Inductive branch : Type :=
  | BrWebp
  | BrJpeg
  | BrPng
  | BrBase64
  | BrDefault.

Definition dispatch (img_format : string) : branch :=
  if String.eqb (Str.lower img_format) "webp" then BrWebp
  else if (String.eqb (Str.lower img_format) "jpeg"
           || String.eqb (Str.lower img_format) "jpg")%bool then BrJpeg
  else if String.eqb (Str.lower img_format) "png" then BrPng
  else if String.eqb (Str.lower img_format) "base64" then BrBase64
  else BrDefault.

(** The encoder settings of each branch. *)
Definition branch_codec (quality : Z) (b : branch) : codec :=
  match b with
  | BrJpeg => JPEG quality false
  | BrPng => PNG false 1
  | BrWebp | BrBase64 | BrDefault => WEBP quality 0
  end.

(** Projections of a trace. *)
Definition writes (tr : list event) : list (string * list byte) :=
  omap (fun e => match e with EvWrite p b => Some (p, b) | _ => None end) tr.

Definition calls (tr : list event) : list nat :=
  omap (fun e => match e with EvCall i => Some i | _ => None end) tr.

Definition submits (tr : list event) : list nat :=
  omap (fun e => match e with EvSubmit i => Some i | _ => None end) tr.

Definition opens (tr : list event) : list nat :=
  omap (fun e => match e with EvOpen h _ => Some h | _ => None end) tr.

Definition closes (tr : list event) : list nat :=
  omap (fun e => match e with EvClose h => Some h | _ => None end) tr.

(** The file system after a list of writes, first write first. *)
Definition apply_writes (ws : list (string * list byte)) (m : gmap string node)
    : gmap string node :=
  foldl (fun m pb => <[pb.1 := File pb.2]> m) m ws.

Section Summary.
Context `{L : Library}.

(** Lines 16-28 without the state: the image of a page, or the exception
    of the first step that fails. *)
Definition rasterise (pdf_path : string) (page_num : nat) (dpi : Z) : outcome image :=
  match fitz_pages pdf_path with
  | None => Raise DocumentOpenError
  | Some ps =>
      match nth_error ps page_num with
      | None => Raise PageIndexError
      | Some pg =>
          match get_pixmap pg (mkMatrix (dpi # 72) (dpi # 72)) with
          | None => Raise RenderError
          | Some pix =>
              match Image_frombytes (width pix) (height pix) (samples pix) with
              | None => Raise RenderError
              | Some img => Ret img
              end
          end
      end
  end.

(** The path a branch writes to. *)
Definition written_path (pdf_path : string) (page_num : nat)
    (output_dir img_format : string) : string :=
  match dispatch img_format with
  | BrBase64 =>
      fst (posixpath.splitext (output_image pdf_path page_num output_dir img_format))
      ++ ".b64"
  | _ => output_image pdf_path page_num output_dir img_format
  end.

(** Lines 35-58 without the state: the file written for an image, or the
    exception raised. *)
Definition encode_and_write (img : image) (img_format path : string) (quality : Z)
    : outcome (string * list byte) :=
  match dispatch img_format with
  | BrBase64 =>
      match Image_encode img (WEBP quality 0) with
      | None => Raise EncodeError
      | Some buffer =>
          if can_write path then Ret (path, Base64.b64encode buffer)
          else Raise IOError
      end
  | b =>
      if can_write path then
        match Image_encode img (branch_codec quality b) with
        | None => Raise EncodeError
        | Some data => Ret (path, data)
        end
      else Raise IOError
  end.

Definition page_file (pdf_path : string) (page_num : nat) (output_dir : string)
    (dpi : Z) (img_format : string) (quality : Z) : outcome (string * list byte) :=
  match rasterise pdf_path page_num dpi with
  | Raise e => Raise e
  | Ret img =>
      encode_and_write img img_format
        (written_path pdf_path page_num output_dir img_format) quality
  end.

(** The world a call of [process_page] leaves: after a normal return, ... *)
Definition world_after_page (w : world) (pdf_path : string) (page_num : nat)
    (p : string) (b : list byte) : world :=
  World (<[p := File b]> (fs w))
        (({[next_doc w]} ∪ open_docs w) ∖ {[next_doc w]})
        (S (next_doc w)) (S (S (clock_reads w)))
        (trace w ++ [EvCall page_num; EvOpen (next_doc w) pdf_path;
                     EvWrite p b; EvClose (next_doc w)]).

(** ... after an exception raised once the document is open, ... *)
Definition world_after_failure (w : world) (pdf_path : string) (page_num : nat)
    : world :=
  World (fs w) ({[next_doc w]} ∪ open_docs w) (S (next_doc w)) (S (clock_reads w))
        (trace w ++ [EvCall page_num; EvOpen (next_doc w) pdf_path]).

(** ... and when the document could not be opened. *)
Definition world_after_open_failure (w : world) (page_num : nat) : world :=
  World (fs w) (open_docs w) (next_doc w) (S (clock_reads w))
        (trace w ++ [EvCall page_num]).

Definition page_duration_at (w : world) : Q :=
  (clock (S (clock_reads w)) - clock (clock_reads w))%Q.

(** The world after lines 83-84 of [pdf_to_jpeg], when they do not raise:
    the output directory exists. *)
Definition world_after_makedirs (w : world) (output_dir : string) : world :=
  if bool_decide (is_Some (fs w !! output_dir)) then w
  else World (<[output_dir := Dir]>
                (mkdirs (makedirs_heads (String.length output_dir) (fs w) output_dir)
                   (fs w)))
             (open_docs w) (next_doc w)
             (clock_reads w) (trace w ++ [EvMakedirs output_dir]).

(** The world after line 84 when [os.makedirs] raises: the heads it made
    before it failed are there. *)
Definition world_after_failed_makedirs (w : world) (output_dir : string) : world :=
  World (mkdirs (made_heads
                   (makedirs_heads (String.length output_dir) (fs w) output_dir))
           (fs w))
        (open_docs w) (next_doc w) (clock_reads w) (trace w).

(** The world after lines 87-94: the document was opened and closed, the
    first line printed, the clock read. *)
Definition world_after_probe (w : world) (pdf_path : string)
    (page_count : nat) (parallel : bool) : world :=
  World (fs w) (({[next_doc w]} ∪ open_docs w) ∖ {[next_doc w]})
        (S (next_doc w)) (S (clock_reads w))
        (trace w ++ [EvOpen (next_doc w) pdf_path; EvClose (next_doc w);
                     EvPrint (LineConverting page_count parallel)]).

(** The world after lines 113-116. *)
Definition world_after_total (w : world) (total_start : Q) : world :=
  World (fs w) (open_docs w) (next_doc w) (S (clock_reads w))
        (trace w ++ [EvPrint (LineTotal (clock (clock_reads w) - total_start)%Q)]).

End Summary.

(** ** What a batch amounts to *)

(** The events a computation added to the trace. *)
Definition events_since (w w' : world) : list event :=
  drop (length (trace w)) (trace w').

(** The steps of section 5 of the specification, in the order they
    happen: a page task starts, a file is written, the progress line of
    a page is printed. *)
Inductive step : Type :=
  | Called (page_num : nat)
  | Wrote (path : string)
  | Logged (page : nat).

Definition page_steps (tr : list event) : list step :=
  omap (fun e =>
          match e with
          | EvCall i => Some (Called i)
          | EvWrite p _ => Some (Wrote p)
          | EvPrint (LinePage k _ _) => Some (Logged k)
          | _ => None
          end) tr.

(** The extension of each supported format (section 4.2). *)
Definition supported_formats : list string :=
  ["webp"; "jpeg"; "jpg"; "png"; "base64"].

Definition extension (img_format : string) : string :=
  if String.eqb img_format "base64" then "b64" else img_format.

(** The encoder of each supported format, by its name (section 4.2):
    JPEG without optimisation, PNG at compression level 1, WEBP with
    method 0 for webp and for base64. *)
Definition table_codec (quality : Z) (name : string) : codec :=
  if (String.eqb name "jpeg" || String.eqb name "jpg")%bool then JPEG quality false
  else if String.eqb name "png" then PNG false 1
  else WEBP quality 0.

(** A spelling of a name in lower case: the same characters, where a
    letter may be written as its capital. *)
Definition capital (c : ascii) : ascii :=
  if (Ascii.leb "a" c && Ascii.leb c "z")%bool
  then ascii_of_N (N_of_ascii c - 32)
  else c.

Fixpoint spells (s name : string) : bool :=
  match s, name with
  | EmptyString, EmptyString => true
  | String c s', String d name' =>
      ((Ascii.eqb c d || Ascii.eqb c (capital d)) && spells s' name')%bool
  | _, _ => false
  end.

Section Batch.
Context `{L : Library}.
Variables (pdf_path output_dir : string) (dpi : Z) (img_format : string)
  (quality : Z).

(** The exception of a page task, if it raises one. *)
Definition page_exn (i : nat) : option exn :=
  match page_file pdf_path i output_dir dpi img_format quality with
  | Ret _ => None
  | Raise e => Some e
  end.

(** The files of the tasks of [pages] that end normally. *)
Definition files_of (pages : list nat) : list (string * list byte) :=
  omap (fun i =>
          match page_file pdf_path i output_dir dpi img_format quality with
          | Ret f => Some f
          | Raise _ => None
          end) pages.

(** The pages a loop gets through before the first task that raises, and
    that task with its exception. *)
Fixpoint completed (range : list nat) : list nat :=
  match range with
  | [] => []
  | i :: rest =>
      match page_exn i with
      | None => i :: completed rest
      | Some _ => []
      end
  end.

Fixpoint first_failure (range : list nat) : option (nat * exn) :=
  match range with
  | [] => None
  | i :: rest =>
      match page_exn i with
      | None => first_failure rest
      | Some e => Some (i, e)
      end
  end.

(** The pages the sequential loop calls [process_page] on. *)
Definition attempted (range : list nat) : list nat :=
  completed range ++
  match first_failure range with
  | Some (i, _) => [i]
  | None => []
  end.

Definition loop_result (range : list nat) : outcome unit :=
  match first_failure range with
  | Some (_, e) => Raise e
  | None => Ret tt
  end.

(** The steps of page tasks that end normally, run one after the other. *)
Definition steps_of (pages : list nat) : list step :=
  flat_map (fun i => [Called i;
                      Wrote (written_path pdf_path i output_dir img_format);
                      Logged (i + 1)]) pages.

(** The result of the parallel loop: the first exception in the order of
    completion. *)
Definition pool_result (failed : option exn) (completion : list nat)
    : outcome unit :=
  match failed with
  | Some e => Raise e
  | None => loop_result completion
  end.

(** Lines 96-110 of [pdf_to_jpeg]: the two ways through the pages. *)
Definition batch_body (sched : list nat -> list nat) (parallel : bool)
    (max_workers : option Z) (page_count : nat) : M unit :=
  if parallel then
    ProcessPoolExecutor max_workers ;;;
    submit_all (seq 0 page_count) ;;;
    as_completed_loop pdf_path output_dir dpi img_format quality page_count
      (sched (seq 0 page_count)) None
  else
    sequential_loop pdf_path output_dir dpi img_format quality page_count
      (seq 0 page_count).

(** Whether the pool can be created. *)
Definition pool_size_ok (max_workers : option Z) : bool :=
  match max_workers with
  | Some n => negb (n <=? 0)%Z
  | None => true
  end.

(** The files a batch writes, in the order it writes them. *)
Definition batch_files (sched : list nat -> list nat) (parallel : bool)
    (max_workers : option Z) (page_count : nat) : list (string * list byte) :=
  if parallel then
    if pool_size_ok max_workers then files_of (sched (seq 0 page_count)) else []
  else files_of (completed (seq 0 page_count)).

(** The page tasks a batch starts, in the order it starts them. *)
Definition batch_calls (sched : list nat -> list nat) (parallel : bool)
    (max_workers : option Z) (page_count : nat) : list nat :=
  if parallel then
    if pool_size_ok max_workers then sched (seq 0 page_count) else []
  else attempted (seq 0 page_count).

End Batch.


(** The part of an output path that does not depend on the page:
    directory, separator, stem of the PDF and underscore. *)
Definition path_stem (pdf_path output_dir : string) : string :=
  posixpath.join output_dir (file_name pdf_path ++ "_").

(** ** A library to run the model on

    A three-page and an empty document; every page renders to one pixel;
    the encoders prefix the pixel data with the magic number of their
    format. *)
Module Demo.

Definition pages_at (path : string) : option (list nat) :=
  if String.eqb path "docs/sample.pdf" then Some [7; 8; 9]
  else if String.eqb path "docs/empty.pdf" then Some []
  else None.

Definition render (p : nat) (m : Matrix) : option pixmap :=
  Some (Pixmap 1 1 [x00; x00; Base64.byte_of_Z (Z.of_nat p)]).

Definition encode (img : list byte) (c : codec) : option (list byte) :=
  Some (match c with
        | WEBP _ _ => list_byte_of_string "RIFF"
        | JPEG _ _ => list_byte_of_string "JFIF"
        | PNG _ _ => list_byte_of_string "PNG"
        end ++ img)%list.

Definition lib : Library := {|
  page := nat;
  image := list byte;
  fitz_pages := pages_at;
  get_pixmap := render;
  Image_frombytes := fun _ _ data => Some data;
  Image_encode := encode;
  can_makedirs := fun p => negb (String.eqb p "");
  can_write := fun _ => true;
  clock := fun n => inject_Z (Z.of_nat n)
|}.

Definition w0 : world := World ∅ ∅ 0 0 [].

(** The pixel of page 0 of the sample document, and its WEBP and PNG
    encodings. *)
Definition pixel0 : list byte := [x00; x00; x07].
Definition webp0 : list byte := (list_byte_of_string "RIFF" ++ pixel0)%list.
Definition png0 : list byte := (list_byte_of_string "PNG" ++ pixel0)%list.

(** The scheduler that completes the tasks in the order of submission,
    and the one that completes them in the opposite order. *)
Definition fifo (l : list nat) : list nat := l.
Definition lifo (l : list nat) : list nat := rev l.

(** The scenarios of section 8 of the specification: the sample document
    to PNG at 150 dpi, sequentially and on a pool of two workers; and the
    runs on an empty document and on a path that holds no PDF. *)
Definition sequential_run : outcome unit * world :=
  @pdf_to_jpeg lib fifo "docs/sample.pdf" "out" 150 false None "png" 80 w0.

Definition parallel_run : outcome unit * world :=
  @pdf_to_jpeg lib lifo "docs/sample.pdf" "out" 150 true (Some 2%Z) "png" 80 w0.

Definition parallel_rerun : outcome unit * world :=
  @pdf_to_jpeg lib fifo "docs/sample.pdf" "out" 150 true (Some 2%Z) "png" 80
    (snd parallel_run).

Definition empty_run : outcome unit * world :=
  @pdf_to_jpeg lib lifo "docs/empty.pdf" "out" 150 true (Some 2%Z) "png" 80 w0.

(** Two direct calls of [process_page] on the sample document: for a
    page it does not have, and with a format the script does not know. *)
Definition page_error_run : outcome (nat * Q) * world :=
  @process_page lib "docs/sample.pdf" 7 "out" 300 "webp" 80 w0.

Definition tiff_run : outcome (nat * Q) * world :=
  @process_page lib "docs/sample.pdf" 0 "out" 300 "tiff" 80 w0.

Definition missing_run : outcome unit * world :=
  @pdf_to_jpeg lib fifo "docs/missing.pdf" "out" 150 false None "png" 80 w0.

End Demo.


Section BatchResult.
Context `{L : Library}.
Variables (pdf_path output_dir : string) (dpi : Z) (img_format : string)
  (quality : Z).

(** How lines 96-110 end. *)
Definition batch_result (sched : list nat -> list nat) (parallel : bool)
    (max_workers : option Z) (page_count : nat) : outcome unit :=
  if parallel then
    if pool_size_ok max_workers then
      pool_result pdf_path output_dir dpi img_format quality None
        (sched (seq 0 page_count))
    else Raise PoolSizeError
  else loop_result pdf_path output_dir dpi img_format quality (seq 0 page_count).

(** The tasks handed to the pool. *)
Definition batch_submits (parallel : bool) (max_workers : option Z)
    (page_count : nat) : list nat :=
  if (parallel && pool_size_ok max_workers)%bool then seq 0 page_count else [].

(** Whether lines 83-84 get through: the directory is there or can be
    created. *)
Definition output_dir_ok (w : world) : bool :=
  (bool_decide (is_Some (fs w !! output_dir)) || can_makedirs output_dir)%bool.

End BatchResult.


(** What a loop does to the world, as far as the claims look at it. *)
Record advances (w w' : world) (delta : list event)
    (files : list (string * list byte)) : Prop := {
  adv_trace : trace w' = (trace w ++ delta)%list;
  adv_fs : fs w' = apply_writes files (fs w);
  adv_writes : writes delta = files;
  adv_submits : submits delta = []
}.

(** One step of symbolic execution of a monadic program. *)
Ltac run_step :=
  unfold bind, ret, raise, emit, time_time, fitz_open, load_page, doc_close,
    page_get_pixmap, frombytes, save, save_to_buffer, write_file; simpl.

(** ** Further projections of a trace, for the properties beyond the
    claims *)

(** The events of a page task and of its progress line. *)
Definition page_event (e : event) : bool :=
  match e with
  | EvCall _ | EvOpen _ _ | EvClose _ | EvWrite _ _ => true
  | EvPrint (LinePage _ _ _) => true
  | _ => false
  end.

(** A printed line without its measured duration. *)
Inductive line_shape : Type :=
  | ShConverting (page_count : nat) (parallel : bool)
  | ShPage (page : nat) (page_count : nat)
  | ShTotal.

Definition printed (tr : list event) : list line_shape :=
  omap (fun e =>
          match e with
          | EvPrint (LineConverting n p) => Some (ShConverting n p)
          | EvPrint (LinePage k n _) => Some (ShPage k n)
          | EvPrint (LineTotal _) => Some ShTotal
          | _ => None
          end) tr.

(** The opening and closing of documents, in order. *)
Definition handle_events (tr : list event) : list event :=
  omap (fun e => match e with EvOpen _ _ | EvClose _ => Some e | _ => None end) tr.

Definition makedirs_of (tr : list event) : list string :=
  omap (fun e => match e with EvMakedirs p => Some p | _ => None end) tr.

(** Handles are given out in increasing order: the open ones lie below
    the next one. *)
Definition handles_fresh (w : world) : Prop :=
  forall h, h ∈ open_docs w -> h < next_doc w.


(** The events of lines 96-110: those of the page tasks, and the
    submissions to the pool. *)
Definition batch_event (e : event) : bool :=
  match e with
  | EvSubmit _ => true
  | _ => page_event e
  end.

Section Reported.
Context `{L : Library}.
Variables (pdf_path output_dir : string) (dpi : Z) (img_format : string)
  (quality : Z).

(** The pages whose progress line a batch prints, in the order it prints
    them: those completed before the first task that raises. *)
Definition batch_reported (sched : list nat -> list nat) (parallel : bool)
    (max_workers : option Z) (page_count : nat) : list nat :=
  if parallel then
    if pool_size_ok max_workers then
      completed pdf_path output_dir dpi img_format quality
        (sched (seq 0 page_count))
    else []
  else completed pdf_path output_dir dpi img_format quality (seq 0 page_count).

End Reported.


(** ** A library in which one write fails

    As [Demo.lib], except that the file of the second page of the sample
    document cannot be written. *)
Module Faulty.

Definition lib : Library := {|
  page := nat;
  image := list byte;
  fitz_pages := Demo.pages_at;
  get_pixmap := Demo.render;
  Image_frombytes := fun _ _ data => Some data;
  Image_encode := Demo.encode;
  can_makedirs := fun p => negb (String.eqb p "");
  can_write := fun p => negb (String.eqb p "out/sample_2.png");
  clock := fun n => inject_Z (Z.of_nat n)
|}.

Definition sequential_run : outcome unit * world :=
  @pdf_to_jpeg lib Demo.fifo "docs/sample.pdf" "out" 150 false None "png" 80 Demo.w0.

Definition parallel_run : outcome unit * world :=
  @pdf_to_jpeg lib Demo.lifo "docs/sample.pdf" "out" 150 true (Some 2%Z) "png" 80
    Demo.w0.

End Faulty.

(** As [Demo.lib], except that the directory [out/img/p] cannot be made,
    though its parents can. *)
Module Locked.

Definition lib : Library := {|
  page := nat;
  image := list byte;
  fitz_pages := Demo.pages_at;
  get_pixmap := Demo.render;
  Image_frombytes := fun _ _ data => Some data;
  Image_encode := Demo.encode;
  can_makedirs := fun p => (negb (String.eqb p "") && negb (String.eqb p "out/img/p"))%bool;
  can_write := fun _ => true;
  clock := fun n => inject_Z (Z.of_nat n)
|}.

Definition nested_run : outcome unit * world :=
  @pdf_to_jpeg lib Demo.fifo "docs/sample.pdf" "out/img/p" 150 false None "png" 80
    Demo.w0.

End Locked.

(** Further runs on [Demo.lib]: a pool of no workers, and a world in
    which the output directory and another file are already there. *)
Module More.

Definition empty_pool_run : outcome unit * world :=
  @pdf_to_jpeg Demo.lib Demo.fifo "docs/sample.pdf" "out" 150 true (Some 0%Z)
    "png" 80 Demo.w0.

Definition w_used : world :=
  World (<["out" := Dir]> (<["out/notes.txt" := File [x41]]> ∅)) ∅ 0 0 [].

Definition rerun_in_place : outcome unit * world :=
  @pdf_to_jpeg Demo.lib Demo.lifo "docs/sample.pdf" "out" 150 true None "png" 80
    w_used.

Definition sequential_in_place : outcome unit * world :=
  @pdf_to_jpeg Demo.lib Demo.lifo "docs/sample.pdf" "out" 150 false None "png" 80
    w_used.

Definition png_page_run : outcome (nat * Q) * world :=
  @process_page Demo.lib "docs/sample.pdf" 1 "out" 150 "png" 80 w_used.

(** A path that holds no PDF, with an output directory two levels below
    a directory that is not there either; and the sample document with
    that output directory. *)
Definition nested_missing_run : outcome unit * world :=
  @pdf_to_jpeg Demo.lib Demo.fifo "docs/missing.pdf" "out/img/p" 150 false None
    "png" 80 Demo.w0.

(** The sample document among the files, converted next to itself. *)
Definition w_with_pdf : world :=
  World (<["docs/sample.pdf" := File (list_byte_of_string "%PDF-1.7")]>
           (<["docs" := Dir]> ∅)) ∅ 0 0 [].

Definition beside_the_pdf_run : outcome unit * world :=
  @pdf_to_jpeg Demo.lib Demo.lifo "docs/sample.pdf" "docs" 150 true
    None "png" 80 w_with_pdf.

Definition nested_run : outcome unit * world :=
  @pdf_to_jpeg Demo.lib Demo.lifo "docs/sample.pdf" "out/img/p" 150 true None
    "png" 80 Demo.w0.

End More.


(* ================================================================== *)

(** ** The library functions on known values

    The expected values are those the Python interpreter gives. *)

Section KnownValues.

Example lower_mixed_case : Str.lower "PnG" = "png".
Proof. reflexivity. Qed.

Example lower_keeps_digits : Str.lower "BASE64" = "base64".
Proof. reflexivity. Qed.

Example of_nat_120 : Str.of_nat 120 = "120".
Proof. reflexivity. Qed.

Example basename_nested : posixpath.basename "/a/b/c.pdf" = "c.pdf".
Proof. reflexivity. Qed.

Example basename_trailing_sep : posixpath.basename "a/" = "".
Proof. reflexivity. Qed.

Example splitext_last_dot :
  posixpath.splitext "a.b/c.tar.gz" = ("a.b/c.tar", ".gz").
Proof. reflexivity. Qed.

Example splitext_dot_in_directory : posixpath.splitext "a.b/c" = ("a.b/c", "").
Proof. reflexivity. Qed.

Example splitext_leading_dot : posixpath.splitext "x/.bashrc" = ("x/.bashrc", "").
Proof. reflexivity. Qed.

Example splitext_leading_dots : posixpath.splitext "x/..a.b" = ("x/..a", ".b").
Proof. reflexivity. Qed.

Example splitext_only_dots : posixpath.splitext "x/..." = ("x/...", "").
Proof. reflexivity. Qed.

Example join_plain_directory : posixpath.join "out" "a_1.png" = "out/a_1.png".
Proof. reflexivity. Qed.

Example join_trailing_sep : posixpath.join "out/" "a_1.png" = "out/a_1.png".
Proof. reflexivity. Qed.

Example join_empty_directory : posixpath.join "" "a_1.png" = "a_1.png".
Proof. reflexivity. Qed.

Example join_absolute_name : posixpath.join "out" "/a_1.png" = "/a_1.png".
Proof. reflexivity. Qed.

Example file_name_sample : file_name "docs/sample.pdf" = "sample".
Proof. reflexivity. Qed.

Example split_nested : posixpath.split "a/b/c" = ("a/b", "c").
Proof. reflexivity. Qed.

Example split_root : posixpath.split "/x" = ("/", "x").
Proof. reflexivity. Qed.

Example split_double_sep : posixpath.split "a//b" = ("a", "b").
Proof. reflexivity. Qed.

Example split_trailing_sep : posixpath.split "out/" = ("out", "").
Proof. reflexivity. Qed.

Example split_plain : posixpath.split "out" = ("", "out").
Proof. reflexivity. Qed.

Example makedirs_head_nested : makedirs_head "a/b/c" = Some "a/b".
Proof. reflexivity. Qed.

Example makedirs_head_trailing_sep : makedirs_head "a/b/" = Some "a".
Proof. reflexivity. Qed.

Example makedirs_head_plain : makedirs_head "out" = None.
Proof. reflexivity. Qed.

Example makedirs_heads_nested : makedirs_heads 5 ∅ "a/b/c" = ["a/b"; "a"].
Proof. reflexivity. Qed.

Example makedirs_heads_stop_at_existing :
  makedirs_heads 5 (<["a" := Dir]> ∅) "a/b/c" = ["a/b"].
Proof. reflexivity. Qed.

Example spells_mixed_case : spells "PnG" "png" = true.
Proof. reflexivity. Qed.

Example spells_capitals_and_digits : spells "BASE64" "base64" = true.
Proof. reflexivity. Qed.

Example spells_other_name : spells "jpg" "jpeg" = false.
Proof. reflexivity. Qed.

Example b64encode_Man :
  Base64.b64encode (list_byte_of_string "Man") = list_byte_of_string "TWFu".
Proof. reflexivity. Qed.

Example b64encode_Ma :
  Base64.b64encode (list_byte_of_string "Ma") = list_byte_of_string "TWE=".
Proof. reflexivity. Qed.

Example b64encode_M :
  Base64.b64encode (list_byte_of_string "M") = list_byte_of_string "TQ==".
Proof. reflexivity. Qed.

Example b64encode_high_bytes :
  Base64.b64encode [xff; xfe; xfd; xfb] = list_byte_of_string "//79+w==".
Proof. reflexivity. Qed.

Example b64decode_padded :
  Base64.b64decode (list_byte_of_string "Zm9vYmE=")
  = Some (list_byte_of_string "fooba").
Proof. reflexivity. Qed.

End KnownValues.

(** ** Strings and paths *)

Section StringFacts.

#[local] Arguments String.append !s1 s2 : simpl nomatch.

Lemma append_assoc_s (a b c : string) : (a ++ b) ++ c = a ++ (b ++ c).
Proof. induction a as [|x a IH]; simpl; [reflexivity | now rewrite IH]. Qed.

Lemma append_inv_empty (a : string) : a ++ "" = a.
Proof. induction a as [|x a IH]; simpl; [reflexivity | now rewrite IH]. Qed.

Lemma length_append_s (a b : string) :
  String.length (a ++ b) = String.length a + String.length b.
Proof. induction a as [|x a IH]; simpl; [reflexivity | now rewrite IH]. Qed.

(** Cancellation of a common suffix. *)
Lemma append_inv_tail (a b t : string) : a ++ t = b ++ t -> a = b.
Proof.
  revert b. induction a as [|x a IH]; intros [|y b] H; simpl in H.
  - reflexivity.
  - apply (f_equal String.length) in H. simpl in H.
    rewrite length_append_s in H. lia.
  - apply (f_equal String.length) in H. simpl in H.
    rewrite length_append_s in H. lia.
  - injection H as -> H. f_equal. now apply IH.
Qed.

Lemma contains_app c (a b : string) :
  Str.contains c (a ++ b) = (Str.contains c a || Str.contains c b)%bool.
Proof.
  induction a as [|x a IH]; simpl; [reflexivity|].
  rewrite IH. now rewrite orb_assoc.
Qed.

Lemma all_char_app c (a b : string) :
  Str.all_char c (a ++ b) = (Str.all_char c a && Str.all_char c b)%bool.
Proof.
  induction a as [|x a IH]; simpl; [reflexivity|].
  rewrite IH. now rewrite andb_assoc.
Qed.

Lemma rsplit_absent c (t : string) :
  Str.contains c t = false -> Str.rsplit c t = None.
Proof.
  induction t as [|x t IH]; simpl; [reflexivity|].
  intros [Hx Ht]%orb_false_iff. now rewrite IH, Hx.
Qed.

Lemma rsplit_Some c (s x y : string) :
  Str.rsplit c s = Some (x, y) -> s = x ++ String c y.
Proof.
  revert x y. induction s as [|a s IH]; simpl; intros x y H; [discriminate|].
  destruct (Str.rsplit c s) as [[p q]|].
  - injection H as <- <-. simpl. f_equal. now apply IH.
  - destruct (Ascii.eqb a c) eqn:E; [|discriminate].
    injection H as <- <-. apply Ascii.eqb_eq in E. now subst.
Qed.

(** What follows the last separator holds no separator. *)
Lemma rsplit_tail c (s x y : string) :
  Str.rsplit c s = Some (x, y) -> Str.contains c y = false.
Proof.
  revert x y. induction s as [|a s IH]; simpl; intros x y H; [discriminate|].
  destruct (Str.rsplit c s) as [[p q]|] eqn:E.
  - injection H as <- <-. now apply (IH p).
  - destruct (Ascii.eqb a c); [|discriminate].
    injection H as <- <-.
    clear IH. induction s as [|b s IHs]; simpl in *; [reflexivity|].
    destruct (Str.rsplit c s) as [[p q]|]; [discriminate|].
    destruct (Ascii.eqb b c); [discriminate|]. now apply IHs.
Qed.

Lemma rsplit_None c (s : string) :
  Str.rsplit c s = None -> Str.contains c s = false.
Proof.
  induction s as [|x s IH]; simpl; [reflexivity|].
  destruct (Str.rsplit c s) as [[p q]|]; [discriminate|].
  destruct (Ascii.eqb x c); [discriminate|]. intros _. now apply IH.
Qed.

(** A suffix without the separator does not move the split point. *)
Lemma rsplit_app_absent c (a t : string) :
  Str.contains c t = false ->
  Str.rsplit c (a ++ t) =
  match Str.rsplit c a with
  | Some (x, y) => Some (x, y ++ t)
  | None => None
  end.
Proof.
  intros Ht. induction a as [|x a IH]; simpl.
  - now apply rsplit_absent.
  - rewrite IH. destruct (Str.rsplit c a) as [[p q]|]; [reflexivity|].
    now destruct (Ascii.eqb x c).
Qed.

Lemma rsplit_last c (a t : string) :
  Str.contains c t = false -> Str.rsplit c (a ++ String c t) = Some (a, t).
Proof.
  intros Ht. induction a as [|x a IH]; simpl.
  - rewrite (rsplit_absent _ _ Ht). now rewrite Ascii.eqb_refl.
  - now rewrite IH.
Qed.

(** [splitext] takes off an extension that holds neither a dot nor a
    separator, when the name before it is more than dots. *)
Lemma splitext_strip (a t e : string) :
  Str.contains posixpath.sep t = false ->
  Str.all_char posixpath.extsep t = false ->
  Str.contains posixpath.extsep e = false ->
  Str.contains posixpath.sep e = false ->
  posixpath.splitext (a ++ t ++ String posixpath.extsep e) =
  (a ++ t, String posixpath.extsep e).
Proof.
  intros Hts Htd Hed Hes. unfold posixpath.splitext.
  assert (Hsuffix : Str.contains posixpath.sep (t ++ String posixpath.extsep e) = false).
  { rewrite contains_app, Hts. simpl. now rewrite Hes. }
  rewrite (rsplit_app_absent _ a _ Hsuffix).
  destruct (Str.rsplit posixpath.sep a) as [[x y]|] eqn:E.
  - rewrite <- (append_assoc_s y t), (rsplit_last _ (y ++ t) e Hed).
    rewrite all_char_app, Htd, andb_false_r.
    apply rsplit_Some in E. subst a.
    f_equal. rewrite !append_assoc_s. reflexivity.
  - rewrite <- (append_assoc_s a t), (rsplit_last _ (a ++ t) e Hed).
    rewrite all_char_app, Htd, andb_false_r. reflexivity.
Qed.

Lemma basename_no_sep (p : string) :
  Str.contains posixpath.sep (posixpath.basename p) = false.
Proof.
  unfold posixpath.basename.
  destruct (Str.rsplit posixpath.sep p) as [[x y]|] eqn:E.
  - now apply rsplit_tail in E.
  - now apply rsplit_None.
Qed.

(** The root [splitext] gives for a name without separator has none. *)
Lemma splitext_root_no_sep (s : string) :
  Str.contains posixpath.sep s = false ->
  Str.contains posixpath.sep (fst (posixpath.splitext s)) = false.
Proof.
  intros Hs. unfold posixpath.splitext.
  rewrite (rsplit_absent _ _ Hs).
  destruct (Str.rsplit posixpath.extsep s) as [[r e]|] eqn:E; [|exact Hs].
  destruct (Str.all_char posixpath.extsep r); [exact Hs|].
  apply rsplit_Some in E. subst s. simpl.
  rewrite contains_app in Hs. now apply orb_false_iff in Hs as [Hr _].
Qed.

(** [join] under a directory that is not empty and has no trailing
    separator puts one separator in between. *)
Lemma join_plain (d b : string) :
  d <> "" -> Str.endswith posixpath.sep d = false ->
  Str.startswith posixpath.sep b = false ->
  posixpath.join d b = d ++ String posixpath.sep b.
Proof.
  intros Hd He Hb. unfold posixpath.join. rewrite Hb, He.
  destruct (String.eqb_spec d ""); [contradiction | reflexivity].
Qed.

Lemma join_app (d s t : string) :
  s <> "" -> posixpath.join d (s ++ t) = posixpath.join d s ++ t.
Proof.
  intros Hs. destruct s as [|x s]; [congruence|].
  unfold posixpath.join. simpl.
  destruct (Ascii.eqb x posixpath.sep); [reflexivity|].
  destruct (String.eqb d "" || Str.endswith posixpath.sep d)%bool.
  - now rewrite (append_assoc_s d (String x s) t).
  - now rewrite (append_assoc_s d (String posixpath.sep (String x s)) t).
Qed.

(** Lowering maps only letters: a character that lowering leaves alone
    and that the lowered string lacks is absent from the string. *)
Lemma lower_contains c (s : string) :
  Str.lower_char c = c ->
  Str.contains c (Str.lower s) = false -> Str.contains c s = false.
Proof.
  intros Hc. induction s as [|x s IH]; simpl; [reflexivity|].
  intros [Hx Hs]%orb_false_iff. rewrite (IH Hs), orb_false_r.
  destruct (Ascii.eqb x c) eqn:E; [|reflexivity].
  apply Ascii.eqb_eq in E. subst x. rewrite Hc, Ascii.eqb_refl in Hx. discriminate.
Qed.

Lemma lower_char_idem c : Str.lower_char (Str.lower_char c) = Str.lower_char c.
Proof.
  destruct c as [[] [] [] [] [] [] [] []]; reflexivity.
Qed.

Lemma lower_idem (s : string) : Str.lower (Str.lower s) = Str.lower s.
Proof.
  induction s as [|x s IH]; simpl; [reflexivity|].
  now rewrite lower_char_idem, IH.
Qed.

(** Decimal numerals hold digits only. *)
Lemma string_of_uint_no_sep d :
  Str.contains posixpath.sep (NilEmpty.string_of_uint d) = false.
Proof. induction d; simpl; auto. Qed.

Lemma string_of_uint_not_dots d :
  d <> Decimal.Nil ->
  Str.all_char posixpath.extsep (NilEmpty.string_of_uint d) = false.
Proof. destruct d; simpl; congruence. Qed.

Lemma of_nat_no_sep n : Str.contains posixpath.sep (Str.of_nat n) = false.
Proof. apply string_of_uint_no_sep. Qed.

Lemma of_nat_not_dots n :
  Str.all_char posixpath.extsep (Str.of_nat (S n)) = false.
Proof.
  apply string_of_uint_not_dots. intros H.
  pose proof (DecimalNat.Unsigned.of_to (S n)) as E. rewrite H in E. discriminate.
Qed.

Lemma of_nat_inj a b : Str.of_nat a = Str.of_nat b -> a = b.
Proof.
  unfold Str.of_nat. intros H.
  apply DecimalNat.Unsigned.to_uint_inj.
  pose proof (NilEmpty.usu (Nat.to_uint a)) as Ha.
  pose proof (NilEmpty.usu (Nat.to_uint b)) as Hb.
  rewrite H in Ha. congruence.
Qed.

(** A spelling in capitals or small letters lowers to the name. *)
Lemma capital_lower (d : ascii) :
  Str.lower_char d = d -> Str.lower_char (capital d) = d.
Proof.
  destruct d as [[] [] [] [] [] [] [] []]; intros H;
    vm_compute in H |- *; congruence.
Qed.

Lemma spells_lower (s name : string) :
  spells s name = true -> Str.lower name = name -> Str.lower s = name.
Proof.
  revert name. induction s as [|c s IH]; intros [|d name]; simpl;
    try discriminate; [reflexivity|].
  intros [Hc Hs]%andb_true_iff [= Hd Hn]. f_equal.
  - apply orb_true_iff in Hc as [E|E]; apply Ascii.eqb_eq in E; subst c.
    + exact Hd.
    + now apply capital_lower.
  - now apply IH.
Qed.

End StringFacts.

(** ** Directories *)

Section Directories.
Context `{L : Library}.

#[local] Arguments String.append !s1 s2 : simpl nomatch.

Lemma rstrip_prefix c (s : string) : exists rest, s = Str.rstrip c s ++ rest.
Proof.
  induction s as [|x s [rest IH]]; [now exists ""|].
  cbn [Str.rstrip]. destruct (Str.rstrip c s) as [|y r].
  - simpl in IH. subst rest. destruct (Ascii.eqb x c).
    + now exists (String x s).
    + now exists s.
  - exists rest. simpl. now rewrite IH at 1.
Qed.

(** The head of [split] is an initial part of the path, the tail its
    end. *)
Lemma split_parts (p h t : string) :
  posixpath.split p = (h, t) -> exists mid, p = h ++ mid ++ t.
Proof.
  unfold posixpath.split.
  destruct (Str.rsplit posixpath.sep p) as [[a tail]|] eqn:E.
  - apply rsplit_Some in E.
    assert (E' : p = (a ++ String posixpath.sep "") ++ tail).
    { rewrite E, append_assoc_s. reflexivity. }
    destruct (Str.all_char posixpath.sep (a ++ String posixpath.sep "")).
    + intros [= <- <-]. now exists "".
    + intros [= <- <-].
      destruct (rstrip_prefix posixpath.sep (a ++ String posixpath.sep ""))
        as [rest Hrest].
      exists rest. rewrite <- append_assoc_s, <- Hrest. exact E'.
  - intros [= <- <-]. now exists "".
Qed.

Lemma makedirs_head_parts (name head : string) :
  makedirs_head name = Some head ->
  String.length head < String.length name /\ exists rest, name = head ++ rest.
Proof.
  unfold makedirs_head.
  destruct (posixpath.split name) as [h1 t1] eqn:E1.
  apply split_parts in E1 as [mid1 E1].
  destruct (String.eqb_spec t1 "") as [->|Ht1].
  - destruct (posixpath.split h1) as [h2 t2] eqn:E2.
    apply split_parts in E2 as [mid2 E2].
    destruct (String.eqb_spec h2 ""); [discriminate|].
    destruct (String.eqb_spec t2 "") as [|Ht2]; [discriminate|].
    intros [= <-]. split.
    + rewrite E1, E2, !length_append_s.
      destruct t2; [contradiction | simpl; lia].
    + exists (mid2 ++ t2 ++ mid1 ++ ""). rewrite E1, E2.
      now rewrite !append_assoc_s.
  - destruct (String.eqb_spec h1 ""); [discriminate|].
    destruct (String.eqb_spec t1 ""); [contradiction|].
    intros [= <-]. split.
    + rewrite E1, !length_append_s.
      destruct t1; [contradiction | simpl; lia].
    + exists (mid1 ++ t1). exact E1.
Qed.

(** Every head on the way is missing, shorter than the name and an
    initial part of it. *)
Lemma makedirs_heads_In depth m (name h : string) :
  In h (makedirs_heads depth m name) ->
  m !! h = None /\ String.length h < String.length name /\
  exists rest, name = h ++ rest.
Proof.
  revert name. induction depth as [|depth IH]; intros name; [intros []|].
  cbn [makedirs_heads].
  destruct (makedirs_head name) as [head|] eqn:E; [|intros []].
  apply makedirs_head_parts in E as [Hlen [rest Hrest]].
  destruct (bool_decide (is_Some (m !! head))) eqn:Hex; [intros []|].
  apply bool_decide_eq_false in Hex.
  intros [<-|Hin].
  - split; [|split; [exact Hlen | now exists rest]].
    destruct (m !! head) eqn:Hm; [|reflexivity]. exfalso. apply Hex. eauto.
  - destruct (IH _ Hin) as (Hm & Hl & rest' & Hr).
    split; [exact Hm|]. split; [lia|].
    exists (rest' ++ rest). now rewrite Hrest, Hr, append_assoc_s.
Qed.

(** The length of the name is depth enough: the recursion ends on a name
    without a head, or on a head that exists. *)
Lemma makedirs_heads_depth m (name : string) n1 n2 :
  String.length name <= n1 -> String.length name <= n2 ->
  makedirs_heads n1 m name = makedirs_heads n2 m name.
Proof.
  revert n2 name. induction n1 as [|n1 IH]; intros n2 name H1 H2.
  - destruct name; [|simpl in H1; lia]. now destruct n2.
  - destruct n2 as [|n2].
    + destruct name; [reflexivity | simpl in H2; lia].
    + cbn [makedirs_heads].
      destruct (makedirs_head name) as [head|] eqn:E; [|reflexivity].
      apply makedirs_head_parts in E as [Hlen _].
      destruct (bool_decide _); [reflexivity|].
      f_equal. apply IH; lia.
Qed.

Lemma makedirs_heads_eq m (name : string) :
  makedirs_heads (String.length name) m name =
  match makedirs_head name with
  | Some head =>
      if bool_decide (is_Some (m !! head)) then []
      else head :: makedirs_heads (String.length head) m head
  | None => []
  end.
Proof.
  destruct (makedirs_head name) as [head|] eqn:E.
  - pose proof (makedirs_head_parts _ _ E) as [Hlen _].
    destruct (String.length name) as [|n] eqn:Hn; [lia|].
    cbn [makedirs_heads]. rewrite E.
    destruct (bool_decide _); [reflexivity|].
    f_equal. apply makedirs_heads_depth; lia.
  - destruct (String.length name); [reflexivity|].
    cbn [makedirs_heads]. now rewrite E.
Qed.

Lemma mkdirs_In dirs (m : gmap string node) p :
  In p dirs -> mkdirs dirs m !! p = Some Dir.
Proof.
  induction dirs as [|d dirs IH]; [intros []|].
  cbn [mkdirs foldr]. fold (mkdirs dirs m).
  destruct (decide (d = p)) as [->|Hne].
  - intros _. apply lookup_insert_eq.
  - intros [E|Hin]; [contradiction|]. rewrite lookup_insert_ne by exact Hne.
    now apply IH.
Qed.

Lemma mkdirs_other dirs (m : gmap string node) p :
  ~ In p dirs -> mkdirs dirs m !! p = m !! p.
Proof.
  induction dirs as [|d dirs IH]; [reflexivity|].
  intros Hn. cbn [mkdirs foldr]. fold (mkdirs dirs m).
  rewrite lookup_insert_ne by (intros ->; apply Hn; now left).
  apply IH. intros Hin. apply Hn. now right.
Qed.

(** Making directories changes a path in one way only: a path that
    held nothing holds a directory. *)
Lemma mkdirs_lookup dirs (m : gmap string node) p :
  (forall d, In d dirs -> m !! d = None) ->
  mkdirs dirs m !! p = m !! p \/
  (In p dirs /\ m !! p = None /\ mkdirs dirs m !! p = Some Dir).
Proof.
  intros Hnew. destruct (in_dec string_dec p dirs) as [Hin|Hn].
  - right. split; [exact Hin|]. split; [now apply Hnew | now apply mkdirs_In].
  - left. now apply mkdirs_other.
Qed.

Lemma made_heads_In heads h : In h (made_heads heads) -> In h heads.
Proof.
  induction heads as [|x heads IH]; [intros []|].
  cbn [made_heads]. destruct (can_makedirs x); [tauto|].
  intros H. right. now apply IH.
Qed.

(** A call that failed fails in the same way when it is made again, and
    makes nothing more. *)
Lemma made_heads_again depth m (name : string) :
  made_heads
    (makedirs_heads depth
       (mkdirs (made_heads (makedirs_heads depth m name)) m) name) = [].
Proof.
  revert name. induction depth as [|depth IH]; intros name; [reflexivity|].
  cbn [makedirs_heads].
  destruct (makedirs_head name) as [head|] eqn:E; [|reflexivity].
  destruct (bool_decide (is_Some (m !! head))) eqn:Hex.
  - cbn [made_heads mkdirs foldr]. now rewrite Hex.
  - cbn [made_heads]. destruct (can_makedirs head) eqn:Hcan.
    + assert (Hthere : bool_decide
                (is_Some (mkdirs (head :: makedirs_heads depth m head) m !! head))
              = true).
      { apply bool_decide_eq_true. rewrite mkdirs_In by now left. eauto. }
      now rewrite Hthere.
    + assert (Hmiss : bool_decide
                (is_Some (mkdirs (made_heads (makedirs_heads depth m head)) m !! head))
              = false).
      { rewrite mkdirs_other; [exact Hex|].
        intros Hin%made_heads_In%makedirs_heads_In. lia. }
      rewrite Hmiss. cbn [made_heads]. rewrite Hcan. apply IH.
Qed.

(** What lines 83-84 do to a path, when they get through and when
    [os.makedirs] raises: nothing, or the path held nothing and holds a
    directory now, and is an initial part of the name of the output
    directory. *)
Lemma makedirs_lookup w (output_dir p : string) :
  fs (world_after_makedirs w output_dir) !! p = fs w !! p \/
  (fs w !! p = None /\ fs (world_after_makedirs w output_dir) !! p = Some Dir /\
   exists rest, output_dir = p ++ rest).
Proof.
  unfold world_after_makedirs.
  destruct (bool_decide (is_Some (fs w !! output_dir))) eqn:Hex; [now left|].
  apply bool_decide_eq_false in Hex. cbn [fs].
  destruct (decide (output_dir = p)) as [<-|Hne].
  - right. rewrite lookup_insert_eq. split; [|split; [reflexivity|]].
    + destruct (fs w !! output_dir) eqn:E; [|reflexivity].
      exfalso. apply Hex. eauto.
    + exists "". now rewrite append_inv_empty.
  - rewrite lookup_insert_ne by exact Hne.
    set (heads := makedirs_heads _ _ _).
    destruct (mkdirs_lookup heads (fs w) p) as [E|(Hin & Hnone & Hdir)].
    + intros d Hd. now apply makedirs_heads_In in Hd.
    + now left.
    + right. split; [exact Hnone|]. split; [exact Hdir|].
      now apply makedirs_heads_In in Hin as (_ & _ & Hrest).
Qed.

Lemma failed_makedirs_lookup w (output_dir p : string) :
  fs (world_after_failed_makedirs w output_dir) !! p = fs w !! p \/
  (fs w !! p = None /\
   fs (world_after_failed_makedirs w output_dir) !! p = Some Dir /\
   exists rest, output_dir = p ++ rest).
Proof.
  unfold world_after_failed_makedirs. cbn [fs].
  set (heads := makedirs_heads _ _ _).
  destruct (mkdirs_lookup (made_heads heads) (fs w) p) as [E|(Hin & Hnone & Hdir)].
  - intros d Hd%made_heads_In. now apply makedirs_heads_In in Hd.
  - now left.
  - right. split; [exact Hnone|]. split; [exact Hdir|].
    now apply made_heads_In, makedirs_heads_In in Hin as (_ & _ & Hrest).
Qed.

End Directories.

Section ProcessPage.
Context `{L : Library}.

Lemma handle_is_open (h : nat) (s : gset nat) :
  bool_decide (h ∈ {[h]} ∪ s) = true.
Proof.
  apply bool_decide_eq_true, elem_of_union_l. now apply elem_of_singleton.
Qed.

Lemma process_page_run pdf_path page_num output_dir dpi img_format quality w :
  process_page pdf_path page_num output_dir dpi img_format quality w =
  match page_file pdf_path page_num output_dir dpi img_format quality with
  | Ret (p, b) =>
      (Ret (page_num, page_duration_at w), world_after_page w pdf_path page_num p b)
  | Raise e =>
      (Raise e,
       match fitz_pages pdf_path with
       | None => world_after_open_failure w page_num
       | Some _ => world_after_failure w pdf_path page_num
       end)
  end.
Proof.
  unfold process_page, page_file, rasterise, written_path, encode_and_write, dispatch.
  unfold world_after_page, world_after_failure, world_after_open_failure, page_duration_at.
  run_step.
  destruct (fitz_pages pdf_path) as [ps|]; simpl; [|reflexivity].
  destruct (nth_error ps page_num) as [pg|]; simpl;
    [|rewrite <- ?app_assoc; reflexivity].
  destruct (get_pixmap pg _) as [pix|]; simpl;
    [|rewrite <- ?app_assoc; reflexivity].
  destruct (Image_frombytes _ _ _) as [img|]; simpl;
    [|rewrite <- ?app_assoc; reflexivity].
  repeat match goal with
  | |- context [String.eqb ?a ?b] => destruct (String.eqb a b); simpl
  end;
  repeat match goal with
  | |- context [can_write ?p] => destruct (can_write p) eqn:?; simpl
  | |- context [Image_encode ?i ?c] => destruct (Image_encode i c); simpl
  end;
  rewrite ?handle_is_open; simpl; rewrite <- ?app_assoc; reflexivity.
Qed.

End ProcessPage.

Section Paths.
Context `{L : Library}.

#[local] Arguments String.append !s1 s2 : simpl nomatch.

Lemma output_image_eq pdf_path page_num output_dir img_format :
  output_image pdf_path page_num output_dir img_format =
  path_stem pdf_path output_dir ++ Str.of_nat (page_num + 1) ++ "." ++ img_format.
Proof.
  unfold output_image, path_stem.
  rewrite <- join_app by (destruct (file_name pdf_path); discriminate).
  now rewrite append_assoc_s.
Qed.

Lemma dispatch_base64 img_format :
  dispatch img_format = BrBase64 <-> Str.lower img_format = "base64".
Proof.
  unfold dispatch. split.
  - destruct (String.eqb (Str.lower img_format) "webp"); [discriminate|].
    destruct (String.eqb (Str.lower img_format) "jpeg"
              || String.eqb (Str.lower img_format) "jpg")%bool; [discriminate|].
    destruct (String.eqb (Str.lower img_format) "png"); [discriminate|].
    destruct (String.eqb (Str.lower img_format) "base64") eqn:E; [|discriminate].
    intros _. now apply String.eqb_eq.
  - intros ->. reflexivity.
Qed.

Lemma file_name_no_sep pdf_path :
  Str.contains posixpath.sep (file_name pdf_path) = false.
Proof. apply splitext_root_no_sep, basename_no_sep. Qed.

(** The name of line 33 is relative: [join] keeps the directory. *)
Lemma output_name_relative pdf_path (rest : string) :
  Str.startswith posixpath.sep (file_name pdf_path ++ "_" ++ rest) = false.
Proof.
  pose proof (file_name_no_sep pdf_path) as H.
  destruct (file_name pdf_path) as [|x s]; [reflexivity|].
  simpl in *. now apply orb_false_iff in H as [Hx _].
Qed.

(** The base64 branch replaces the extension: [splitext] takes off
    exactly the format the caller wrote. *)
Lemma written_path_base64 pdf_path page_num output_dir img_format :
  dispatch img_format = BrBase64 ->
  written_path pdf_path page_num output_dir img_format =
  path_stem pdf_path output_dir ++ Str.of_nat (page_num + 1) ++ ".b64".
Proof.
  intros Hb. unfold written_path. rewrite Hb.
  apply dispatch_base64 in Hb.
  rewrite output_image_eq. simpl.
  rewrite splitext_strip; simpl.
  - now rewrite append_assoc_s.
  - apply of_nat_no_sep.
  - rewrite Nat.add_1_r. apply of_nat_not_dots.
  - apply lower_contains; [reflexivity | now rewrite Hb].
  - apply lower_contains; [reflexivity | now rewrite Hb].
Qed.

Lemma written_path_other pdf_path page_num output_dir img_format :
  dispatch img_format <> BrBase64 ->
  written_path pdf_path page_num output_dir img_format =
  path_stem pdf_path output_dir ++ Str.of_nat (page_num + 1) ++ "." ++ img_format.
Proof.
  intros Hb. unfold written_path. rewrite <- output_image_eq.
  now destruct (dispatch img_format).
Qed.

(** Two pages never share an output path. *)
Lemma written_path_inj pdf_path output_dir img_format i j :
  written_path pdf_path i output_dir img_format =
  written_path pdf_path j output_dir img_format -> i = j.
Proof.
  intros H.
  assert (E : exists suffix : string,
             forall k, written_path pdf_path k output_dir img_format =
                       path_stem pdf_path output_dir ++ Str.of_nat (k + 1) ++ suffix).
  { destruct (dispatch img_format) eqn:D.
    all: try (exists ("." ++ img_format); intros k; apply written_path_other;
              rewrite D; discriminate).
    exists ".b64". intros k. now apply written_path_base64. }
  destruct E as [suffix E]. rewrite !E in H.
  apply String.app_inj in H. apply append_inv_tail in H.
  apply of_nat_inj in H. lia.
Qed.

Lemma page_file_path pdf_path page_num output_dir dpi img_format quality p b :
  page_file pdf_path page_num output_dir dpi img_format quality = Ret (p, b) ->
  p = written_path pdf_path page_num output_dir img_format.
Proof.
  unfold page_file, encode_and_write.
  destruct (rasterise pdf_path page_num dpi) as [img|]; [|discriminate].
  destruct (dispatch img_format);
    repeat match goal with
    | |- context [can_write ?q] => destruct (can_write q)
    | |- context [Image_encode ?i ?c] => destruct (Image_encode i c)
    end; intros; simplify_eq; reflexivity.
Qed.

End Paths.

(** ** Base64 *)

Section Base64Facts.
Import Base64.

Local Open Scope Z_scope.

Lemma byte_to_Z_range b : 0 <= byte_to_Z b < 256.
Proof.
  unfold byte_to_Z. pose proof (Byte.to_N_bounded b). lia.
Qed.

Lemma byte_of_to_Z b : byte_of_Z (byte_to_Z b) = b.
Proof.
  unfold byte_of_Z, byte_to_Z. now rewrite N2Z.id, Byte.of_to_N.
Qed.

(** A value below [2^k] fills the [k] low bits that a left shift by [k]
    leaves empty. *)
Lemma lor_shiftl_small a x k :
  0 <= a -> 0 <= k -> 0 <= x < 2 ^ k ->
  Z.lor (Z.shiftl a k) x = a * 2 ^ k + x.
Proof.
  intros Ha Hk Hx.
  assert (Hdisj : Z.land (Z.shiftl a k) x = 0).
  { apply Z.bits_inj'. intros i Hi.
    rewrite Z.land_spec, Z.bits_0.
    destruct (Z.lt_ge_cases i k) as [Hlt|Hge].
    - now rewrite Z.shiftl_spec_low.
    - destruct (Z.eq_dec x 0) as [->|Hx0].
      + now rewrite Z.bits_0, andb_false_r.
      + assert (Z.log2 x < k) by (apply Z.log2_lt_pow2; lia).
        rewrite (Z.bits_above_log2 x i), andb_false_r; [reflexivity|lia|lia]. }
  rewrite <- Z.lxor_lor by exact Hdisj.
  rewrite <- Z.add_nocarry_lxor by exact Hdisj.
  now rewrite Z.shiftl_mul_pow2.
Qed.

Lemma sextet_eq n k : 0 <= k -> sextet n k = (n / 2 ^ (6 * k)) mod 64.
Proof.
  intros Hk. unfold sextet.
  rewrite Z.shiftr_div_pow2 by lia.
  change 63 with (Z.ones 6). now rewrite Z.land_ones.
Qed.

Lemma sextet_range n k : 0 <= k -> 0 <= sextet n k < 64.
Proof. intros Hk. rewrite sextet_eq by exact Hk. apply Z.mod_pos_bound. lia. Qed.

Lemma group_eq a b c :
  group a b c = byte_to_Z a * 65536 + byte_to_Z b * 256 + byte_to_Z c.
Proof.
  pose proof (byte_to_Z_range a). pose proof (byte_to_Z_range b).
  pose proof (byte_to_Z_range c). unfold group.
  rewrite (lor_shiftl_small (byte_to_Z b) (byte_to_Z c) 8) by lia.
  rewrite (lor_shiftl_small (byte_to_Z a) _ 16) by lia.
  lia.
Qed.

Lemma ungroup_eq s3 s2 s1 s0 :
  0 <= s3 < 64 -> 0 <= s2 < 64 -> 0 <= s1 < 64 -> 0 <= s0 < 64 ->
  ungroup s3 s2 s1 s0 = s3 * 262144 + s2 * 4096 + s1 * 64 + s0.
Proof.
  intros H3 H2 H1 H0. unfold ungroup.
  rewrite (lor_shiftl_small s1 s0 6) by lia.
  rewrite (lor_shiftl_small s2 _ 12) by lia.
  rewrite (lor_shiftl_small s3 _ 18) by lia.
  lia.
Qed.

Lemma octet_eq n k : 0 <= k -> octet n k = byte_of_Z ((n / 2 ^ (8 * k)) mod 256).
Proof.
  intros Hk. unfold octet.
  rewrite Z.shiftr_div_pow2 by lia.
  change 255 with (Z.ones 8). now rewrite Z.land_ones.
Qed.

(** Cutting a 24-bit group into four 6-bit values loses nothing. *)
Lemma ungroup_sextets n :
  0 <= n < 16777216 ->
  ungroup (sextet n 3) (sextet n 2) (sextet n 1) (sextet n 0) = n.
Proof.
  intros Hn.
  rewrite ungroup_eq by (apply sextet_range; lia).
  rewrite !sextet_eq by lia.
  change (2 ^ (6 * 3)) with 262144. change (2 ^ (6 * 2)) with 4096.
  change (2 ^ (6 * 1)) with 64. change (2 ^ (6 * 0)) with 1.
  Z.div_mod_to_equations. lia.
Qed.

Lemma group_range a b c : 0 <= group a b c < 16777216.
Proof.
  rewrite group_eq.
  pose proof (byte_to_Z_range a). pose proof (byte_to_Z_range b).
  pose proof (byte_to_Z_range c). lia.
Qed.

Lemma octets_group a b c :
  octet (group a b c) 2 = a /\ octet (group a b c) 1 = b /\
  octet (group a b c) 0 = c.
Proof.
  pose proof (byte_to_Z_range a). pose proof (byte_to_Z_range b).
  pose proof (byte_to_Z_range c).
  rewrite !octet_eq by lia. rewrite group_eq.
  change (2 ^ (8 * 2)) with 65536. change (2 ^ (8 * 1)) with 256.
  change (2 ^ (8 * 0)) with 1.
  set (x := byte_to_Z a) in *. set (y := byte_to_Z b) in *.
  set (z := byte_to_Z c) in *.
  assert (E2 : ((x * 65536 + y * 256 + z) / 65536) mod 256 = x)
    by (Z.div_mod_to_equations; lia).
  assert (E1 : ((x * 65536 + y * 256 + z) / 256) mod 256 = y)
    by (Z.div_mod_to_equations; lia).
  assert (E0 : ((x * 65536 + y * 256 + z) / 1) mod 256 = z)
    by (Z.div_mod_to_equations; lia).
  rewrite E2, E1, E0. unfold x, y, z.
  now rewrite !byte_of_to_Z.
Qed.

(** The alphabet has 64 distinct characters, none of them the padding. *)
Lemma b64index_char s : 0 <= s < 64 -> b64index (b64char s) = Some s.
Proof.
  intros Hs. rewrite <- (Z2Nat.id s) by lia.
  assert (Hk : (Z.to_nat s < 64)%nat) by lia.
  generalize dependent (Z.to_nat s). clear s Hs. intros k Hk.
  do 64 (destruct k as [|k]; [reflexivity|]). lia.
Qed.

Lemma b64char_not_pad s : 0 <= s < 64 -> Byte.eqb (b64char s) pad = false.
Proof.
  intros Hs. rewrite <- (Z2Nat.id s) by lia.
  assert (Hk : (Z.to_nat s < 64)%nat) by lia.
  generalize dependent (Z.to_nat s). clear s Hs. intros k Hk.
  do 64 (destruct k as [|k]; [reflexivity|]). lia.
Qed.

Lemma decode_group_chars n :
  0 <= n < 16777216 ->
  decode_group (b64char (sextet n 3)) (b64char (sextet n 2))
               (b64char (sextet n 1)) (b64char (sextet n 0)) = Some n.
Proof.
  intros Hn. unfold decode_group.
  rewrite !b64index_char by (apply sextet_range; lia).
  now rewrite ungroup_sextets.
Qed.

Lemma sextet_low_zero n k j :
  0 <= k -> 0 <= j -> 6 * (k + 1) <= j -> sextet (n * 2 ^ j) k = 0.
Proof.
  intros Hk Hj Hle. rewrite sextet_eq by exact Hk.
  replace j with ((j - 6 * (k + 1)) + 6 + 6 * k) by lia.
  rewrite !Z.pow_add_r by lia.
  rewrite !Z.mul_assoc, Z.div_mul by (apply Z.pow_nonzero; lia).
  change (2 ^ 6) with 64. apply Z.mod_mul. lia.
Qed.

(** Decoding what [b64encode] produced gives the bytes back. *)
Lemma b64decode_b64encode bs : b64decode (b64encode bs) = Some bs.
Proof.
  assert (H : forall n bs, (length bs <= n)%nat -> b64decode (b64encode bs) = Some bs).
  { clear bs. induction n as [|n IH]; intros bs Hlen.
    - destruct bs; [reflexivity | simpl in Hlen; lia].
    - destruct bs as [|a [|b [|c rest]]]; [reflexivity| | |].
      + (* one byte, two characters and two paddings *)
        cbn [b64encode b64decode].
        change (Byte.eqb pad pad) with true. cbv iota.
        pose proof (group_range a x00 x00) as Hg.
        pose proof (octets_group a x00 x00) as (Ha & _ & _).
        set (n0 := group a x00 x00) in *.
        assert (E : decode_group (b64char (sextet n0 3)) (b64char (sextet n0 2))
                      "A"%byte "A"%byte = Some n0).
        { rewrite <- (decode_group_chars n0 Hg) at 1.
          assert (Z1 : sextet n0 1 = 0).
          { unfold n0. rewrite group_eq. change (byte_to_Z x00) with 0.
            replace (byte_to_Z a * 65536 + 0 * 256 + 0)
              with (byte_to_Z a * 2 ^ 16) by lia.
            apply sextet_low_zero; lia. }
          assert (Z0 : sextet n0 0 = 0).
          { unfold n0. rewrite group_eq. change (byte_to_Z x00) with 0.
            replace (byte_to_Z a * 65536 + 0 * 256 + 0)
              with (byte_to_Z a * 2 ^ 16) by lia.
            apply sextet_low_zero; lia. }
          rewrite Z1, Z0. reflexivity. }
        rewrite E. now rewrite Ha.
      + (* two bytes, three characters and one padding *)
        cbn [b64encode b64decode].
        change (Byte.eqb pad pad) with true. cbv iota.
        pose proof (group_range a b x00) as Hg.
        pose proof (octets_group a b x00) as (Ha & Hb & _).
        set (n0 := group a b x00) in *.
        rewrite (b64char_not_pad (sextet n0 1)) by (apply sextet_range; lia).
        assert (E : decode_group (b64char (sextet n0 3)) (b64char (sextet n0 2))
                      (b64char (sextet n0 1)) "A"%byte = Some n0).
        { rewrite <- (decode_group_chars n0 Hg) at 1.
          assert (Z0 : sextet n0 0 = 0).
          { unfold n0. rewrite group_eq. change (byte_to_Z x00) with 0.
            replace (byte_to_Z a * 65536 + byte_to_Z b * 256 + 0)
              with ((byte_to_Z a * 256 + byte_to_Z b) * 2 ^ 8) by lia.
            apply sextet_low_zero; lia. }
          rewrite Z0. reflexivity. }
        rewrite E. now rewrite Ha, Hb.
      + (* a full group *)
        cbn [b64encode b64decode].
        pose proof (group_range a b c) as Hg.
        pose proof (octets_group a b c) as (Ha & Hb & Hc).
        set (n0 := group a b c) in *.
        rewrite (b64char_not_pad (sextet n0 0)) by (apply sextet_range; lia).
        rewrite (decode_group_chars n0 Hg).
        rewrite (IH rest) by (simpl in Hlen; lia).
        now rewrite Ha, Hb, Hc. }
  apply (H (length bs)). lia.
Qed.

End Base64Facts.

(** ** One page *)

Section OnePage.
Context `{L : Library}.

Lemma events_since_app w tr' delta :
  tr' = (trace w ++ delta)%list ->
  drop (length (trace w)) tr' = delta.
Proof. intros ->. apply drop_app_length. Qed.

Lemma events_after_page w pdf_path page_num p b :
  events_since w (world_after_page w pdf_path page_num p b) =
  [EvCall page_num; EvOpen (next_doc w) pdf_path; EvWrite p b;
   EvClose (next_doc w)].
Proof. unfold events_since. now apply events_since_app. Qed.

Lemma events_after_failure w pdf_path page_num :
  events_since w (world_after_failure w pdf_path page_num) =
  [EvCall page_num; EvOpen (next_doc w) pdf_path].
Proof. unfold events_since. now apply events_since_app. Qed.

Lemma events_after_open_failure w page_num :
  events_since w (world_after_open_failure w page_num) = [EvCall page_num].
Proof. unfold events_since. now apply events_since_app. Qed.

(** A normal return of [process_page], read backwards. *)
Lemma process_page_Ret pdf_path page_num output_dir dpi img_format quality w r w' :
  process_page pdf_path page_num output_dir dpi img_format quality w = (Ret r, w') ->
  exists p b,
    page_file pdf_path page_num output_dir dpi img_format quality = Ret (p, b) /\
    r = (page_num, page_duration_at w) /\
    w' = world_after_page w pdf_path page_num p b.
Proof.
  rewrite process_page_run.
  destruct (page_file _ _ _ _ _ _) as [[p b]|e]; intros H; [|discriminate].
  inversion H; subst. now exists p, b.
Qed.

(** An exception of [process_page], read backwards. *)
Lemma process_page_Raise pdf_path page_num output_dir dpi img_format quality w e w' :
  process_page pdf_path page_num output_dir dpi img_format quality w = (Raise e, w') ->
  page_file pdf_path page_num output_dir dpi img_format quality = Raise e /\
  ((e = DocumentOpenError /\ fitz_pages pdf_path = None /\
    w' = world_after_open_failure w page_num) \/
   (e <> DocumentOpenError /\ fitz_pages pdf_path <> None /\
    w' = world_after_failure w pdf_path page_num)).
Proof.
  rewrite process_page_run.
  destruct (page_file _ _ _ _ _ _) as [[p b]|e0] eqn:E; intros H; [discriminate|].
  inversion H; subst. split; [reflexivity|].
  revert E. unfold page_file, rasterise, encode_and_write.
  destruct (fitz_pages pdf_path) as [ps|]; [|intros [= <-]; now left].
  intros E. right. split; [|split; [discriminate|reflexivity]].
  destruct (nth_error ps page_num); [|congruence].
  destruct (get_pixmap _ _); [|congruence].
  destruct (Image_frombytes _ _ _); [|congruence].
  destruct (dispatch img_format);
    repeat match type of E with
    | context [can_write ?q] => destruct (can_write q)
    | context [Image_encode ?i ?c] => destruct (Image_encode i c)
    end; congruence.
Qed.

(** C1, as amended.  The document [process_page] opens is closed exactly
    once when the call returns normally, after the output file is
    written.  When [fitz.open] itself raises, no document was opened.
    When a later step raises (loading the page, rasterising, encoding,
    writing the file), the exception propagates with the document still
    open: the function has no cleanup on its error paths. *)
Theorem process_page_closes_on_return_only
    pdf_path page_num output_dir dpi img_format quality w r w' :
  process_page pdf_path page_num output_dir dpi img_format quality w = (r, w') ->
  let h := next_doc w in
  match r with
  | Ret _ =>
      opens (events_since w w') = [h] /\ closes (events_since w w') = [h] /\
      (exists p b, events_since w w' =
                   [EvCall page_num; EvOpen h pdf_path; EvWrite p b; EvClose h]) /\
      h ∉ open_docs w'
  | Raise DocumentOpenError =>
      opens (events_since w w') = [] /\ closes (events_since w w') = [] /\
      open_docs w' = open_docs w
  | Raise _ =>
      opens (events_since w w') = [h] /\ closes (events_since w w') = [] /\
      h ∈ open_docs w'
  end.
Proof.
  intros H h. destruct r as [r|e].
  - apply process_page_Ret in H as (p & b & _ & _ & ->).
    rewrite events_after_page. repeat split; try reflexivity.
    + now exists p, b.
    + simpl. intros [_ Hn]%elem_of_difference. apply Hn. now apply elem_of_singleton.
  - apply process_page_Raise in H as [_ [(-> & _ & ->)|(Hne & _ & ->)]].
    + rewrite events_after_open_failure. now repeat split.
    + rewrite events_after_failure.
      assert (opens [EvCall page_num; EvOpen (next_doc w) pdf_path] = [h] /\
              closes [EvCall page_num; EvOpen (next_doc w) pdf_path] = [] /\
              h ∈ open_docs (world_after_failure w pdf_path page_num)) as G.
      { repeat split; try reflexivity. simpl.
        apply elem_of_union_l. now apply elem_of_singleton. }
      destruct e; try exact G. congruence.
Qed.

End OnePage.

Section OnePageClaims.
Context `{L : Library}.

#[local] Arguments String.append !s1 s2 : simpl nomatch.

Lemma process_page_writes pdf_path page_num output_dir dpi img_format quality w p b :
  page_file pdf_path page_num output_dir dpi img_format quality = Ret (p, b) ->
  exists r w',
    process_page pdf_path page_num output_dir dpi img_format quality w = (Ret r, w') /\
    fst r = page_num /\ writes (events_since w w') = [(p, b)].
Proof.
  intros E. rewrite process_page_run, E.
  eexists _, _. split; [reflexivity|]. split; [reflexivity|].
  now rewrite events_after_page.
Qed.

Lemma dispatch_unrecognised img_format :
  ~ In (Str.lower img_format) supported_formats -> dispatch img_format = BrDefault.
Proof.
  intros H. unfold dispatch.
  repeat match goal with
  | |- context [String.eqb ?a ?b] =>
      destruct (String.eqb_spec a b) as [E|_];
      [exfalso; apply H; rewrite E; simpl; tauto | simpl]
  end.
  reflexivity.
Qed.

(** C2, as amended.  A format that is none of webp, jpeg, jpg, png and
    base64 (whatever its case) is not an error: the page is encoded as
    WEBP at the given quality with method 0, as in the webp branch.  The
    file is written under the name of line 33, whose extension is the
    format string the caller passed, not [webp]. *)
Theorem unrecognised_format_is_webp_under_its_own_extension
    pdf_path page_num output_dir dpi img_format quality img data w :
  ~ In (Str.lower img_format) supported_formats ->
  rasterise pdf_path page_num dpi = Ret img ->
  Image_encode img (WEBP quality 0) = Some data ->
  can_write (posixpath.join output_dir
               (file_name pdf_path ++ "_" ++ Str.of_nat (page_num + 1) ++ "."
                ++ img_format)) = true ->
  exists r w',
    process_page pdf_path page_num output_dir dpi img_format quality w = (Ret r, w') /\
    fst r = page_num /\
    writes (events_since w w') =
    [(posixpath.join output_dir
        (file_name pdf_path ++ "_" ++ Str.of_nat (page_num + 1) ++ "."
         ++ img_format), data)].
Proof.
  intros Hfmt Himg Henc Hw. apply process_page_writes.
  unfold page_file, encode_and_write, written_path.
  rewrite Himg, (dispatch_unrecognised _ Hfmt).
  unfold output_image. simpl in *. now rewrite Hw, Henc.
Qed.

(** The file of a page, for a format that lowers to a supported name:
    the encoder is the one of the name, the file name ends in the format
    as it was passed, or in [b64]. *)
Lemma page_file_of_format
    name pdf_path page_num output_dir dpi img_format quality img data :
  In name supported_formats ->
  Str.lower img_format = name ->
  rasterise pdf_path page_num dpi = Ret img ->
  Image_encode img (table_codec quality name) = Some data ->
  can_write (posixpath.join output_dir
               (file_name pdf_path ++ "_" ++ Str.of_nat (page_num + 1) ++ "."
                ++ (if String.eqb name "base64" then "b64" else img_format))) = true ->
  page_file pdf_path page_num output_dir dpi img_format quality =
  Ret (posixpath.join output_dir
         (file_name pdf_path ++ "_" ++ Str.of_nat (page_num + 1) ++ "."
          ++ (if String.eqb name "base64" then "b64" else img_format)),
       if String.eqb name "base64" then Base64.b64encode data else data).
Proof.
  intros Hname Hlow Himg Henc Hw.
  unfold page_file, encode_and_write. rewrite Himg.
  simpl in Hname.
  destruct Hname as [<-|[<-|[<-|[<-|[<-|[]]]]]].
  1-4: unfold written_path, output_image, dispatch, table_codec in *;
       rewrite Hlow; simpl in *; now rewrite Hw, Henc.
  assert (D : dispatch img_format = BrBase64)
    by (unfold dispatch; now rewrite Hlow).
  assert (Hp : written_path pdf_path page_num output_dir img_format =
               posixpath.join output_dir
                 (file_name pdf_path ++ "_" ++ Str.of_nat (page_num + 1) ++ "."
                  ++ "b64")).
  { rewrite written_path_base64 by exact D.
    symmetry. apply (output_image_eq pdf_path page_num output_dir "b64"). }
  rewrite D, Hp. unfold table_codec in Henc. simpl in *. now rewrite Henc, Hw.
Qed.



(** C9.  The branch is chosen whatever the case of the letters: a
    format that spells the name of a supported format, each letter small
    or capital, is encoded by the encoder of that format.  Outside the
    base64 branch the file name ends in the format exactly as the caller
    wrote it; the base64 branch writes the Base64 text under [b64]. *)
Theorem dispatch_ignores_case_and_name_keeps_it
    name pdf_path page_num output_dir dpi img_format quality img data w :
  In name supported_formats ->
  spells img_format name = true ->
  rasterise pdf_path page_num dpi = Ret img ->
  Image_encode img (table_codec quality name) = Some data ->
  can_write (posixpath.join output_dir
               (file_name pdf_path ++ "_" ++ Str.of_nat (page_num + 1) ++ "."
                ++ (if String.eqb name "base64" then "b64" else img_format))) = true ->
  exists r w',
    process_page pdf_path page_num output_dir dpi img_format quality w = (Ret r, w') /\
    fst r = page_num /\
    writes (events_since w w') =
    [(posixpath.join output_dir
        (file_name pdf_path ++ "_" ++ Str.of_nat (page_num + 1) ++ "."
         ++ (if String.eqb name "base64" then "b64" else img_format)),
      if String.eqb name "base64" then Base64.b64encode data else data)].
Proof.
  intros Hname Hsp Himg Henc Hw.
  apply process_page_writes.
  apply (page_file_of_format name pdf_path page_num output_dir dpi img_format
           quality img data); try assumption.
  apply spells_lower; [exact Hsp|].
  simpl in Hname. destruct Hname as [<-|[<-|[<-|[<-|[<-|[]]]]]]; reflexivity.
Qed.

End OnePageClaims.

(** ** The one-page claims on the demonstration library *)

(** A run is the pair of its outcome and its final world. *)
Lemma run_with_outcome {A} (run : outcome A * world) (r : outcome A) :
  fst run = r -> run = (r, snd run).
Proof. intros <-. apply surjective_pairing. Defined.

Section OnePageRuns.

Lemma demo_webp_run :
  @process_page Demo.lib "docs/sample.pdf" 0 "out" 300 "webp" 80 Demo.w0 =
  (Ret (0, 1%Q),
   world_after_page Demo.w0 "docs/sample.pdf" 0 "out/sample_1.webp" Demo.webp0).
Proof. reflexivity. Defined.

Lemma demo_base64_run :
  @process_page Demo.lib "docs/sample.pdf" 0 "out" 300 "base64" 80 Demo.w0 =
  (Ret (0, 1%Q),
   world_after_page Demo.w0 "docs/sample.pdf" 0 "out/sample_1.b64"
     (list_byte_of_string "UklGRgAABw==")).
Proof. reflexivity. Defined.

Lemma demo_PNG_run :
  @process_page Demo.lib "docs/sample.pdf" 0 "out" 300 "PNG" 80 Demo.w0 =
  (Ret (0, 1%Q),
   world_after_page Demo.w0 "docs/sample.pdf" 0 "out/sample_1.PNG" Demo.png0).
Proof. reflexivity. Defined.

(** C1 fails as stated: page 7 of a three-page document cannot be
    loaded; [process_page] raises with the document it opened still open,
    and no close event in the trace. *)
Lemma process_page_leaves_document_open_on_error :
  fst Demo.page_error_run = Raise PageIndexError /\
  opens (events_since Demo.w0 (snd Demo.page_error_run)) = [0] /\
  closes (events_since Demo.w0 (snd Demo.page_error_run)) = [] /\
  0 ∈ open_docs (snd Demo.page_error_run).
Proof.
  assert (E : Demo.page_error_run =
              (Raise PageIndexError,
               world_after_failure Demo.w0 "docs/sample.pdf" 7))
    by reflexivity.
  rewrite E. split; [reflexivity|]. split; [reflexivity|]. split; [reflexivity|].
  simpl. apply elem_of_union_l. now apply elem_of_singleton.
Qed.

Lemma process_page_closes_on_return_only_witness :
  @process_page Demo.lib "docs/sample.pdf" 0 "out" 300 "webp" 80 Demo.w0 =
  (Ret (0, 1%Q),
   world_after_page Demo.w0 "docs/sample.pdf" 0 "out/sample_1.webp" Demo.webp0) /\
  closes (events_since Demo.w0
            (world_after_page Demo.w0 "docs/sample.pdf" 0
               "out/sample_1.webp" Demo.webp0)) = [0].
Proof.
  split; [exact demo_webp_run|].
  exact (proj1 (proj2 (@process_page_closes_on_return_only Demo.lib
           "docs/sample.pdf" 0 "out" 300 "webp" 80 Demo.w0 _ _ demo_webp_run))).
Defined.

(** C2 fails as stated: asked for the unknown format [tiff], the call
    succeeds and the one file it writes holds WEBP data, but its name
    ends in [.tiff], not in [.webp]. *)
Lemma unrecognised_format_keeps_its_extension :
  ~ In (Str.lower "tiff") supported_formats /\
  fst Demo.tiff_run = Ret (0, 1%Q) /\
  writes (events_since Demo.w0 (snd Demo.tiff_run)) =
  [("out/sample_1.tiff", Demo.webp0)] /\
  snd (posixpath.splitext "out/sample_1.tiff") = ".tiff" /\
  snd (posixpath.splitext "out/sample_1.tiff") <> ".webp".
Proof.
  split.
  { simpl. intros [H|[H|[H|[H|[H|[]]]]]]; discriminate H. }
  assert (E : Demo.tiff_run =
              (Ret (0, 1%Q),
               world_after_page Demo.w0 "docs/sample.pdf" 0 "out/sample_1.tiff"
                 Demo.webp0))
    by reflexivity.
  rewrite E. split; [reflexivity|]. split; [reflexivity|]. split; [reflexivity|].
  discriminate.
Qed.

Lemma unrecognised_format_witness :
  ~ In (Str.lower "tiff") supported_formats /\
  @rasterise Demo.lib "docs/sample.pdf" 0 300 = Ret Demo.pixel0 /\
  @Image_encode Demo.lib Demo.pixel0 (WEBP 80 0) = Some Demo.webp0 /\
  exists r w',
    @process_page Demo.lib "docs/sample.pdf" 0 "out" 300 "tiff" 80 Demo.w0 =
    (Ret r, w') /\
    fst r = 0 /\
    writes (events_since Demo.w0 w') = [("out/sample_1.tiff", Demo.webp0)].
Proof.
  assert (Hfmt : ~ In (Str.lower "tiff") supported_formats).
  { simpl. intros [H|[H|[H|[H|[H|[]]]]]]; discriminate H. }
  split; [exact Hfmt|]. split; [reflexivity|]. split; [reflexivity|].
  exact (@unrecognised_format_is_webp_under_its_own_extension Demo.lib
           "docs/sample.pdf" 0 "out" 300 "tiff" 80 Demo.pixel0 Demo.webp0 Demo.w0
           Hfmt eq_refl eq_refl eq_refl).
Defined.



Lemma dispatch_ignores_case_witness :
  In "png" supported_formats /\
  spells "PnG" "png" = true /\
  @rasterise Demo.lib "docs/sample.pdf" 0 300 = Ret Demo.pixel0 /\
  @Image_encode Demo.lib Demo.pixel0 (PNG false 1) = Some Demo.png0 /\
  exists r w',
    @process_page Demo.lib "docs/sample.pdf" 0 "out" 300 "PnG" 80 Demo.w0 =
    (Ret r, w') /\
    fst r = 0 /\
    writes (events_since Demo.w0 w') = [("out/sample_1.PnG", Demo.png0)].
Proof.
  assert (Hname : In "png" supported_formats) by (simpl; tauto).
  split; [exact Hname|]. split; [reflexivity|]. split; [reflexivity|].
  split; [reflexivity|].
  exact (@dispatch_ignores_case_and_name_keeps_it Demo.lib "png"
           "docs/sample.pdf" 0 "out" 300 "PnG" 80 Demo.pixel0 Demo.png0 Demo.w0
           Hname eq_refl eq_refl eq_refl eq_refl).
Defined.

End OnePageRuns.

(** ** The two loops *)

Section Loops.
Context `{L : Library}.
Variables (pdf_path output_dir : string) (dpi : Z) (img_format : string)
  (quality : Z) (page_count : nat).

Local Abbreviation page_file' i :=
  (page_file pdf_path i output_dir dpi img_format quality).
Local Abbreviation files_of' :=
  (files_of pdf_path output_dir dpi img_format quality).
Local Abbreviation completed' :=
  (completed pdf_path output_dir dpi img_format quality).
Local Abbreviation attempted' :=
  (attempted pdf_path output_dir dpi img_format quality).
Local Abbreviation loop_result' :=
  (loop_result pdf_path output_dir dpi img_format quality).
Local Abbreviation first_failure' :=
  (first_failure pdf_path output_dir dpi img_format quality).
Local Abbreviation page_exn' :=
  (page_exn pdf_path output_dir dpi img_format quality).

Lemma writes_app (a b : list event) : writes (a ++ b) = (writes a ++ writes b)%list.
Proof. apply omap_app. Qed.

Lemma calls_app (a b : list event) : calls (a ++ b) = (calls a ++ calls b)%list.
Proof. apply omap_app. Qed.

Lemma submits_app (a b : list event) :
  submits (a ++ b) = (submits a ++ submits b)%list.
Proof. apply omap_app. Qed.

Lemma page_steps_app (a b : list event) :
  page_steps (a ++ b) = (page_steps a ++ page_steps b)%list.
Proof. apply omap_app. Qed.

Lemma page_exn_Ret i f : page_file' i = Ret f -> page_exn' i = None.
Proof. unfold page_exn. now intros ->. Qed.

Lemma page_exn_Raise i e : page_file' i = Raise e -> page_exn' i = Some e.
Proof. unfold page_exn. now intros ->. Qed.

Lemma sequential_loop_run range w :
  exists w' delta,
    sequential_loop pdf_path output_dir dpi img_format quality page_count range w
    = (loop_result' range, w') /\
    advances w w' delta (files_of' (completed' range)) /\
    calls delta = attempted' range /\
    page_steps delta =
    (steps_of pdf_path output_dir img_format (completed' range) ++
     match first_failure' range with
     | Some (i, _) => [Called i]
     | None => []
     end)%list.
Proof.
  revert w. induction range as [|i rest IH]; intros w.
  - exists w, []. simpl. unfold loop_result, attempted. simpl.
    repeat split; try reflexivity. now rewrite app_nil_r.
  - cbn [sequential_loop]. unfold bind at 1. rewrite process_page_run.
    unfold loop_result, attempted. cbn [completed first_failure files_of].
    destruct (page_file' i) as [[p b]|e] eqn:E.
    + rewrite (page_exn_Ret _ _ E).
      pose proof (page_file_path _ _ _ _ _ _ _ _ E) as ->.
      unfold print, emit, bind at 1.
      set (w1 := World _ _ _ _ _).
      destruct (IH w1) as (w' & delta & Hrun & [Ht Hf Hw Hs] & Hc & Hp).
      exists w',
        ([EvCall i; EvOpen (next_doc w) pdf_path;
          EvWrite (written_path pdf_path i output_dir img_format) b;
          EvClose (next_doc w);
          EvPrint (LinePage (i + 1) page_count (page_duration_at w))] ++ delta)%list.
      split; [exact Hrun|]. split; [split|split].
      * rewrite Ht. unfold w1. simpl. now rewrite <- !app_assoc.
      * rewrite Hf. unfold w1. simpl. unfold files_of. simpl. now rewrite E.
      * simpl. rewrite Hw. unfold files_of. simpl. now rewrite E.
      * simpl. exact Hs.
      * simpl. rewrite Hc. reflexivity.
      * simpl. rewrite Hp. reflexivity.
    + rewrite (page_exn_Raise _ _ E). simpl.
      destruct (fitz_pages pdf_path).
      * exists (world_after_failure w pdf_path i),
          [EvCall i; EvOpen (next_doc w) pdf_path].
        repeat split; reflexivity.
      * exists (world_after_open_failure w i), [EvCall i].
        repeat split; reflexivity.
Qed.

Lemma submit_all_run range w :
  submit_all range w =
  (Ret tt,
   World (fs w) (open_docs w) (next_doc w) (clock_reads w)
         (trace w ++ map EvSubmit range)).
Proof.
  revert w. induction range as [|i rest IH]; intros w.
  - simpl. unfold ret. rewrite app_nil_r. now destruct w.
  - cbn [submit_all]. unfold bind, emit. rewrite IH. simpl.
    now rewrite <- app_assoc.
Qed.

Lemma as_completed_loop_run completion failed w :
  exists w' delta,
    as_completed_loop pdf_path output_dir dpi img_format quality page_count
      completion failed w
    = (pool_result pdf_path output_dir dpi img_format quality failed completion, w') /\
    advances w w' delta (files_of' completion) /\
    calls delta = completion.
Proof.
  revert failed w. induction completion as [|i rest IH]; intros failed w.
  - exists w, []. unfold pool_result, loop_result. simpl.
    split; [now destruct failed|].
    repeat split; try reflexivity. now rewrite app_nil_r.
  - cbn [as_completed_loop]. unfold bind at 1, capture.
    rewrite process_page_run. cbn [files_of].
    destruct (page_file' i) as [[p b]|e] eqn:E.
    + set (w1 := world_after_page w pdf_path i p b).
      destruct failed as [e0|].
      * destruct (IH (Some e0) w1) as (w' & delta & Hrun & [Ht Hf Hw Hs] & Hc).
        exists w',
          ([EvCall i; EvOpen (next_doc w) pdf_path; EvWrite p b;
            EvClose (next_doc w)] ++ delta)%list.
        split; [exact Hrun|]. split; [split|].
        -- rewrite Ht. unfold w1. simpl. now rewrite <- !app_assoc.
        -- rewrite Hf. unfold files_of. simpl. now rewrite E.
        -- simpl. rewrite Hw. unfold files_of. simpl. now rewrite E.
        -- simpl. exact Hs.
        -- simpl. now rewrite Hc.
      * unfold print, emit, bind at 1.
        set (w2 := World _ _ _ _ _).
        destruct (IH None w2) as (w' & delta & Hrun & [Ht Hf Hw Hs] & Hc).
        exists w',
          ([EvCall i; EvOpen (next_doc w) pdf_path; EvWrite p b;
            EvClose (next_doc w);
            EvPrint (LinePage (i + 1) page_count (page_duration_at w))] ++ delta)%list.
        split.
        { rewrite Hrun. unfold pool_result, loop_result. simpl.
          now rewrite (page_exn_Ret _ _ E). }
        split; [split|].
        -- rewrite Ht. unfold w2, w1. simpl. now rewrite <- !app_assoc.
        -- rewrite Hf. unfold w2, w1, files_of. simpl. now rewrite E.
        -- simpl. rewrite Hw. unfold files_of. simpl. now rewrite E.
        -- simpl. exact Hs.
        -- simpl. now rewrite Hc.
    + set (w1 := match fitz_pages pdf_path with
                 | Some _ => world_after_failure w pdf_path i
                 | None => world_after_open_failure w i
                 end).
      assert (exists d1, trace w1 = (trace w ++ EvCall i :: d1)%list /\
                         fs w1 = fs w /\ writes d1 = [] /\ submits d1 = [] /\
                         calls d1 = []) as (d1 & Ht1 & Hf1 & Hw1 & Hs1 & Hc1).
      { unfold w1. destruct (fitz_pages pdf_path).
        - exists [EvOpen (next_doc w) pdf_path]. now repeat split.
        - exists []. now repeat split. }
      destruct (IH (Some (match failed with Some e0 => e0 | None => e end)) w1)
        as (w' & delta & Hrun & [Ht Hf Hw Hs] & Hc).
      exists w', ((EvCall i :: d1) ++ delta)%list.
      split.
      { destruct failed as [e0|]; simpl; rewrite Hrun;
          unfold pool_result, loop_result; simpl; [reflexivity|].
        now rewrite (page_exn_Raise _ _ E). }
      split; [split|].
      * rewrite Ht, Ht1. now rewrite <- !app_assoc.
      * rewrite Hf, Hf1. unfold files_of. simpl. now rewrite E.
      * rewrite writes_app. change (writes (EvCall i :: d1)) with (writes d1).
        rewrite Hw1, Hw. unfold files_of. simpl. now rewrite E.
      * rewrite submits_app. change (submits (EvCall i :: d1)) with (submits d1).
        now rewrite Hs1, Hs.
      * rewrite calls_app. change (calls (EvCall i :: d1)) with (i :: calls d1).
        now rewrite Hc1, Hc.
Qed.

End Loops.

(** ** The driver *)

Section Driver.
Context `{L : Library}.
Variables (sched : list nat -> list nat) (pdf_path output_dir : string)
  (dpi : Z) (parallel : bool) (max_workers : option Z) (img_format : string)
  (quality : Z).

Local Abbreviation body n :=
  (batch_body pdf_path output_dir dpi img_format quality sched parallel
     max_workers n).
Local Abbreviation files n :=
  (batch_files pdf_path output_dir dpi img_format quality sched parallel
     max_workers n).
Local Abbreviation result n :=
  (batch_result pdf_path output_dir dpi img_format quality sched parallel
     max_workers n).
Local Abbreviation run :=
  (pdf_to_jpeg sched pdf_path output_dir dpi parallel max_workers img_format
     quality).

(** [pdf_to_jpeg] with lines 96-110 folded into [batch_body]. *)
Lemma pdf_to_jpeg_eq :
  run =
  (dir_exists <- os_path_exists output_dir ;;
   (if negb dir_exists then os_makedirs output_dir else ret tt) ;;;
   doc <- fitz_open pdf_path ;;
   doc_close doc ;;;
   print (LineConverting (len doc) parallel) ;;;
   total_start_time <- time_time ;;
   body (len doc) ;;;
   total_end_time <- time_time ;;
   print (LineTotal (total_end_time - total_start_time)%Q)).
Proof. reflexivity. Qed.

Lemma pdf_to_jpeg_run w :
  run w =
  if negb (output_dir_ok output_dir w)
  then (Raise IOError, world_after_failed_makedirs w output_dir)
  else
    let w1 := world_after_makedirs w output_dir in
    match fitz_pages pdf_path with
    | None => (Raise DocumentOpenError, w1)
    | Some ps =>
        match body (length ps) (world_after_probe w1 pdf_path (length ps) parallel) with
        | (Ret _, w3) => (Ret tt, world_after_total w3 (clock (clock_reads w1)))
        | (Raise e, w3) => (Raise e, w3)
        end
    end.
Proof.
  rewrite pdf_to_jpeg_eq.
  unfold output_dir_ok, world_after_makedirs, world_after_failed_makedirs.
  unfold bind at 1. unfold os_path_exists.
  destruct (bool_decide (is_Some (fs w !! output_dir))) eqn:Hex; simpl.
  - unfold bind at 1. unfold ret at 1.
    unfold bind at 1, fitz_open.
    destruct (fitz_pages pdf_path) as [ps|]; [|reflexivity].
    unfold bind at 1, doc_close. simpl. rewrite handle_is_open.
    unfold bind at 1, print, emit. simpl.
    unfold bind at 1, time_time. simpl.
    unfold bind at 1, len. unfold world_after_probe. simpl.
    rewrite <- !app_assoc. simpl.
    destruct (batch_body _ _ _ _ _ _ _ _ _ _) as [[[]|e] w3]; reflexivity.
  - unfold bind at 1, os_makedirs.
    destruct (can_makedirs output_dir); simpl; [|reflexivity].
    unfold bind at 1, fitz_open. simpl.
    destruct (fitz_pages pdf_path) as [ps|]; [|reflexivity].
    unfold bind at 1, doc_close. simpl. rewrite handle_is_open.
    unfold bind at 1, print, emit. simpl.
    unfold bind at 1, time_time. simpl.
    unfold bind at 1, len. unfold world_after_probe. simpl.
    rewrite <- !app_assoc. simpl.
    destruct (batch_body _ _ _ _ _ _ _ _ _ _) as [[[]|e] w3]; reflexivity.
Qed.

Lemma pool_size_ok_spec w :
  ProcessPoolExecutor max_workers w =
  (if pool_size_ok max_workers then Ret tt else Raise PoolSizeError, w).
Proof.
  unfold ProcessPoolExecutor, pool_size_ok.
  destruct max_workers as [n|]; [|reflexivity].
  now destruct (n <=? 0)%Z.
Qed.

(** Lines 96-110 as a whole. *)
Lemma batch_body_run n w :
  exists w' delta,
    body n w = (result n, w') /\
    trace w' = (trace w ++ delta)%list /\
    fs w' = apply_writes (files n) (fs w) /\
    writes delta = files n /\
    calls delta =
      batch_calls pdf_path output_dir dpi img_format quality sched parallel
        max_workers n /\
    submits delta = batch_submits parallel max_workers n /\
    (parallel = false ->
     page_steps delta =
     (steps_of pdf_path output_dir img_format
        (completed pdf_path output_dir dpi img_format quality (seq 0 n)) ++
      match first_failure pdf_path output_dir dpi img_format quality (seq 0 n) with
      | Some (i, _) => [Called i]
      | None => []
      end)%list).
Proof.
  unfold batch_body, batch_result, batch_files, batch_calls, batch_submits.
  destruct parallel; simpl.
  - unfold bind at 1. rewrite pool_size_ok_spec.
    destruct (pool_size_ok max_workers).
    + unfold bind at 1. rewrite submit_all_run.
      set (w1 := World _ _ _ _ _).
      destruct (as_completed_loop_run pdf_path output_dir dpi img_format quality
                  n (sched (seq 0 n)) None w1)
        as (w' & delta & Hrun & [Ht Hf Hw Hs] & Hc).
      exists w', (map EvSubmit (seq 0 n) ++ delta)%list.
      split; [exact Hrun|].
      assert (Hsub : forall l, writes (map EvSubmit l) = [] /\
                               calls (map EvSubmit l) = [] /\
                               submits (map EvSubmit l) = l).
      { induction l as [|x l (IH1 & IH2 & IH3)]; [now repeat split|].
        repeat split; simpl; [exact IH1 | exact IH2 |].
        change (submits (EvSubmit x :: map EvSubmit l))
          with (x :: submits (map EvSubmit l)).
        now rewrite IH3. }
      destruct (Hsub (seq 0 n)) as (S1 & S2 & S3).
      repeat split.
      * rewrite Ht. unfold w1. simpl. now rewrite app_assoc.
      * rewrite Hf. reflexivity.
      * now rewrite writes_app, S1, Hw.
      * now rewrite calls_app, S2, Hc.
      * now rewrite submits_app, S3, Hs, app_nil_r.
      * discriminate.
    + exists w, []. repeat split; try reflexivity.
      * now rewrite app_nil_r.
      * discriminate.
  - destruct (sequential_loop_run pdf_path output_dir dpi img_format quality
                n (seq 0 n) w) as (w' & delta & Hrun & [Ht Hf Hw Hs] & Hc & Hp).
    exists w', delta. repeat split; try assumption. intros _. exact Hp.
Qed.

Lemma events_after_makedirs w :
  events_since w (world_after_makedirs w output_dir) =
  if bool_decide (is_Some (fs w !! output_dir)) then []
  else [EvMakedirs output_dir].
Proof.
  unfold events_since, world_after_makedirs.
  destruct (bool_decide _); simpl.
  - apply drop_all.
  - apply drop_app_length.
Qed.

Lemma trace_after_makedirs w :
  trace (world_after_makedirs w output_dir) =
  (trace w ++ events_since w (world_after_makedirs w output_dir))%list.
Proof.
  rewrite events_after_makedirs. unfold world_after_makedirs.
  destruct (bool_decide _); simpl; [now rewrite app_nil_r | reflexivity].
Qed.

Lemma next_doc_after_makedirs w :
  next_doc (world_after_makedirs w output_dir) = next_doc w.
Proof. unfold world_after_makedirs. now destruct (bool_decide _). Qed.

(** A run of [pdf_to_jpeg] on a readable PDF, once the output directory
    is there: what follows the probe of the page count. *)
Lemma pdf_to_jpeg_summary w r w' ps :
  run w = (r, w') ->
  output_dir_ok output_dir w = true ->
  fitz_pages pdf_path = Some ps ->
  exists tail,
    events_since w w' =
    (events_since w (world_after_makedirs w output_dir) ++
     [EvOpen (next_doc w) pdf_path; EvClose (next_doc w);
      EvPrint (LineConverting (length ps) parallel)] ++ tail)%list /\
    r = result (length ps) /\
    fs w' = apply_writes (files (length ps)) (fs (world_after_makedirs w output_dir)) /\
    writes tail = files (length ps) /\
    calls tail =
      batch_calls pdf_path output_dir dpi img_format quality sched parallel
        max_workers (length ps) /\
    submits tail = batch_submits parallel max_workers (length ps) /\
    (parallel = false ->
     page_steps tail =
     (steps_of pdf_path output_dir img_format
        (completed pdf_path output_dir dpi img_format quality (seq 0 (length ps))) ++
      match first_failure pdf_path output_dir dpi img_format quality
              (seq 0 (length ps)) with
      | Some (i, _) => [Called i]
      | None => []
      end)%list).
Proof.
  intros Hrun Hdir Hpdf. rewrite pdf_to_jpeg_run, Hdir, Hpdf in Hrun. simpl in Hrun.
  set (w1 := world_after_makedirs w output_dir) in *.
  set (w2 := world_after_probe w1 pdf_path (length ps) parallel) in *.
  destruct (batch_body_run (length ps) w2)
    as (w3 & delta & Hbody & Ht & Hf & Hw & Hc & Hs & Hp).
  rewrite Hbody in Hrun.
  assert (Ht2 : trace w3 =
                (trace w ++ events_since w w1 ++
                 [EvOpen (next_doc w) pdf_path; EvClose (next_doc w);
                  EvPrint (LineConverting (length ps) parallel)] ++ delta)%list).
  { rewrite Ht. unfold w2. simpl. unfold w1 at 1.
    rewrite trace_after_makedirs. fold w1.
    unfold w1 at 2 3. rewrite next_doc_after_makedirs.
    now rewrite <- !app_assoc. }
  destruct (result (length ps)) as [[]|e] eqn:Hres.
  - inversion Hrun; subst r w'; clear Hrun.
    exists (delta ++ [EvPrint (LineTotal
                        (clock (clock_reads w3) - clock (clock_reads w1))%Q)])%list.
    split.
    { unfold events_since. apply events_since_app. simpl. rewrite Ht2.
      now rewrite <- !app_assoc. }
    split; [reflexivity|]. split; [exact Hf|].
    rewrite writes_app, calls_app, submits_app, Hw, Hc, Hs, !app_nil_r.
    repeat split. intros Hpar. rewrite page_steps_app, (Hp Hpar).
    simpl. now rewrite app_nil_r.
  - inversion Hrun; subst r w'; clear Hrun.
    exists delta. split.
    { unfold events_since. apply events_since_app. exact Ht2. }
    repeat split; assumption.
Qed.

(** The two ways [pdf_to_jpeg] ends before it looks at any page. *)
Lemma pdf_to_jpeg_no_directory w :
  output_dir_ok output_dir w = false ->
  run w = (Raise IOError, world_after_failed_makedirs w output_dir).
Proof. intros H. now rewrite pdf_to_jpeg_run, H. Qed.

Lemma events_after_failed_makedirs w :
  events_since w (world_after_failed_makedirs w output_dir) = [].
Proof. unfold events_since. apply drop_all. Qed.

(** A failed [os.makedirs] did not make the directory it was asked for,
    and a second call fails as the first did. *)
Lemma failed_makedirs_again w :
  output_dir_ok output_dir w = false ->
  output_dir_ok output_dir (world_after_failed_makedirs w output_dir) = false /\
  fs (world_after_failed_makedirs (world_after_failed_makedirs w output_dir)
        output_dir)
  = fs (world_after_failed_makedirs w output_dir).
Proof.
  unfold output_dir_ok. intros [Hex Hcan]%orb_false_iff. split.
  - rewrite Hcan, orb_false_r. apply bool_decide_eq_false.
    apply bool_decide_eq_false in Hex. simpl.
    rewrite mkdirs_other; [exact Hex|].
    intros Hin%made_heads_In%makedirs_heads_In. lia.
  - simpl. now rewrite made_heads_again.
Qed.

Lemma pdf_to_jpeg_no_document w :
  output_dir_ok output_dir w = true -> fitz_pages pdf_path = None ->
  run w = (Raise DocumentOpenError, world_after_makedirs w output_dir).
Proof. intros H1 H2. now rewrite pdf_to_jpeg_run, H1, H2. Qed.

End Driver.

(** ** Pages in range *)

Section Ranges.
Context `{L : Library}.
Variables (pdf_path output_dir : string) (dpi : Z) (img_format : string)
  (quality : Z).

Local Abbreviation completed' :=
  (completed pdf_path output_dir dpi img_format quality).
Local Abbreviation attempted' :=
  (attempted pdf_path output_dir dpi img_format quality).
Local Abbreviation first_failure' :=
  (first_failure pdf_path output_dir dpi img_format quality).
Local Abbreviation page_exn' :=
  (page_exn pdf_path output_dir dpi img_format quality).

(** The sequential loop gets through an initial segment of the range. *)
Lemma completed_seq n a :
  exists k,
    k <= n /\ completed' (seq a n) = seq a k /\
    match first_failure' (seq a n) with
    | None => k = n
    | Some (i, _) => i = a + k /\ k < n
    end.
Proof.
  revert a. induction n as [|n IH]; intros a.
  - exists 0. now repeat split.
  - cbn [seq completed first_failure].
    destruct (page_exn' a) as [e|].
    + exists 0. repeat split; lia.
    + destruct (IH (S a)) as (k & Hk & Hc & Hf).
      exists (S k). split; [lia|]. split; [simpl; now rewrite Hc|].
      destruct (first_failure' (seq (S a) n)) as [[i e]|]; lia.
Qed.

Lemma attempted_seq n a :
  exists k, k <= n /\ attempted' (seq a n) = seq a k.
Proof.
  destruct (completed_seq n a) as (k & Hk & Hc & Hf). unfold attempted.
  rewrite Hc. destruct (first_failure' (seq a n)) as [[i e]|].
  - destruct Hf as [-> Hlt]. exists (S k). split; [lia|].
    now rewrite seq_S.
  - exists k. now rewrite app_nil_r.
Qed.

Lemma first_failure_In range i e :
  first_failure' range = Some (i, e) -> In i range /\ page_exn' i = Some e.
Proof.
  induction range as [|j rest IH]; simpl; [discriminate|].
  destruct (page_exn' j) as [e0|] eqn:E.
  - intros [= <- <-]. now split; [left|].
  - intros H. destruct (IH H). now split; [right|].
Qed.

Lemma completed_In range i :
  In i (completed' range) -> In i range /\ page_exn' i = None.
Proof.
  induction range as [|j rest IH]; simpl; [tauto|].
  destruct (page_exn' j) as [e|] eqn:E; [intros []|].
  intros [<-|Hi]; [now split; [left|]|].
  destruct (IH Hi). now split; [right|].
Qed.

Lemma page_exn_None i :
  page_exn' i = None ->
  exists b, page_file pdf_path i output_dir dpi img_format quality =
            Ret (written_path pdf_path i output_dir img_format, b).
Proof.
  unfold page_exn. destruct (page_file pdf_path i output_dir dpi img_format quality) as [[p b]|e] eqn:E; [|discriminate].
  intros _. exists b. now rewrite <- (page_file_path _ _ _ _ _ _ _ _ E).
Qed.

(** A page of the document does not fail on its index. *)
Lemma page_exn_in_range ps i :
  fitz_pages pdf_path = Some ps -> i < length ps ->
  page_exn' i <> Some PageIndexError.
Proof.
  intros Hpdf Hi. unfold page_exn, page_file, rasterise, encode_and_write.
  rewrite Hpdf.
  destruct (nth_error ps i) as [pg|] eqn:E;
    [|apply nth_error_None in E; lia].
  destruct (get_pixmap _ _); [|discriminate].
  destruct (Image_frombytes _ _ _); [|discriminate].
  destruct (dispatch img_format);
    repeat match goal with
    | |- context [can_write ?q] => destruct (can_write q)
    | |- context [Image_encode ?i ?c] => destruct (Image_encode i c)
    end; discriminate.
Qed.

Lemma loop_result_in_range ps range :
  fitz_pages pdf_path = Some ps ->
  Forall (fun i => i < length ps) range ->
  loop_result pdf_path output_dir dpi img_format quality range
  <> Raise PageIndexError.
Proof.
  intros Hpdf Hall. unfold loop_result.
  destruct (first_failure' range) as [[i e]|] eqn:E; [|discriminate].
  apply first_failure_In in E as [Hin He].
  rewrite Forall_forall in Hall. apply list_elem_of_In in Hin.
  specialize (Hall i Hin).
  intros [= ->]. now apply (page_exn_in_range ps i).
Qed.

End Ranges.

(** ** The batch claims *)

Section BatchClaims.
Context `{L : Library}.

Lemma events_since_refl w : events_since w w = [].
Proof. unfold events_since. apply drop_all. Qed.

Lemma makedirs_events_silent w output_dir :
  let mk := events_since w (world_after_makedirs w output_dir) in
  writes mk = [] /\ calls mk = [] /\ submits mk = [] /\ page_steps mk = [].
Proof.
  simpl. rewrite events_after_makedirs.
  now destruct (bool_decide _).
Qed.

(** The projections of a whole run are those of what follows the probe. *)
Lemma projections_after_probe w output_dir h pdf_path n parallel tail :
  let ev := (events_since w (world_after_makedirs w output_dir) ++
             [EvOpen h pdf_path; EvClose h; EvPrint (LineConverting n parallel)]
             ++ tail)%list in
  writes ev = writes tail /\ calls ev = calls tail /\
  submits ev = submits tail /\ page_steps ev = page_steps tail.
Proof.
  simpl. destruct (makedirs_events_silent w output_dir) as (H1 & H2 & H3 & H4).
  rewrite writes_app, calls_app, submits_app, page_steps_app, H1, H2, H3, H4.
  now repeat split.
Qed.

(** C4.  In sequential mode, on a readable PDF with the output
    directory there, the page tasks run one after the other in ascending
    page order, in the calling process (nothing goes to a pool).  The
    trace shows, for pages 0, 1, 2, ... in turn, the call of
    [process_page], then the file written, then the progress line.  When
    the task of every page ends normally the run returns, having gone
    through all the pages.  Otherwise it raises the exception of the
    first page [k] whose task raises: the pages before [k] are complete,
    page [k] shows its call only, and no later page is touched. *)
Theorem sequential_mode_in_page_order
    sched pdf_path output_dir dpi max_workers img_format quality ps w r w' :
  output_dir_ok output_dir w = true ->
  fitz_pages pdf_path = Some ps ->
  pdf_to_jpeg sched pdf_path output_dir dpi false max_workers img_format quality w
  = (r, w') ->
  submits (events_since w w') = [] /\
  exists k,
    (forall i, i < k ->
       exists b, page_file pdf_path i output_dir dpi img_format quality
                 = Ret (written_path pdf_path i output_dir img_format, b)) /\
    match r with
    | Ret _ =>
        k = length ps /\
        page_steps (events_since w w') =
        flat_map (fun i => [Called i;
                            Wrote (written_path pdf_path i output_dir img_format);
                            Logged (i + 1)]) (seq 0 (length ps))
    | Raise e =>
        k < length ps /\
        page_file pdf_path k output_dir dpi img_format quality = Raise e /\
        page_steps (events_since w w') =
        (flat_map (fun i => [Called i;
                             Wrote (written_path pdf_path i output_dir img_format);
                             Logged (i + 1)]) (seq 0 k) ++ [Called k])%list
    end.
Proof.
  intros Hdir Hpdf Hrun.
  destruct (pdf_to_jpeg_summary _ _ _ _ _ _ _ _ _ _ _ _ Hrun Hdir Hpdf)
    as (tail0 & Hev & Hr & _ & _ & _ & Hsub & Hsteps).
  specialize (Hsteps eq_refl).
  destruct (projections_after_probe w output_dir (next_doc w) pdf_path
              (length ps) false tail0) as (_ & _ & Hs & Hp).
  rewrite Hev, Hp, Hs, Hsub, Hsteps. split; [reflexivity|].
  destruct (completed_seq pdf_path output_dir dpi img_format quality
              (length ps) 0) as (k & Hk & Hc & Hf).
  rewrite Hc. unfold steps_of. exists k. split.
  { intros i Hi. apply page_exn_None.
    apply (completed_In pdf_path output_dir dpi img_format quality
             (seq 0 (length ps))).
    rewrite Hc. apply list_elem_of_In, elem_of_seq. lia. }
  unfold batch_result, loop_result in Hr.
  destruct (first_failure _ _ _ _ _ _) as [[i e]|] eqn:Ef.
  - destruct Hf as [-> Hlt]. subst r. change (0 + k) with k in *.
    split; [exact Hlt|]. split; [|reflexivity].
    apply first_failure_In in Ef as [_ He]. unfold page_exn in He.
    destruct (page_file pdf_path k output_dir dpi img_format quality); congruence.
  - subst r k. split; [reflexivity|]. now rewrite app_nil_r.
Qed.

(** C5.  On a document without pages [pdf_to_jpeg] writes no file,
    submits no task to the pool and calls [process_page] for no page, in
    either mode; it ends normally whenever the output directory is there
    or can be created and, in parallel mode, the pool can be created
    ([max_workers] unset or positive). *)
Theorem empty_document_no_tasks
    sched pdf_path output_dir dpi parallel max_workers img_format quality w r w' :
  (forall l, Permutation (sched l) l) ->
  fitz_pages pdf_path = Some [] ->
  pdf_to_jpeg sched pdf_path output_dir dpi parallel max_workers img_format quality w
  = (r, w') ->
  writes (events_since w w') = [] /\
  submits (events_since w w') = [] /\
  calls (events_since w w') = [] /\
  (output_dir_ok output_dir w = true ->
   (parallel = true -> pool_size_ok max_workers = true) ->
   r = Ret tt).
Proof.
  intros Hsched Hpdf Hrun.
  assert (Hnil : sched [] = []).
  { apply Permutation_nil. symmetry. apply Hsched. }
  destruct (output_dir_ok output_dir w) eqn:Hdir.
  - destruct (pdf_to_jpeg_summary _ _ _ _ _ _ _ _ _ _ _ _ Hrun Hdir Hpdf)
      as (tail & Hev & Hr & _ & Hw & Hc & Hs & _).
    destruct (projections_after_probe w output_dir (next_doc w) pdf_path
                (@length page []) parallel tail) as (P1 & P2 & P3 & _).
    rewrite Hev, P1, P2, P3, Hw, Hc, Hs.
    unfold batch_files, batch_calls, batch_submits, batch_result in *.
    simpl in *. rewrite Hnil in *.
    repeat split.
    + now destruct parallel, (pool_size_ok max_workers).
    + now destruct parallel, (pool_size_ok max_workers).
    + now destruct parallel, (pool_size_ok max_workers).
    + intros _ Hpool. subst r. destruct parallel; [|reflexivity].
      now rewrite Hpool.
  - rewrite pdf_to_jpeg_no_directory in Hrun by exact Hdir.
    inversion Hrun; subst. rewrite events_after_failed_makedirs.
    repeat split. discriminate.
Qed.

(** C6.  Whatever the mode, the pages [pdf_to_jpeg] calls [process_page]
    on lie below the page count it probed, and none is called twice; so
    the run never ends on the exception of an out-of-range page.  A run
    that ends normally called every page of the document. *)
Theorem driver_pages_in_range_once
    sched pdf_path output_dir dpi parallel max_workers img_format quality ps w r w' :
  (forall l, Permutation (sched l) l) ->
  fitz_pages pdf_path = Some ps ->
  pdf_to_jpeg sched pdf_path output_dir dpi parallel max_workers img_format quality w
  = (r, w') ->
  Forall (fun i => i < length ps) (calls (events_since w w')) /\
  NoDup (calls (events_since w w')) /\
  r <> Raise PageIndexError /\
  (r = Ret tt -> Permutation (calls (events_since w w')) (seq 0 (length ps))).
Proof.
  intros Hsched Hpdf Hrun.
  assert (Hseq : Forall (fun i => i < length ps) (seq 0 (length ps))).
  { apply Forall_forall. intros i Hi%elem_of_seq. lia. }
  destruct (output_dir_ok output_dir w) eqn:Hdir.
  - destruct (pdf_to_jpeg_summary _ _ _ _ _ _ _ _ _ _ _ _ Hrun Hdir Hpdf)
      as (tail & Hev & Hr & _ & _ & Hc & _ & _).
    destruct (projections_after_probe w output_dir (next_doc w) pdf_path
                (length ps) parallel tail) as (_ & P2 & _ & _).
    rewrite Hev, P2, Hc. clear Hev P2 Hc.
    unfold batch_calls, batch_result in *.
    destruct parallel.
    + destruct (pool_size_ok max_workers).
      * pose proof (Hsched (seq 0 (length ps))) as Hperm.
        repeat split.
        -- now rewrite Hperm.
        -- rewrite Hperm. apply NoDup_seq.
        -- rewrite Hr. unfold pool_result.
           apply (loop_result_in_range _ _ _ _ _ ps); [exact Hpdf|].
           now rewrite Hperm.
        -- intros _. exact Hperm.
      * subst r. repeat split; try constructor; discriminate.
    + destruct (attempted_seq pdf_path output_dir dpi img_format quality
                  (length ps) 0) as (k & Hk & Ha).
      repeat split.
      * rewrite Ha. apply Forall_forall. intros i Hi%elem_of_seq. lia.
      * rewrite Ha. apply NoDup_seq.
      * rewrite Hr. now apply (loop_result_in_range _ _ _ _ _ ps).
      * intros ->. unfold loop_result in Hr. unfold attempted.
        destruct (completed_seq pdf_path output_dir dpi img_format quality
                    (length ps) 0) as (k' & _ & Hc' & Hf).
        destruct (first_failure _ _ _ _ _ _) as [[i e]|]; [discriminate|].
        subst k'. now rewrite Hc', app_nil_r.
  - rewrite pdf_to_jpeg_no_directory in Hrun by exact Hdir.
    inversion Hrun; subst. rewrite events_after_failed_makedirs.
    repeat split; try constructor; discriminate.
Qed.


End BatchClaims.

(** ** Running the batch twice *)

Section Rerun.
Context `{L : Library}.

(** The map a list of writes amounts to. *)
Local Abbreviation as_node :=
  (fun pb : string * list byte => (pb.1, File pb.2)).
Local Abbreviation as_map files :=
  (list_to_map (as_node <$> files) : gmap string node).

Lemma as_map_keys (files : list (string * list byte)) :
  (as_node <$> files).*1 = files.*1.
Proof. induction files as [|[p b] files IH]; [reflexivity|]. cbn. now rewrite IH. Qed.

(** With distinct paths, the order of the writes does not matter: they
    overlay the file system. *)
Lemma apply_writes_union (files : list (string * list byte)) (m : gmap string node) :
  NoDup files.*1 -> apply_writes files m = as_map files ∪ m.
Proof.
  revert m. induction files as [|[p b] files IH]; intros m Hnd.
  - cbn. now rewrite (left_id_L ∅ (∪)).
  - rewrite fmap_cons in Hnd. apply NoDup_cons in Hnd as [Hp Hnd].
    change (apply_writes ((p, b) :: files) m)
      with (apply_writes files (<[p := File b]> m)).
    rewrite (IH _ Hnd), fmap_cons, list_to_map_cons.
    rewrite <- insert_union_l. rewrite <- insert_union_r; [reflexivity|].
    apply not_elem_of_list_to_map_1. now rewrite as_map_keys.
Qed.

Lemma apply_writes_twice (f1 f2 : list (string * list byte)) (m : gmap string node) :
  NoDup f1.*1 -> Permutation f2 f1 ->
  apply_writes f2 (apply_writes f1 m) = apply_writes f1 m.
Proof.
  intros Hnd Hperm.
  assert (Hnd2 : NoDup f2.*1) by now rewrite Hperm.
  rewrite (apply_writes_union f1 m Hnd), (apply_writes_union f2 _ Hnd2).
  assert (E : as_map f2 = as_map f1).
  { apply list_to_map_proper; [now rewrite as_map_keys|].
    now rewrite Hperm. }
  rewrite E, (assoc_L (∪)), (idemp_L (∪)). reflexivity.
Qed.

Lemma apply_writes_keeps (files : list (string * list byte)) (m : gmap string node) p :
  is_Some (m !! p) -> is_Some (apply_writes files m !! p).
Proof.
  revert m. induction files as [|[q b] files IH]; intros m Hm; [exact Hm|].
  apply IH. cbn. destruct (decide (q = p)) as [->|Hne].
  - rewrite lookup_insert_eq. eauto.
  - now rewrite lookup_insert_ne.
Qed.

Lemma apply_writes_lookup (files : list (string * list byte)) (m : gmap string node) p b :
  NoDup files.*1 -> In (p, b) files -> apply_writes files m !! p = Some (File b).
Proof.
  intros Hnd Hin. rewrite (apply_writes_union files m Hnd).
  apply lookup_union_Some_l, elem_of_list_to_map_1; [now rewrite as_map_keys|].
  apply list_elem_of_fmap. exists (p, b). split; [reflexivity|].
  now apply list_elem_of_In.
Qed.

Variables (pdf_path output_dir : string) (dpi : Z) (img_format : string)
  (quality : Z).

Local Abbreviation files_of' :=
  (files_of pdf_path output_dir dpi img_format quality).

Lemma files_of_paths pages p b :
  In (p, b) (files_of' pages) ->
  exists i, In i pages /\ p = written_path pdf_path i output_dir img_format.
Proof.
  induction pages as [|i rest IH]; simpl; [tauto|].
  unfold files_of. simpl. fold (files_of' rest).
  destruct (page_file pdf_path i output_dir dpi img_format quality)
    as [[p0 b0]|e] eqn:E.
  - intros [[= <- <-]|Hin].
    + exists i. split; [now left|]. now apply page_file_path in E.
    + destruct (IH Hin) as (j & Hj & ->). exists j. now split; [right|].
  - intros Hin. destruct (IH Hin) as (j & Hj & ->). exists j. now split; [right|].
Qed.

(** Distinct pages write distinct files. *)
Lemma files_of_NoDup pages : NoDup pages -> NoDup (files_of' pages).*1.
Proof.
  induction pages as [|i rest IH]; intros Hnd; [constructor|].
  apply NoDup_cons in Hnd as [Hi Hnd].
  unfold files_of. simpl. fold (files_of' rest).
  destruct (page_file pdf_path i output_dir dpi img_format quality)
    as [[p b]|e] eqn:E; [|now apply IH].
  simpl. apply NoDup_cons. split; [|now apply IH].
  intros Hin. apply list_elem_of_In, in_map_iff in Hin as ([q c] & Hq & Hin).
  simpl in Hq. subst q.
  apply files_of_paths in Hin as (j & Hj & Hp).
  apply page_file_path in E. rewrite E in Hp.
  apply written_path_inj in Hp. subst j.
  apply Hi. now apply list_elem_of_In.
Qed.

Variables (parallel : bool) (max_workers : option Z).

Lemma batch_files_NoDup sched n :
  (forall l, Permutation (sched l) l) ->
  NoDup (batch_files pdf_path output_dir dpi img_format quality sched parallel
           max_workers n).*1.
Proof.
  intros Hsched. unfold batch_files.
  destruct parallel.
  - destruct (pool_size_ok max_workers); [|constructor].
    apply files_of_NoDup. rewrite (Hsched (seq 0 n)). apply NoDup_seq.
  - apply files_of_NoDup.
    destruct (completed_seq pdf_path output_dir dpi img_format quality n 0)
      as (k & _ & -> & _).
    apply NoDup_seq.
Qed.

Lemma batch_files_Permutation sched1 sched2 n :
  (forall l, Permutation (sched1 l) l) ->
  (forall l, Permutation (sched2 l) l) ->
  Permutation
    (batch_files pdf_path output_dir dpi img_format quality sched2 parallel
       max_workers n)
    (batch_files pdf_path output_dir dpi img_format quality sched1 parallel
       max_workers n).
Proof.
  intros H1 H2. unfold batch_files.
  destruct parallel; [|reflexivity].
  destruct (pool_size_ok max_workers); [|reflexivity].
  unfold files_of. now rewrite (H1 (seq 0 n)), (H2 (seq 0 n)).
Qed.

End Rerun.

Section RerunClaim.
Context `{L : Library}.

Lemma output_dir_after_makedirs w output_dir :
  output_dir_ok output_dir w = true ->
  is_Some (fs (world_after_makedirs w output_dir) !! output_dir).
Proof.
  intros Hdir. unfold world_after_makedirs.
  destruct (bool_decide (is_Some (fs w !! output_dir))) eqn:E.
  - now apply bool_decide_eq_true in E.
  - simpl. rewrite lookup_insert_eq. eauto.
Qed.

Lemma makedirs_when_present w output_dir :
  is_Some (fs w !! output_dir) ->
  output_dir_ok output_dir w = true /\ world_after_makedirs w output_dir = w.
Proof.
  intros H. apply (bool_decide_eq_true_2 _) in H.
  unfold output_dir_ok, world_after_makedirs. now rewrite H.
Qed.

(** C8.  Two runs of [pdf_to_jpeg] with the same arguments, one after
    the other: the second leaves the file system as the first left it.
    It writes the files the first wrote, each with the content it already
    has, and no path twice.  This holds in both modes, whatever the order
    in which the pool completes the tasks in either run. *)
Theorem rerun_is_idempotent
    sched1 sched2 pdf_path output_dir dpi parallel max_workers img_format quality
    w r1 w1 r2 w2 :
  (forall l, Permutation (sched1 l) l) ->
  (forall l, Permutation (sched2 l) l) ->
  pdf_to_jpeg sched1 pdf_path output_dir dpi parallel max_workers img_format quality w
  = (r1, w1) ->
  pdf_to_jpeg sched2 pdf_path output_dir dpi parallel max_workers img_format quality w1
  = (r2, w2) ->
  fs w2 = fs w1 /\
  Permutation (writes (events_since w1 w2)) (writes (events_since w w1)) /\
  NoDup (map fst (writes (events_since w1 w2))) /\
  (forall p b, In (p, b) (writes (events_since w1 w2)) ->
               fs w1 !! p = Some (File b)).
Proof.
  intros Hs1 Hs2 Hrun1 Hrun2.
  destruct (output_dir_ok output_dir w) eqn:Hdir.
  - destruct (fitz_pages pdf_path) as [ps|] eqn:Hpdf.
    + destruct (pdf_to_jpeg_summary _ _ _ _ _ _ _ _ _ _ _ _ Hrun1 Hdir Hpdf)
        as (t1 & Hev1 & _ & Hfs1 & Hw1 & _).
      destruct (projections_after_probe w output_dir (next_doc w) pdf_path
                  (length ps) parallel t1) as (P1 & _).
      assert (Hthere : is_Some (fs w1 !! output_dir)).
      { rewrite Hfs1. apply apply_writes_keeps.
        now apply output_dir_after_makedirs. }
      destruct (makedirs_when_present _ _ Hthere) as [Hdir1 Hsame].
      destruct (pdf_to_jpeg_summary _ _ _ _ _ _ _ _ _ _ _ _ Hrun2 Hdir1 Hpdf)
        as (t2 & Hev2 & _ & Hfs2 & Hw2 & _).
      destruct (projections_after_probe w1 output_dir (next_doc w1) pdf_path
                  (length ps) parallel t2) as (P2 & _).
      rewrite Hsame in Hfs2.
      rewrite Hev1, Hev2, P1, P2, Hw1, Hw2. clear Hev1 Hev2 P1 P2.
      pose proof (batch_files_NoDup pdf_path output_dir dpi img_format quality
                    parallel max_workers sched1 (length ps) Hs1) as Hnd1.
      pose proof (batch_files_NoDup pdf_path output_dir dpi img_format quality
                    parallel max_workers sched2 (length ps) Hs2) as Hnd2.
      pose proof (batch_files_Permutation pdf_path output_dir dpi img_format
                    quality parallel max_workers sched1 sched2 (length ps) Hs1 Hs2)
        as Hperm.
      repeat split.
      * rewrite Hfs2, Hfs1. now apply apply_writes_twice.
      * exact Hperm.
      * exact Hnd2.
      * intros p b Hin. rewrite Hfs1. apply apply_writes_lookup; [exact Hnd1|].
        apply list_elem_of_In. rewrite <- Hperm. now apply list_elem_of_In.
    + rewrite pdf_to_jpeg_no_document in Hrun1 by assumption.
      inversion Hrun1; subst r1 w1; clear Hrun1.
      destruct (makedirs_when_present _ _ (output_dir_after_makedirs _ _ Hdir))
        as [Hdir1 Hsame].
      rewrite pdf_to_jpeg_no_document in Hrun2 by assumption.
      rewrite Hsame in Hrun2. inversion Hrun2; subst r2 w2; clear Hrun2.
      rewrite events_since_refl.
      destruct (makedirs_events_silent w output_dir) as (-> & _).
      repeat split; try constructor. intros p b [].
  - rewrite pdf_to_jpeg_no_directory in Hrun1 by exact Hdir.
    inversion Hrun1; subst r1 w1; clear Hrun1.
    destruct (failed_makedirs_again output_dir w Hdir) as [Hdir1 Hsame].
    rewrite pdf_to_jpeg_no_directory in Hrun2 by exact Hdir1.
    inversion Hrun2; subst r2 w2; clear Hrun2.
    rewrite !events_after_failed_makedirs.
    split; [exact Hsame|]. repeat split; try constructor. intros p b [].
Qed.

End RerunClaim.

(** ** The batch claims on the demonstration library *)

Section BatchRuns.

Lemma fifo_permutation (l : list nat) : Permutation (Demo.fifo l) l.
Proof. reflexivity. Defined.

Lemma lifo_permutation (l : list nat) : Permutation (Demo.lifo l) l.
Proof. symmetry. apply Permutation_rev. Defined.

(** The first scenario of section 8: three pages, three PNG files, in
    page order. *)
Example sample_sequential_steps :
  fst Demo.sequential_run = Ret tt /\
  page_steps (trace (snd Demo.sequential_run)) =
  [Called 0; Wrote "out/sample_1.png"; Logged 1;
   Called 1; Wrote "out/sample_2.png"; Logged 2;
   Called 2; Wrote "out/sample_3.png"; Logged 3].
Proof. split; vm_compute; reflexivity. Qed.

(** The second scenario: the same three files, completed in another
    order. *)
Example sample_parallel_steps :
  fst Demo.parallel_run = Ret tt /\
  submits (trace (snd Demo.parallel_run)) = [0; 1; 2] /\
  page_steps (trace (snd Demo.parallel_run)) =
  [Called 2; Wrote "out/sample_3.png"; Logged 3;
   Called 1; Wrote "out/sample_2.png"; Logged 2;
   Called 0; Wrote "out/sample_1.png"; Logged 1] /\
  fs (snd Demo.parallel_run) = fs (snd Demo.sequential_run).
Proof. repeat split; vm_compute; reflexivity. Qed.

Lemma sequential_mode_in_page_order_witness :
  @output_dir_ok Demo.lib "out" Demo.w0 = true /\
  @fitz_pages Demo.lib "docs/sample.pdf" = Some [7; 8; 9] /\
  Demo.sequential_run = (Ret tt, snd Demo.sequential_run) /\
  submits (events_since Demo.w0 (snd Demo.sequential_run)) = [] /\
  exists k,
    (forall i, i < k ->
       exists b, @page_file Demo.lib "docs/sample.pdf" i "out" 150 "png" 80
                 = Ret (written_path "docs/sample.pdf" i "out" "png", b)) /\
    k = 3 /\
    page_steps (events_since Demo.w0 (snd Demo.sequential_run)) =
    flat_map (fun i => [Called i;
                        Wrote (written_path "docs/sample.pdf" i "out" "png");
                        Logged (i + 1)]) (seq 0 3).
Proof.
  assert (Hrun : Demo.sequential_run = (Ret tt, snd Demo.sequential_run))
    by (apply run_with_outcome; reflexivity).
  split; [reflexivity|]. split; [reflexivity|]. split; [exact Hrun|].
  exact (@sequential_mode_in_page_order Demo.lib Demo.fifo "docs/sample.pdf" "out"
           150 None "png" 80 [7; 8; 9] Demo.w0 (Ret tt) _ eq_refl eq_refl Hrun).
Defined.

Lemma empty_document_no_tasks_witness :
  @fitz_pages Demo.lib "docs/empty.pdf" = Some [] /\
  @output_dir_ok Demo.lib "out" Demo.w0 = true /\
  pool_size_ok (Some 2%Z) = true /\
  writes (events_since Demo.w0 (snd Demo.empty_run)) = [] /\
  submits (events_since Demo.w0 (snd Demo.empty_run)) = [] /\
  calls (events_since Demo.w0 (snd Demo.empty_run)) = [] /\
  fst Demo.empty_run = Ret tt.
Proof.
  split; [reflexivity|]. split; [reflexivity|]. split; [reflexivity|].
  destruct (@empty_document_no_tasks Demo.lib Demo.lifo "docs/empty.pdf" "out"
              150 true (Some 2%Z) "png" 80 Demo.w0 _ _
              lifo_permutation eq_refl (surjective_pairing Demo.empty_run))
    as (Hw & Hs & Hc & Hr).
  split; [exact Hw|]. split; [exact Hs|]. split; [exact Hc|].
  exact (Hr eq_refl (fun _ => eq_refl)).
Defined.

Lemma driver_pages_in_range_once_witness :
  @fitz_pages Demo.lib "docs/sample.pdf" = Some [7; 8; 9] /\
  Forall (fun i => i < 3) (calls (events_since Demo.w0 (snd Demo.parallel_run))) /\
  NoDup (calls (events_since Demo.w0 (snd Demo.parallel_run))) /\
  fst Demo.parallel_run <> Raise PageIndexError /\
  (fst Demo.parallel_run = Ret tt ->
   Permutation (calls (events_since Demo.w0 (snd Demo.parallel_run))) (seq 0 3)).
Proof.
  split; [reflexivity|].
  exact (@driver_pages_in_range_once Demo.lib Demo.lifo "docs/sample.pdf" "out"
           150 true (Some 2%Z) "png" 80 [7; 8; 9] Demo.w0 _ _
           lifo_permutation eq_refl (surjective_pairing Demo.parallel_run)).
Defined.

Lemma rerun_is_idempotent_witness :
  fs (snd Demo.parallel_rerun) = fs (snd Demo.parallel_run) /\
  Permutation
    (writes (events_since (snd Demo.parallel_run) (snd Demo.parallel_rerun)))
    (writes (events_since Demo.w0 (snd Demo.parallel_run))) /\
  NoDup (map fst
           (writes (events_since (snd Demo.parallel_run) (snd Demo.parallel_rerun)))) /\
  (forall p b,
     In (p, b)
        (writes (events_since (snd Demo.parallel_run) (snd Demo.parallel_rerun))) ->
     fs (snd Demo.parallel_run) !! p = Some (File b)).
Proof.
  exact (@rerun_is_idempotent Demo.lib Demo.lifo Demo.fifo "docs/sample.pdf" "out"
           150 true (Some 2%Z) "png" 80 Demo.w0 _ _ _ _
           lifo_permutation fifo_permutation
           (surjective_pairing Demo.parallel_run)
           (surjective_pairing Demo.parallel_rerun)).
Defined.

(** When [os.makedirs] fails on the directory itself, the parents it
    made on the way stay. *)
Example failed_makedirs_leaves_parents :
  fst Locked.nested_run = Raise IOError /\
  events_since Demo.w0 (snd Locked.nested_run) = [] /\
  fs (snd Locked.nested_run) !! "out" = Some Dir /\
  fs (snd Locked.nested_run) !! "out/img" = Some Dir /\
  fs (snd Locked.nested_run) !! "out/img/p" = None.
Proof. repeat split; vm_compute; reflexivity. Qed.

(** The parents of the output directory are created with it. *)
Example nested_directory_parents :
  fs (snd More.nested_missing_run) !! "out" = Some Dir /\
  fs (snd More.nested_missing_run) !! "out/img" = Some Dir /\
  fs (snd More.nested_missing_run) !! "out/img/p" = Some Dir /\
  fs (snd More.nested_run) !! "out/img" = Some Dir /\
  fs (snd More.nested_run) !! "out/img/p/sample_3.png" =
  Some (File (list_byte_of_string "PNG" ++ [x00; x00; x09])%list).
Proof. repeat split; vm_compute; reflexivity. Qed.


End BatchRuns.

(* ------------------------------------------------------------------ *)
(** * Beyond the claims *)

(** ** More on paths *)

Section MorePaths.

#[local] Arguments String.append !s1 s2 : simpl nomatch.

(** [splitext] cuts its argument in two; the extension is empty or a dot
    followed by text without dots. *)
Lemma splitext_spec (s : string) :
  fst (posixpath.splitext s) ++ snd (posixpath.splitext s) = s /\
  (snd (posixpath.splitext s) = "" \/
   exists e, snd (posixpath.splitext s) = String posixpath.extsep e /\
             Str.contains posixpath.extsep e = false).
Proof.
  unfold posixpath.splitext.
  destruct (Str.rsplit posixpath.sep s) as [[a b]|] eqn:Es.
  - destruct (Str.rsplit posixpath.extsep b) as [[r e]|] eqn:Eb; simpl.
    + destruct (Str.all_char posixpath.extsep r); simpl.
      * rewrite append_inv_empty. now split; [|left].
      * split.
        -- apply rsplit_Some in Es, Eb. subst s b.
           now rewrite !append_assoc_s.
        -- right. exists e. split; [reflexivity|]. now apply rsplit_tail in Eb.
    + rewrite append_inv_empty. now split; [|left].
  - destruct (Str.rsplit posixpath.extsep s) as [[r e]|] eqn:Eb; simpl.
    + destruct (Str.all_char posixpath.extsep r); simpl.
      * rewrite append_inv_empty. now split; [|left].
      * split.
        -- now apply rsplit_Some in Eb.
        -- right. exists e. split; [reflexivity|]. now apply rsplit_tail in Eb.
    + rewrite append_inv_empty. now split; [|left].
Qed.

Lemma endswith_rsplit c (d : string) :
  Str.endswith c d = true -> exists x, Str.rsplit c d = Some (x, "").
Proof.
  induction d as [|a r IH]; [discriminate|].
  destruct r as [|b r].
  - simpl. intros ->. now exists "".
  - intros H. change (Str.endswith c (String b r) = true) in H.
    destruct (IH H) as [x Hx].
    change (Str.rsplit c (String a (String b r)))
      with (match Str.rsplit c (String b r) with
            | Some (p, q) => Some (String a p, q)
            | None => if Ascii.eqb a c then Some ("", String b r) else None
            end).
    rewrite Hx. now exists (String a x).
Qed.

(** A name without separator is the base name of what [join] makes of
    it. *)
Lemma basename_join (d name : string) :
  Str.contains posixpath.sep name = false ->
  posixpath.basename (posixpath.join d name) = name.
Proof.
  intros Hn. unfold posixpath.join.
  assert (Hs : Str.startswith posixpath.sep name = false).
  { destruct name as [|x name]; [reflexivity|]. simpl in *.
    now apply orb_false_iff in Hn as [Hx _]. }
  rewrite Hs. unfold posixpath.basename.
  destruct (String.eqb_spec d "") as [->|Hd]; simpl.
  - now rewrite (rsplit_absent _ _ Hn).
  - destruct (Str.endswith posixpath.sep d) eqn:He.
    + rewrite (rsplit_app_absent _ d _ Hn).
      destruct (endswith_rsplit _ _ He) as [x ->]. reflexivity.
    + now rewrite (rsplit_last _ d name Hn).
Qed.

(** The name [process_page] gives its file: stem, underscore, page
    number, dot, extension. *)
Lemma written_path_join pdf_path page_num output_dir img_format :
  exists ext,
    written_path pdf_path page_num output_dir img_format =
    posixpath.join output_dir
      (file_name pdf_path ++ "_" ++ Str.of_nat (page_num + 1) ++ "." ++ ext) /\
    (ext = img_format \/ ext = "b64").
Proof.
  destruct (dispatch img_format) eqn:D.
  5: { exists img_format. split; [|now left].
       unfold written_path. now rewrite D. }
  4: { exists "b64". split; [|now right].
       rewrite written_path_base64 by exact D.
       symmetry. apply (output_image_eq pdf_path page_num output_dir "b64"). }
  all: exists img_format; split; [|now left]; unfold written_path; now rewrite D.
Qed.

Lemma output_name_no_sep pdf_path page_num (ext : string) :
  Str.contains posixpath.sep ext = false ->
  Str.contains posixpath.sep
    (file_name pdf_path ++ "_" ++ Str.of_nat (page_num + 1) ++ "." ++ ext) = false.
Proof.
  intros He. rewrite contains_app, file_name_no_sep. simpl.
  rewrite contains_app, of_nat_no_sep. simpl. exact He.
Qed.

(** The output of a page is never the input: its base name continues the
    stem with an underscore, where the input's continues it with nothing
    or a dot. *)
Lemma written_path_not_input pdf_path page_num output_dir img_format :
  Str.contains posixpath.sep img_format = false ->
  written_path pdf_path page_num output_dir img_format <> pdf_path.
Proof.
  intros Hfmt Heq.
  destruct (written_path_join pdf_path page_num output_dir img_format)
    as (ext & Hp & Hext).
  assert (He : Str.contains posixpath.sep ext = false).
  { destruct Hext as [->| ->]; [exact Hfmt | reflexivity]. }
  apply (f_equal posixpath.basename) in Heq.
  rewrite Hp, basename_join in Heq by now apply output_name_no_sep.
  destruct (splitext_spec (posixpath.basename pdf_path)) as [Hcut Hsuffix].
  fold (file_name pdf_path) in Hcut.
  rewrite <- Hcut in Heq.
  apply String.app_inj in Heq.
  destruct Hsuffix as [E|(e & E & _)]; rewrite E in Heq; discriminate.
Qed.

(** X15.  Line 32 on a path of the usual form (directory, separator,
    stem, dot, extension, or the same without directory) gives the stem:
    the directory and the extension are taken off, nothing else. *)
Theorem file_name_of_plain_path (dir stem ext : string) :
  Str.contains posixpath.sep stem = false ->
  Str.all_char posixpath.extsep stem = false ->
  Str.contains posixpath.extsep ext = false ->
  Str.contains posixpath.sep ext = false ->
  file_name (dir ++ "/" ++ stem ++ "." ++ ext) = stem /\
  file_name (stem ++ "." ++ ext) = stem.
Proof.
  intros Hs Hd He1 He2.
  assert (Hname : Str.contains posixpath.sep (stem ++ "." ++ ext) = false).
  { rewrite contains_app, Hs. simpl. exact He2. }
  assert (Hsplit : posixpath.splitext (stem ++ "." ++ ext) = (stem, "." ++ ext)).
  { apply (splitext_strip "" stem ext); assumption. }
  unfold file_name, posixpath.basename. split.
  - change (dir ++ "/" ++ stem ++ "." ++ ext)
      with (dir ++ String posixpath.sep (stem ++ "." ++ ext)).
    rewrite (rsplit_last _ dir _ Hname). now rewrite Hsplit.
  - rewrite (rsplit_absent _ _ Hname). now rewrite Hsplit.
Qed.

End MorePaths.

(** ** More on Base64 *)

Section MoreBase64.
Import Base64.

Lemma b64char_in_alphabet s : (0 <= s < 64)%Z -> In (b64char s) alphabet.
Proof.
  intros Hs. unfold b64char. apply nth_In.
  change (length alphabet) with 64. lia.
Qed.

(** Four characters for every three bytes, the last group padded. *)
Lemma b64encode_length bs :
  length (b64encode bs) = 4 * ((length bs + 2) / 3).
Proof.
  assert (H : forall n bs, length bs <= n ->
                           length (b64encode bs) = 4 * ((length bs + 2) / 3)).
  { clear bs. induction n as [|n IH]; intros bs Hlen.
    - destruct bs; [reflexivity | simpl in Hlen; lia].
    - destruct bs as [|a [|b [|c rest]]]; [reflexivity..|].
      cbn [b64encode length].
      rewrite (IH rest) by (simpl in Hlen; lia).
      replace (S (S (S (length rest))) + 2) with ((length rest + 2) + 1 * 3) by lia.
      rewrite Nat.div_add by lia. lia. }
  apply (H (length bs)). lia.
Qed.

(** Only characters of the alphabet and the padding sign. *)
Lemma b64encode_chars bs :
  Forall (fun c => In c alphabet \/ c = pad) (b64encode bs).
Proof.
  assert (H : forall n bs, length bs <= n ->
                           Forall (fun c => In c alphabet \/ c = pad) (b64encode bs)).
  { clear bs. induction n as [|n IH]; intros bs Hlen.
    - destruct bs; [constructor | simpl in Hlen; lia].
    - destruct bs as [|a [|b [|c rest]]]; cbn [b64encode]; [constructor|..].
      all: repeat (apply Forall_cons; split);
        try (left; apply b64char_in_alphabet, sextet_range; lia);
        try (right; reflexivity); try constructor.
      apply IH. simpl in Hlen. lia. }
  apply (H (length bs)). lia.
Qed.

End MoreBase64.

(** ** More on one page *)

Section MoreOnePage.
Context `{L : Library}.

(** X1.  Whatever a call of [process_page] does to the file system, it
    does it to the one path it writes: every other path holds after the
    call what it held before, whether the call returns or raises. *)
Theorem process_page_touches_one_path
    pdf_path page_num output_dir dpi img_format quality w r w' path :
  process_page pdf_path page_num output_dir dpi img_format quality w = (r, w') ->
  path <> written_path pdf_path page_num output_dir img_format ->
  fs w' !! path = fs w !! path.
Proof.
  intros Hrun Hne. destruct r as [r|e].
  - apply process_page_Ret in Hrun as (p & b & E & _ & ->).
    apply page_file_path in E. subst p. simpl.
    now rewrite lookup_insert_ne by congruence.
  - apply process_page_Raise in Hrun as [_ [(_ & _ & ->)|(_ & _ & ->)]];
      reflexivity.
Qed.

(** X2.  Two calls for different pages of the same document, with the
    same directory and format, write to different paths. *)
Theorem distinct_pages_distinct_files
    pdf_path output_dir dpi img_format quality i j wi ri wi' wj rj wj' :
  i <> j ->
  process_page pdf_path i output_dir dpi img_format quality wi = (Ret ri, wi') ->
  process_page pdf_path j output_dir dpi img_format quality wj = (Ret rj, wj') ->
  exists pi bi pj bj,
    writes (events_since wi wi') = [(pi, bi)] /\
    writes (events_since wj wj') = [(pj, bj)] /\
    pi <> pj.
Proof.
  intros Hij Hi Hj.
  apply process_page_Ret in Hi as (pi & bi & Ei & _ & ->).
  apply process_page_Ret in Hj as (pj & bj & Ej & _ & ->).
  exists pi, bi, pj, bj. rewrite !events_after_page.
  split; [reflexivity|]. split; [reflexivity|].
  apply page_file_path in Ei, Ej. subst pi pj.
  intros E. now apply written_path_inj in E.
Qed.

(** X3.  With a format that holds no path separator, [process_page]
    never writes to the PDF it reads: the input keeps its content. *)
Theorem process_page_spares_the_input
    pdf_path page_num output_dir dpi img_format quality w r w' :
  Str.contains posixpath.sep img_format = false ->
  process_page pdf_path page_num output_dir dpi img_format quality w = (r, w') ->
  fs w' !! pdf_path = fs w !! pdf_path /\
  forall p b, In (p, b) (writes (events_since w w')) -> p <> pdf_path.
Proof.
  intros Hfmt Hrun.
  pose proof (written_path_not_input pdf_path page_num output_dir img_format Hfmt)
    as Hne.
  destruct r as [r|e].
  - apply process_page_Ret in Hrun as (p0 & b0 & E & _ & ->).
    rewrite events_after_page. apply page_file_path in E. subst p0.
    split.
    + simpl. now rewrite lookup_insert_ne.
    + intros p b [[= <- <-]|[]]. exact Hne.
  - apply process_page_Raise in Hrun as [_ [(_ & _ & ->)|(_ & _ & ->)]].
    + rewrite events_after_open_failure. split; [reflexivity | intros p b []].
    + rewrite events_after_failure. split; [reflexivity | intros p b []].
Qed.

(** X4.  [process_page] raises the page-index error exactly when the
    document opens and has no page of that number; it then leaves the
    file system as it was. *)
Theorem page_index_error_iff_out_of_range
    pdf_path page_num output_dir dpi img_format quality w :
  (fst (process_page pdf_path page_num output_dir dpi img_format quality w)
   = Raise PageIndexError <->
   exists ps, fitz_pages pdf_path = Some ps /\ length ps <= page_num) /\
  (fst (process_page pdf_path page_num output_dir dpi img_format quality w)
   = Raise PageIndexError ->
   fs (snd (process_page pdf_path page_num output_dir dpi img_format quality w))
   = fs w).
Proof.
  rewrite process_page_run.
  unfold page_file, rasterise, encode_and_write.
  destruct (fitz_pages pdf_path) as [ps|] eqn:Hpdf.
  - destruct (nth_error ps page_num) as [pg|] eqn:Hpg.
    + assert (Hlt : page_num < length ps) by (apply nth_error_Some; congruence).
      assert (Hno : ~ exists ps0, Some ps = Some ps0 /\ length ps0 <= page_num).
      { intros (ps0 & [= <-] & Hle). lia. }
      destruct (get_pixmap _ _); [|simpl; split; [split|]; [discriminate|tauto|discriminate]].
      destruct (Image_frombytes _ _ _);
        [|simpl; split; [split|]; [discriminate|tauto|discriminate]].
      destruct (dispatch img_format);
        repeat match goal with
        | |- context [can_write ?q] => destruct (can_write q)
        | |- context [Image_encode ?i ?c] => destruct (Image_encode i c)
        end; simpl; (split; [split|]; [discriminate|tauto|discriminate]).
    + simpl. split; [split|]; try reflexivity.
      intros _. exists ps. split; [reflexivity|]. now apply nth_error_None.
  - simpl. split; [split|]; try discriminate.
    intros (ps & [=] & _).
Qed.

(** X14.  The file of the base64 branch holds four characters for every
    three bytes of the WEBP encoding (rounded up), all of them from the
    Base64 alphabet or the padding sign. *)
Theorem base64_file_shape
    pdf_path page_num output_dir dpi img_format quality w r w' :
  Str.lower img_format = "base64" ->
  process_page pdf_path page_num output_dir dpi img_format quality w = (Ret r, w') ->
  exists img webp_bytes p content,
    rasterise pdf_path page_num dpi = Ret img /\
    Image_encode img (WEBP quality 0) = Some webp_bytes /\
    writes (events_since w w') = [(p, content)] /\
    length content = 4 * ((length webp_bytes + 2) / 3) /\
    Forall (fun c => In c Base64.alphabet \/ c = Base64.pad) content.
Proof.
  intros Hb Hrun.
  apply process_page_Ret in Hrun as (p & b & E & _ & ->).
  rewrite events_after_page.
  unfold page_file, encode_and_write in E.
  assert (D : dispatch img_format = BrBase64) by (unfold dispatch; now rewrite Hb).
  rewrite D in E.
  destruct (rasterise pdf_path page_num dpi) as [img|]; [|discriminate].
  destruct (Image_encode img (WEBP quality 0)) as [buffer|] eqn:Henc;
    [|discriminate].
  destruct (can_write _) in E; [|discriminate].
  injection E as <- <-.
  exists img, buffer. eexists _, _.
  split; [reflexivity|]. split; [exact Henc|]. split; [reflexivity|].
  split; [apply b64encode_length | apply b64encode_chars].
Qed.

End MoreOnePage.

(** ** More on the loops *)

Section MoreLoops.
Context `{L : Library}.
Variables (pdf_path output_dir : string) (dpi : Z) (img_format : string)
  (quality : Z) (page_count : nat).

Local Abbreviation page_file' i :=
  (page_file pdf_path i output_dir dpi img_format quality).
Local Abbreviation completed' :=
  (completed pdf_path output_dir dpi img_format quality).
Local Abbreviation first_failure' :=
  (first_failure pdf_path output_dir dpi img_format quality).
Local Abbreviation page_exn' :=
  (page_exn pdf_path output_dir dpi img_format quality).
Local Abbreviation seq_loop :=
  (sequential_loop pdf_path output_dir dpi img_format quality page_count).
Local Abbreviation par_loop :=
  (as_completed_loop pdf_path output_dir dpi img_format quality page_count).

Lemma printed_app (a b : list event) :
  printed (a ++ b) = (printed a ++ printed b)%list.
Proof. apply omap_app. Qed.

Lemma handle_events_app (a b : list event) :
  handle_events (a ++ b) = (handle_events a ++ handle_events b)%list.
Proof. apply omap_app. Qed.

Lemma makedirs_of_app (a b : list event) :
  makedirs_of (a ++ b) = (makedirs_of a ++ makedirs_of b)%list.
Proof. apply omap_app. Qed.

(** What a failed task leaves in the trace. *)
Lemma failure_events w i :
  exists d,
    trace (match fitz_pages pdf_path with
           | Some _ => world_after_failure w pdf_path i
           | None => world_after_open_failure w i
           end) = (trace w ++ d)%list /\
    forallb page_event d = true /\ printed d = [].
Proof.
  destruct (fitz_pages pdf_path).
  - exists [EvCall i; EvOpen (next_doc w) pdf_path]. now repeat split.
  - exists [EvCall i]. now repeat split.
Qed.

(** The sequential loop adds events of page tasks only, and prints the
    line of each page it gets through. *)
Lemma sequential_loop_prints range w r w' :
  seq_loop range w = (r, w') ->
  exists delta,
    trace w' = (trace w ++ delta)%list /\
    forallb page_event delta = true /\
    printed delta = map (fun i => ShPage (i + 1) page_count) (completed' range).
Proof.
  revert w. induction range as [|i rest IH]; intros w.
  - intros [= <- <-]. exists []. now rewrite app_nil_r.
  - cbn [sequential_loop]. unfold bind at 1. rewrite process_page_run.
    cbn [completed]. unfold page_exn.
    destruct (page_file' i) as [[p b]|e] eqn:E.
    + unfold print, emit, bind at 1. intros Hrun.
      apply IH in Hrun as (delta & Ht & Hp & Hl). simpl in Ht.
      exists ([EvCall i; EvOpen (next_doc w) pdf_path; EvWrite p b;
               EvClose (next_doc w);
               EvPrint (LinePage (i + 1) page_count (page_duration_at w))]
              ++ delta)%list.
      split; [rewrite Ht; now rewrite <- !app_assoc|].
      split; [exact Hp|]. simpl. now rewrite Hl.
    + intros [= <- <-]. apply failure_events.
Qed.

(** So does the loop over the completed futures, until a task has
    raised. *)
Lemma as_completed_loop_prints completion failed w r w' :
  par_loop completion failed w = (r, w') ->
  exists delta,
    trace w' = (trace w ++ delta)%list /\
    forallb page_event delta = true /\
    printed delta =
    match failed with
    | Some _ => []
    | None => map (fun i => ShPage (i + 1) page_count) (completed' completion)
    end.
Proof.
  revert failed w. induction completion as [|i rest IH]; intros failed w.
  - simpl. destruct failed; intros [= <- <-]; exists []; now rewrite app_nil_r.
  - cbn [as_completed_loop]. unfold bind at 1, capture.
    rewrite process_page_run. cbn [completed]. unfold page_exn.
    destruct (page_file' i) as [[p b]|e] eqn:E.
    + destruct failed as [e0|].
      * intros Hrun. apply IH in Hrun as (delta & Ht & Hp & Hl). simpl in Ht.
        exists ([EvCall i; EvOpen (next_doc w) pdf_path; EvWrite p b;
                 EvClose (next_doc w)] ++ delta)%list.
        split; [rewrite Ht; now rewrite <- !app_assoc|].
        split; [exact Hp|]. simpl. exact Hl.
      * unfold print, emit, bind at 1. intros Hrun.
        apply IH in Hrun as (delta & Ht & Hp & Hl). simpl in Ht.
        exists ([EvCall i; EvOpen (next_doc w) pdf_path; EvWrite p b;
                 EvClose (next_doc w);
                 EvPrint (LinePage (i + 1) page_count (page_duration_at w))]
                ++ delta)%list.
        split; [rewrite Ht; now rewrite <- !app_assoc|].
        split; [exact Hp|]. simpl. now rewrite Hl.
    + intros Hrun.
      assert (Hrun' : par_loop rest
                        (Some (match failed with Some e0 => e0 | None => e end))
                        (match fitz_pages pdf_path with
                         | Some _ => world_after_failure w pdf_path i
                         | None => world_after_open_failure w i
                         end) = (r, w')).
      { destruct failed; exact Hrun. }
      apply IH in Hrun' as (delta & Ht & Hp & Hl).
      destruct (failure_events w i) as (d & Hd & Hdp & Hdl).
      exists (d ++ delta)%list.
      split; [rewrite Ht, Hd; now rewrite <- app_assoc|].
      split; [rewrite forallb_app, Hdp, Hp; reflexivity|].
      rewrite printed_app, Hdl, Hl. now destruct failed.
Qed.

(** When no task raises, the loop over the completed futures does what
    the sequential loop does on the same list of pages. *)
Lemma loops_agree_when_no_failure completion w :
  first_failure' completion = None ->
  par_loop completion None w = seq_loop completion w.
Proof.
  revert w. induction completion as [|i rest IH]; intros w Hok; [reflexivity|].
  cbn [first_failure] in Hok. unfold page_exn in Hok.
  cbn [as_completed_loop sequential_loop]. unfold bind at 1 3, capture.
  rewrite process_page_run.
  destruct (page_file' i) as [[p b]|e]; [|discriminate].
  unfold bind. simpl. now rewrite IH.
Qed.

(** Documents in a loop that no task fails: each page opens one, under
    the next free handle, and closes it before the loop goes on. *)
Lemma sequential_loop_handles range w r w' :
  first_failure' range = None ->
  handles_fresh w ->
  seq_loop range w = (r, w') ->
  handle_events (events_since w w') =
  flat_map (fun h => [EvOpen h pdf_path; EvClose h])
    (seq (next_doc w) (length range)) /\
  open_docs w' = open_docs w /\
  next_doc w' = next_doc w + length range.
Proof.
  revert w. induction range as [|i rest IH]; intros w Hok Hfresh.
  - intros [= <- <-]. rewrite events_since_refl. simpl. repeat split. lia.
  - cbn [first_failure] in Hok. unfold page_exn in Hok.
    cbn [sequential_loop]. unfold bind at 1. rewrite process_page_run.
    destruct (page_file' i) as [[p b]|e] eqn:E; [|discriminate].
    unfold print, emit, bind at 1. simpl.
    set (w1 := World _ _ _ _ _). intros Hrun.
    assert (Hopen : open_docs w1 = open_docs w).
    { unfold w1. simpl. apply set_eq. intros h.
      rewrite elem_of_difference, elem_of_union, elem_of_singleton.
      split; [intros [[->|H] Hn]; [contradiction | exact H]|].
      intros H. split; [now right|]. intros ->.
      specialize (Hfresh _ H). lia. }
    assert (Hfresh1 : handles_fresh w1).
    { intros h Hh. rewrite Hopen in Hh. specialize (Hfresh _ Hh).
      unfold w1. simpl. lia. }
    destruct (IH w1 Hok Hfresh1 Hrun) as (Hh & Ho & Hn).
    destruct (sequential_loop_prints _ _ _ _ Hrun) as (delta & Ht & _).
    assert (Hev1 : events_since w1 w' = delta).
    { unfold events_since. now apply events_since_app. }
    assert (Hev : events_since w w' =
                  ([EvCall i; EvOpen (next_doc w) pdf_path; EvWrite p b;
                    EvClose (next_doc w);
                    EvPrint (LinePage (i + 1) page_count (page_duration_at w))]
                   ++ delta)%list).
    { unfold events_since. apply events_since_app. rewrite Ht. unfold w1. simpl.
      now rewrite <- !app_assoc. }
    rewrite Hev1 in Hh. rewrite Hev, handle_events_app, Hh.
    split; [|split].
    + reflexivity.
    + now rewrite Ho.
    + rewrite Hn. unfold w1. simpl. lia.
Qed.

End MoreLoops.

(** ** More on the driver *)

Section MoreDriver.
Context `{L : Library}.
Variables (sched : list nat -> list nat) (pdf_path output_dir : string)
  (dpi : Z) (parallel : bool) (max_workers : option Z) (img_format : string)
  (quality : Z).

Local Abbreviation body n :=
  (batch_body pdf_path output_dir dpi img_format quality sched parallel
     max_workers n).
Local Abbreviation reported n :=
  (batch_reported pdf_path output_dir dpi img_format quality sched parallel
     max_workers n).
Local Abbreviation run :=
  (pdf_to_jpeg sched pdf_path output_dir dpi parallel max_workers img_format
     quality).

Lemma page_event_batch_event (l : list event) :
  forallb page_event l = true -> forallb batch_event l = true.
Proof.
  induction l as [|e l IH]; [reflexivity|]. simpl.
  intros [He Hl]%andb_true_iff. rewrite (IH Hl), andb_true_r.
  now destruct e.
Qed.

Lemma batch_events_silent (l : list event) :
  forallb batch_event l = true ->
  makedirs_of l = [] /\
  Forall (fun s => exists k n, s = ShPage k n) (printed l).
Proof.
  induction l as [|e l IH]; [now split|]. simpl.
  intros [He Hl]%andb_true_iff. destruct (IH Hl) as [Hm Hp].
  destruct e as [| | | | | |[| |]]; try discriminate; simpl;
    (split; [exact Hm|]); try exact Hp.
  apply Forall_cons. split; [eauto | exact Hp].
Qed.

(** Lines 96-110 add events of page tasks and submissions only, and
    print one line for each page reported. *)
Lemma batch_body_trace n w r w' :
  body n w = (r, w') ->
  exists delta,
    trace w' = (trace w ++ delta)%list /\
    forallb batch_event delta = true /\
    printed delta = map (fun i => ShPage (i + 1) n) (reported n).
Proof.
  unfold batch_body, batch_reported. destruct parallel.
  - unfold bind at 1. rewrite pool_size_ok_spec.
    destruct (pool_size_ok max_workers).
    + unfold bind at 1. rewrite submit_all_run. intros Hrun.
      apply as_completed_loop_prints in Hrun as (delta & Ht & Hp & Hl).
      simpl in Ht. exists (map EvSubmit (seq 0 n) ++ delta)%list.
      split; [now rewrite Ht, app_assoc|].
      split.
      * rewrite forallb_app, (page_event_batch_event _ Hp), andb_true_r.
        generalize (seq 0 n). intros l. now induction l.
      * rewrite printed_app, Hl.
        assert (E : forall l, printed (map EvSubmit l) = []) by (now induction l).
        now rewrite E.
    + intros [= <- <-]. exists []. now rewrite app_nil_r.
  - intros Hrun.
    apply sequential_loop_prints in Hrun as (delta & Ht & Hp & Hl).
    exists delta. split; [exact Ht|].
    split; [now apply page_event_batch_event | exact Hl].
Qed.

(** The whole trace of a run on a readable PDF. *)
Lemma pdf_to_jpeg_trace w r w' ps :
  run w = (r, w') ->
  output_dir_ok output_dir w = true ->
  fitz_pages pdf_path = Some ps ->
  exists delta final,
    events_since w w' =
    (events_since w (world_after_makedirs w output_dir) ++
     [EvOpen (next_doc w) pdf_path; EvClose (next_doc w);
      EvPrint (LineConverting (length ps) parallel)] ++ delta ++ final)%list /\
    forallb batch_event delta = true /\
    printed delta = map (fun i => ShPage (i + 1) (length ps)) (reported (length ps)) /\
    match r with
    | Ret _ => exists d, final = [EvPrint (LineTotal d)]
    | Raise _ => final = []
    end.
Proof.
  intros Hrun Hdir Hpdf. rewrite pdf_to_jpeg_run, Hdir, Hpdf in Hrun.
  simpl in Hrun.
  set (w1 := world_after_makedirs w output_dir) in *.
  set (w2 := world_after_probe w1 pdf_path (length ps) parallel) in *.
  destruct (body (length ps) w2) as [r3 w3] eqn:Hbody.
  destruct (batch_body_trace _ _ _ _ Hbody) as (delta & Ht & Hb & Hl).
  assert (Ht2 : trace w3 =
                (trace w ++ events_since w w1 ++
                 [EvOpen (next_doc w) pdf_path; EvClose (next_doc w);
                  EvPrint (LineConverting (length ps) parallel)] ++ delta)%list).
  { rewrite Ht. unfold w2. simpl. unfold w1 at 1.
    rewrite trace_after_makedirs. fold w1.
    unfold w1 at 2 3. rewrite next_doc_after_makedirs.
    now rewrite <- !app_assoc. }
  destruct r3 as [[]|e]; inversion Hrun; subst r w'; clear Hrun.
  - exists delta, [EvPrint (LineTotal
                               (clock (clock_reads w3) - clock (clock_reads w1))%Q)].
    split.
    { unfold events_since. apply events_since_app. simpl. rewrite Ht2.
      now rewrite <- !app_assoc. }
    split; [exact Hb|]. split; [exact Hl|]. eauto.
  - exists delta, []. split.
    { unfold events_since. apply events_since_app. rewrite Ht2.
      now rewrite app_nil_r. }
    now repeat split.
Qed.

End MoreDriver.

(** ** More on batches *)

Section MoreBatches.
Context `{L : Library}.
Variables (pdf_path output_dir : string) (dpi : Z) (img_format : string)
  (quality : Z).

Local Abbreviation page_file' i :=
  (page_file pdf_path i output_dir dpi img_format quality).
Local Abbreviation files_of' :=
  (files_of pdf_path output_dir dpi img_format quality).
Local Abbreviation completed' :=
  (completed pdf_path output_dir dpi img_format quality).
Local Abbreviation first_failure' :=
  (first_failure pdf_path output_dir dpi img_format quality).
Local Abbreviation page_exn' :=
  (page_exn pdf_path output_dir dpi img_format quality).
Local Abbreviation loop_result' :=
  (loop_result pdf_path output_dir dpi img_format quality).

Lemma first_failure_None range :
  first_failure' range = None <-> forall i, In i range -> page_exn' i = None.
Proof.
  induction range as [|j rest IH]; simpl.
  - split; [intros _ i [] | reflexivity].
  - destruct (page_exn' j) as [e|] eqn:E.
    + split; [discriminate|]. intros H. specialize (H j (or_introl eq_refl)).
      congruence.
    + rewrite IH. split.
      * intros H i [<-|Hi]; [exact E | now apply H].
      * intros H i Hi. apply H. now right.
Qed.

Lemma first_failure_None_perm (l1 l2 : list nat) :
  Permutation l1 l2 -> first_failure' l1 = None -> first_failure' l2 = None.
Proof.
  intros Hperm H. rewrite first_failure_None in *.
  intros i Hi. apply H. apply list_elem_of_In. rewrite Hperm.
  now apply list_elem_of_In.
Qed.

Lemma completed_no_failure range :
  first_failure' range = None -> completed' range = range.
Proof.
  induction range as [|j rest IH]; simpl; [reflexivity|].
  destruct (page_exn' j); [discriminate|]. intros H. now rewrite IH.
Qed.

Lemma loop_result_Ret range :
  loop_result' range = Ret tt <-> first_failure' range = None.
Proof.
  unfold loop_result.
  destruct (first_failure' range) as [[i e]|]; split; try discriminate; reflexivity.
Qed.

Lemma files_of_In pages i p b :
  In i pages -> page_file' i = Ret (p, b) -> In (p, b) (files_of' pages).
Proof.
  intros Hi E. apply list_elem_of_In. unfold files_of.
  apply list_elem_of_omap. exists i. split; [now apply list_elem_of_In|].
  now rewrite E.
Qed.

(** With distinct paths, writes in another order give the same file
    system. *)
Lemma apply_writes_perm (f1 f2 : list (string * list byte)) (m : gmap string node) :
  NoDup f1.*1 -> Permutation f2 f1 -> apply_writes f2 m = apply_writes f1 m.
Proof.
  intros Hnd Hperm.
  assert (Hnd2 : NoDup f2.*1) by now rewrite Hperm.
  rewrite (apply_writes_union f1 m Hnd), (apply_writes_union f2 m Hnd2).
  f_equal. apply list_to_map_proper.
  - now rewrite as_map_keys.
  - now rewrite Hperm.
Qed.

Lemma apply_writes_other (files : list (string * list byte)) (m : gmap string node) p :
  (forall q b, In (q, b) files -> q <> p) -> apply_writes files m !! p = m !! p.
Proof.
  revert m. induction files as [|[q b] files IH]; intros m H; [reflexivity|].
  change (apply_writes ((q, b) :: files) m)
    with (apply_writes files (<[q := File b]> m)).
  rewrite IH by (intros q' b' Hin; apply (H q' b'); now right).
  apply lookup_insert_ne. apply (H q b). now left.
Qed.

Lemma batch_files_paths sched parallel max_workers n p b :
  In (p, b) (batch_files pdf_path output_dir dpi img_format quality sched
               parallel max_workers n) ->
  exists i, p = written_path pdf_path i output_dir img_format.
Proof.
  unfold batch_files.
  destruct parallel; [destruct (pool_size_ok max_workers); [|intros []]|];
    intros Hin; apply files_of_paths in Hin as (i & _ & ->); now exists i.
Qed.

End MoreBatches.

(** ** Properties of a batch beyond the claims *)

Section BatchProperties.
Context `{L : Library}.

(** X5.  The two modes agree on success: from the same world, the
    sequential run returns normally exactly when the parallel run does
    (the pool being one that can be created), and then both leave the
    same file system, having written the same files. *)
Theorem modes_agree_on_success
    sched pdf_path output_dir dpi max_workers img_format quality w rs ws rp wp :
  (forall l, Permutation (sched l) l) ->
  pool_size_ok max_workers = true ->
  pdf_to_jpeg sched pdf_path output_dir dpi false max_workers img_format quality w
  = (rs, ws) ->
  pdf_to_jpeg sched pdf_path output_dir dpi true max_workers img_format quality w
  = (rp, wp) ->
  (rs = Ret tt <-> rp = Ret tt) /\
  (rs = Ret tt ->
   fs wp = fs ws /\
   Permutation (writes (events_since w wp)) (writes (events_since w ws))).
Proof.
  intros Hsched Hpool Hs Hp.
  destruct (output_dir_ok output_dir w) eqn:Hdir.
  2: { rewrite pdf_to_jpeg_no_directory in Hs, Hp by exact Hdir.
       inversion Hs; inversion Hp; subst. split; [split|]; discriminate. }
  destruct (fitz_pages pdf_path) as [ps|] eqn:Hpdf.
  2: { rewrite pdf_to_jpeg_no_document in Hs, Hp by assumption.
       inversion Hs; inversion Hp; subst. split; [split|]; discriminate. }
  destruct (pdf_to_jpeg_summary _ _ _ _ _ _ _ _ _ _ _ _ Hs Hdir Hpdf)
    as (ts & Hevs & Hrs & Hfss & Hws & _).
  destruct (pdf_to_jpeg_summary _ _ _ _ _ _ _ _ _ _ _ _ Hp Hdir Hpdf)
    as (tp & Hevp & Hrp & Hfsp & Hwp & _).
  destruct (projections_after_probe w output_dir (next_doc w) pdf_path
              (length ps) false ts) as (Ps & _).
  destruct (projections_after_probe w output_dir (next_doc w) pdf_path
              (length ps) true tp) as (Pp & _).
  unfold batch_result, batch_files, pool_result in *. rewrite Hpool in *.
  pose proof (Hsched (seq 0 (length ps))) as Hperm.
  assert (Hiff : rs = Ret tt <-> rp = Ret tt).
  { rewrite Hrs, Hrp, !loop_result_Ret. split; apply first_failure_None_perm;
      [now symmetry | exact Hperm]. }
  split; [exact Hiff|]. intros Hok.
  rewrite Hrs, loop_result_Ret in Hok.
  rewrite (completed_no_failure _ _ _ _ _ _ Hok) in Hfss, Hws.
  assert (Hfiles : Permutation
                     (files_of pdf_path output_dir dpi img_format quality
                        (sched (seq 0 (length ps))))
                     (files_of pdf_path output_dir dpi img_format quality
                        (seq 0 (length ps)))).
  { unfold files_of. now rewrite Hperm. }
  split.
  - rewrite Hfsp, Hfss. apply apply_writes_perm; [|exact Hfiles].
    apply files_of_NoDup, NoDup_seq.
  - now rewrite Hevs, Hevp, Ps, Pp, Hws, Hwp.
Qed.

(** X6.  In parallel mode every page is processed, whatever happens to
    the others: each page of the document is called once, the file of
    each page whose task ends normally is in the file system after the
    run, and a run that raises raises the exception of one of the
    pages. *)
Theorem parallel_mode_runs_every_page
    sched pdf_path output_dir dpi max_workers img_format quality ps w r w' :
  (forall l, Permutation (sched l) l) ->
  pool_size_ok max_workers = true ->
  output_dir_ok output_dir w = true ->
  fitz_pages pdf_path = Some ps ->
  pdf_to_jpeg sched pdf_path output_dir dpi true max_workers img_format quality w
  = (r, w') ->
  Permutation (calls (events_since w w')) (seq 0 (length ps)) /\
  (forall i p b,
     i < length ps ->
     page_file pdf_path i output_dir dpi img_format quality = Ret (p, b) ->
     fs w' !! p = Some (File b)) /\
  match r with
  | Ret _ =>
      forall i, i < length ps ->
                exists b, page_file pdf_path i output_dir dpi img_format quality
                          = Ret (written_path pdf_path i output_dir img_format, b)
  | Raise e =>
      exists i, i < length ps /\
                page_file pdf_path i output_dir dpi img_format quality = Raise e
  end.
Proof.
  intros Hsched Hpool Hdir Hpdf Hrun.
  destruct (pdf_to_jpeg_summary _ _ _ _ _ _ _ _ _ _ _ _ Hrun Hdir Hpdf)
    as (tail & Hev & Hr & Hfs & _ & Hc & _).
  destruct (projections_after_probe w output_dir (next_doc w) pdf_path
              (length ps) true tail) as (_ & Pc & _).
  unfold batch_result, batch_files, batch_calls, pool_result in *.
  rewrite Hpool in *.
  pose proof (Hsched (seq 0 (length ps))) as Hperm.
  split; [now rewrite Hev, Pc, Hc|]. split.
  - intros i p b Hi E. rewrite Hfs. apply apply_writes_lookup.
    + apply files_of_NoDup. rewrite Hperm. apply NoDup_seq.
    + apply (files_of_In _ _ _ _ _ _ i); [|exact E].
      apply list_elem_of_In. rewrite Hperm. apply elem_of_seq. lia.
  - subst r. unfold loop_result.
    destruct (first_failure _ _ _ _ _ _) as [[i e]|] eqn:Hff.
    + apply first_failure_In in Hff as [Hin He].
      apply list_elem_of_In in Hin. rewrite Hperm in Hin.
      apply elem_of_seq in Hin. exists i. split; [lia|].
      unfold page_exn in He.
      destruct (page_file pdf_path i output_dir dpi img_format quality);
        congruence.
    + intros i Hi. apply page_exn_None.
      apply (proj1 (first_failure_None _ _ _ _ _ _) Hff).
      apply list_elem_of_In. rewrite Hperm. apply elem_of_seq. lia.
Qed.

(** X7.  In sequential mode a page that raises ends the run with its
    exception: the pages before it are written and stay written, and no
    page after it is tried. *)
Theorem sequential_mode_stops_at_first_failure
    sched pdf_path output_dir dpi max_workers img_format quality ps w e w' :
  output_dir_ok output_dir w = true ->
  fitz_pages pdf_path = Some ps ->
  pdf_to_jpeg sched pdf_path output_dir dpi false max_workers img_format quality w
  = (Raise e, w') ->
  exists k,
    k < length ps /\
    page_file pdf_path k output_dir dpi img_format quality = Raise e /\
    calls (events_since w w') = seq 0 (S k) /\
    forall i, i < k ->
      exists b,
        page_file pdf_path i output_dir dpi img_format quality
        = Ret (written_path pdf_path i output_dir img_format, b) /\
        fs w' !! written_path pdf_path i output_dir img_format = Some (File b).
Proof.
  intros Hdir Hpdf Hrun.
  destruct (pdf_to_jpeg_summary _ _ _ _ _ _ _ _ _ _ _ _ Hrun Hdir Hpdf)
    as (tail & Hev & Hr & Hfs & _ & Hc & _).
  destruct (projections_after_probe w output_dir (next_doc w) pdf_path
              (length ps) false tail) as (_ & Pc & _).
  unfold batch_result, batch_files, batch_calls, loop_result, attempted in *.
  destruct (completed_seq pdf_path output_dir dpi img_format quality
              (length ps) 0) as (k & Hk & Hcomp & Hff).
  destruct (first_failure _ _ _ _ _ _) as [[j e0]|] eqn:Ej; [|discriminate].
  injection Hr as ->. destruct Hff as [-> Hlt]. change (0 + k) with k in *.
  apply first_failure_In in Ej as [_ He].
  exists k. split; [exact Hlt|]. split.
  { unfold page_exn in He.
    destruct (page_file pdf_path k output_dir dpi img_format quality); congruence. }
  split; [rewrite Hev, Pc, Hc, Hcomp; now rewrite seq_S|].
  intros i Hi.
  assert (Hin : In i (completed pdf_path output_dir dpi img_format quality
                        (seq 0 (length ps)))).
  { rewrite Hcomp. apply list_elem_of_In, elem_of_seq. lia. }
  destruct (completed_In _ _ _ _ _ _ _ Hin) as [_ Hok].
  destruct (page_exn_None _ _ _ _ _ _ Hok) as [b Hb].
  exists b. split; [exact Hb|]. rewrite Hfs.
  apply apply_writes_lookup.
  - apply files_of_NoDup. rewrite Hcomp. apply NoDup_seq.
  - now apply (files_of_In _ _ _ _ _ _ i).
Qed.

(** A path that holds something still holds something after a change
    that only fills paths that held nothing. *)
Lemma lookup_kept (m m' : gmap string node) (p rest_of : string) :
  m' !! p = m !! p \/
  (m !! p = None /\ m' !! p = Some Dir /\ exists rest, rest_of = p ++ rest) ->
  is_Some (m !! p) -> is_Some (m' !! p).
Proof.
  intros [->|(Hnone & _)] H; [exact H|]. rewrite Hnone in H. now destruct H.
Qed.



End BatchProperties.

(** ** Documents, lines and directories of a batch *)

Section BatchTrace.
Context `{L : Library}.

Lemma completed_prefix pdf_path output_dir dpi img_format quality range :
  exists rest,
    range = (completed pdf_path output_dir dpi img_format quality range ++ rest)%list.
Proof.
  induction range as [|i range [rest IH]]; [now exists []|].
  cbn [completed]. destruct (page_exn _ _ _ _ _ i).
  - now exists (i :: range).
  - exists rest. simpl. now rewrite <- IH.
Qed.

Lemma handle_events_submits (l : list nat) : handle_events (map EvSubmit l) = [].
Proof. now induction l. Qed.

(** Lines 96-110 when they end normally: one document per page, opened
    under the next free handle and closed before the next is opened. *)
Lemma batch_body_handles
    sched pdf_path output_dir dpi parallel max_workers img_format quality n w w' :
  (forall l, Permutation (sched l) l) ->
  handles_fresh w ->
  batch_body pdf_path output_dir dpi img_format quality sched parallel
    max_workers n w = (Ret tt, w') ->
  exists delta,
    trace w' = (trace w ++ delta)%list /\
    handle_events delta =
    flat_map (fun h => [EvOpen h pdf_path; EvClose h]) (seq (next_doc w) n) /\
    open_docs w' = open_docs w /\
    next_doc w' = next_doc w + n.
Proof.
  intros Hsched Hfresh Hrun.
  destruct (batch_body_run sched pdf_path output_dir dpi parallel max_workers
              img_format quality n w) as (w0 & d0 & Hrun0 & _).
  rewrite Hrun in Hrun0. injection Hrun0 as Hres _. symmetry in Hres.
  unfold batch_body, batch_result, pool_result in *. destruct parallel.
  - unfold bind at 1 in Hrun. rewrite pool_size_ok_spec in Hrun.
    destruct (pool_size_ok max_workers); [|discriminate].
    unfold bind at 1 in Hrun. rewrite submit_all_run in Hrun.
    apply loop_result_Ret in Hres.
    rewrite loops_agree_when_no_failure in Hrun by exact Hres.
    set (w1 := World _ _ _ _ _) in Hrun.
    destruct (sequential_loop_prints _ _ _ _ _ _ _ _ _ _ Hrun) as (delta & Ht & _).
    destruct (sequential_loop_handles _ _ _ _ _ _ _ w1 _ _ Hres Hfresh Hrun)
      as (Hh & Ho & Hn).
    assert (Hev : events_since w1 w' = delta).
    { unfold events_since. now apply events_since_app. }
    rewrite Hev in Hh.
    rewrite (Permutation_length (Hsched (seq 0 n))), length_seq in Hh, Hn.
    exists (map EvSubmit (seq 0 n) ++ delta)%list.
    split; [rewrite Ht; unfold w1; simpl; now rewrite app_assoc|].
    split; [now rewrite handle_events_app, handle_events_submits|].
    now split.
  - apply loop_result_Ret in Hres.
    destruct (sequential_loop_prints _ _ _ _ _ _ _ _ _ _ Hrun) as (delta & Ht & _).
    destruct (sequential_loop_handles _ _ _ _ _ _ _ w _ _ Hres Hfresh Hrun)
      as (Hh & Ho & Hn).
    assert (Hev : events_since w w' = delta).
    { unfold events_since. now apply events_since_app. }
    rewrite Hev, length_seq in *. exists delta. now repeat split.
Qed.

(** The documents of a run that returns normally, in the order in which
    the model opens and closes them. *)
Lemma normal_run_handles
    sched pdf_path output_dir dpi parallel max_workers img_format quality w w' :
  (forall l, Permutation (sched l) l) ->
  handles_fresh w ->
  pdf_to_jpeg sched pdf_path output_dir dpi parallel max_workers img_format quality w
  = (Ret tt, w') ->
  exists ps,
    fitz_pages pdf_path = Some ps /\
    handle_events (events_since w w') =
    flat_map (fun h => [EvOpen h pdf_path; EvClose h])
      (seq (next_doc w) (S (length ps))) /\
    open_docs w' = open_docs w /\
    handles_fresh w'.
Proof.
  intros Hsched Hfresh Hrun. rewrite pdf_to_jpeg_run in Hrun.
  destruct (output_dir_ok output_dir w); [|discriminate]. simpl in Hrun.
  destruct (fitz_pages pdf_path) as [ps|]; [|discriminate].
  exists ps. split; [reflexivity|].
  set (w1 := world_after_makedirs w output_dir) in *.
  set (w2 := world_after_probe w1 pdf_path (length ps) parallel) in *.
  assert (Hn1 : next_doc w1 = next_doc w) by apply next_doc_after_makedirs.
  assert (Ho1 : open_docs w1 = open_docs w).
  { unfold w1, world_after_makedirs. now destruct (bool_decide _). }
  assert (Ho2 : open_docs w2 = open_docs w).
  { unfold w2. simpl. rewrite Ho1, Hn1. apply set_eq. intros h.
    rewrite elem_of_difference, elem_of_union, elem_of_singleton.
    split; [intros [[->|H] Hn]; [contradiction | exact H]|].
    intros H. split; [now right|]. intros ->.
    specialize (Hfresh _ H). lia. }
  assert (Hfresh2 : handles_fresh w2).
  { intros h Hh. rewrite Ho2 in Hh. specialize (Hfresh _ Hh).
    unfold w2. simpl. lia. }
  destruct (batch_body _ _ _ _ _ _ _ _ _ w2) as [[[]|e] w3] eqn:Hbody;
    [|discriminate].
  injection Hrun as <-.
  destruct (batch_body_handles _ _ _ _ _ _ _ _ _ _ _ Hsched Hfresh2 Hbody)
    as (delta & Ht & Hh & Ho & Hn).
  assert (Hev : events_since w (world_after_total w3 (clock (clock_reads w1))) =
                (events_since w w1 ++
                 [EvOpen (next_doc w) pdf_path; EvClose (next_doc w);
                  EvPrint (LineConverting (length ps) parallel)] ++
                 delta ++
                 [EvPrint (LineTotal (clock (clock_reads w3)
                                      - clock (clock_reads w1))%Q)])%list).
  { unfold events_since. apply events_since_app. simpl. rewrite Ht.
    unfold w2. simpl. unfold w1 at 1. rewrite trace_after_makedirs. fold w1.
    rewrite Hn1. now rewrite <- !app_assoc. }
  rewrite Hev. split; [|split].
  - rewrite !handle_events_app, Hh.
    assert (Hmk : handle_events (events_since w w1) = []).
    { unfold w1. rewrite events_after_makedirs. now destruct (bool_decide _). }
    rewrite Hmk. unfold w2. simpl. rewrite Hn1. now rewrite app_nil_r.
  - simpl. now rewrite Ho, Ho2.
  - intros h Hh'. simpl in *. rewrite Ho, Ho2 in Hh'. specialize (Hfresh _ Hh').
    rewrite Hn. unfold w2. simpl. lia.
Qed.

Lemma opens_handle_events tr : opens (handle_events tr) = opens tr.
Proof.
  induction tr as [|e tr IH]; [reflexivity|].
  destruct e; simpl; try exact IH; now rewrite <- IH.
Qed.

Lemma closes_handle_events tr : closes (handle_events tr) = closes tr.
Proof.
  induction tr as [|e tr IH]; [reflexivity|].
  destruct e; simpl; try exact IH; now rewrite <- IH.
Qed.

Lemma opens_closes_paired (p : string) (l : list nat) :
  opens (flat_map (fun h => [EvOpen h p; EvClose h]) l) = l /\
  closes (flat_map (fun h => [EvOpen h p; EvClose h]) l) = l.
Proof.
  induction l as [|h l [IHo IHc]]; [now split|].
  simpl. now rewrite IHo, IHc.
Qed.

(** X10.  A run that returns normally opens one document more than the
    PDF has pages (the probe, then one per page), each under a handle of
    its own, and closes every one of them once: none is left open.  In
    sequential mode each document is closed before the next is opened. *)
Theorem normal_run_closes_every_document
    sched pdf_path output_dir dpi parallel max_workers img_format quality w w' :
  (forall l, Permutation (sched l) l) ->
  handles_fresh w ->
  pdf_to_jpeg sched pdf_path output_dir dpi parallel max_workers img_format quality w
  = (Ret tt, w') ->
  exists ps,
    fitz_pages pdf_path = Some ps /\
    length (opens (events_since w w')) = S (length ps) /\
    NoDup (opens (events_since w w')) /\
    Permutation (closes (events_since w w')) (opens (events_since w w')) /\
    open_docs w' = open_docs w /\
    (parallel = false ->
     handle_events (events_since w w') =
     flat_map (fun h => [EvOpen h pdf_path; EvClose h])
       (seq (next_doc w) (S (length ps)))).
Proof.
  intros Hsched Hfresh Hrun.
  destruct (normal_run_handles _ _ _ _ _ _ _ _ _ _ Hsched Hfresh Hrun)
    as (ps & Hpdf & Hh & Ho & _).
  exists ps. split; [exact Hpdf|].
  destruct (opens_closes_paired pdf_path (seq (next_doc w) (S (length ps))))
    as [Eo Ec].
  rewrite <- Hh, opens_handle_events in Eo.
  rewrite <- Hh, closes_handle_events in Ec.
  rewrite Eo, Ec.
  split; [apply length_seq|]. split; [apply NoDup_seq|].
  split; [reflexivity|]. split; [exact Ho | intros _; exact Hh].
Qed.

(** X11.  What a run on a readable PDF prints: first the line with the
    page count and the mode; then one progress line [k/n] for each page
    of [batch_reported], in that order: the pages whose tasks complete
    before the first task that raises, in page order in sequential mode
    and in the order of completion in parallel mode, with [k] counted
    from 1 and [n] the page count, no page twice; and last the line of
    the total time, which is printed exactly when the run returns
    normally, after the progress lines of all the pages. *)
Theorem lines_of_a_run
    sched pdf_path output_dir dpi parallel max_workers img_format quality
    ps w r w' :
  (forall l, Permutation (sched l) l) ->
  output_dir_ok output_dir w = true ->
  fitz_pages pdf_path = Some ps ->
  pdf_to_jpeg sched pdf_path output_dir dpi parallel max_workers img_format quality w
  = (r, w') ->
  printed (events_since w w') =
  (ShConverting (length ps) parallel ::
   map (fun i => ShPage (i + 1) (length ps))
     (batch_reported pdf_path output_dir dpi img_format quality sched parallel
        max_workers (length ps)) ++
   match r with
   | Ret _ => [ShTotal]
   | Raise _ => []
   end)%list /\
  NoDup (batch_reported pdf_path output_dir dpi img_format quality sched parallel
           max_workers (length ps)) /\
  Forall (fun i => i < length ps)
    (batch_reported pdf_path output_dir dpi img_format quality sched parallel
       max_workers (length ps)) /\
  (r = Ret tt ->
   Permutation
     (batch_reported pdf_path output_dir dpi img_format quality sched parallel
        max_workers (length ps))
     (seq 0 (length ps))) /\
  (parallel = false ->
   exists k,
     batch_reported pdf_path output_dir dpi img_format quality sched parallel
       max_workers (length ps) = seq 0 k).
Proof.
  intros Hsched Hdir Hpdf Hrun.
  destruct (pdf_to_jpeg_trace _ _ _ _ _ _ _ _ _ _ _ _ Hrun Hdir Hpdf)
    as (delta & final & Hev & _ & Hl & Hfinal).
  destruct (pdf_to_jpeg_summary _ _ _ _ _ _ _ _ _ _ _ _ Hrun Hdir Hpdf)
    as (_ & _ & Hr & _).
  split.
  { rewrite Hev, !printed_app, Hl.
    assert (Hmk : printed (events_since w (world_after_makedirs w output_dir)) = []).
    { rewrite events_after_makedirs. now destruct (bool_decide _). }
    rewrite Hmk. simpl. do 2 f_equal.
    destruct r as [[]|e]; [destruct Hfinal as [d ->]|subst final]; reflexivity. }
  pose proof (Hsched (seq 0 (length ps))) as Hperm.
  unfold batch_reported, batch_result, pool_result in *.
  assert (Hsub : forall l, Permutation l (seq 0 (length ps)) ->
                   NoDup (completed pdf_path output_dir dpi img_format quality l) /\
                   Forall (fun i => i < length ps)
                     (completed pdf_path output_dir dpi img_format quality l)).
  { intros l Hl0.
    destruct (completed_prefix pdf_path output_dir dpi img_format quality l)
      as [rest Hrest].
    assert (Hnd : NoDup l) by (rewrite Hl0; apply NoDup_seq).
    assert (Hall : Forall (fun i => i < length ps) l).
    { rewrite Hl0. apply Forall_forall. intros i Hi%elem_of_seq. lia. }
    rewrite Hrest in Hnd, Hall.
    apply NoDup_app in Hnd as (Hnd & _). apply Forall_app in Hall as (Hall & _).
    now split. }
  destruct parallel.
  - destruct (pool_size_ok max_workers).
    + destruct (Hsub _ Hperm) as [Hnd Hall].
      split; [exact Hnd|]. split; [exact Hall|]. split; [|discriminate].
      intros ->. symmetry in Hr. apply loop_result_Ret in Hr.
      now rewrite (completed_no_failure _ _ _ _ _ _ Hr).
    + subst r. split; [constructor|]. split; [constructor|].
      split; discriminate.
  - destruct (Hsub _ (Permutation_refl _)) as [Hnd Hall].
    split; [exact Hnd|]. split; [exact Hall|]. split.
    + intros ->. symmetry in Hr. apply loop_result_Ret in Hr.
      now rewrite (completed_no_failure _ _ _ _ _ _ Hr).
    + intros _.
      destruct (completed_seq pdf_path output_dir dpi img_format quality
                  (length ps) 0) as (k & _ & Hc & _).
      now exists k.
Qed.

(** X12.  [os.makedirs] is called at most once in a run, for the output
    directory, and only when nothing is at that path. *)
Theorem makedirs_only_when_absent
    sched pdf_path output_dir dpi parallel max_workers img_format quality w r w' :
  pdf_to_jpeg sched pdf_path output_dir dpi parallel max_workers img_format quality w
  = (r, w') ->
  makedirs_of (events_since w w') =
  if bool_decide (is_Some (fs w !! output_dir)) then []
  else if can_makedirs output_dir then [output_dir] else [].
Proof.
  intros Hrun.
  assert (Hmk : output_dir_ok output_dir w = true ->
                makedirs_of (events_since w (world_after_makedirs w output_dir)) =
                if bool_decide (is_Some (fs w !! output_dir)) then []
                else if can_makedirs output_dir then [output_dir] else []).
  { unfold output_dir_ok. rewrite events_after_makedirs.
    destruct (bool_decide _); [reflexivity|]. simpl. now intros ->. }
  destruct (output_dir_ok output_dir w) eqn:Hdir.
  - specialize (Hmk eq_refl).
    destruct (fitz_pages pdf_path) as [ps|] eqn:Hpdf.
    + destruct (pdf_to_jpeg_trace _ _ _ _ _ _ _ _ _ _ _ _ Hrun Hdir Hpdf)
        as (delta & final & Hev & Hb & _ & Hfinal).
      rewrite Hev, !makedirs_of_app, Hmk.
      destruct (batch_events_silent _ Hb) as [-> _].
      assert (Hf : makedirs_of final = []).
      { destruct r; [destruct Hfinal as [d ->]|subst final]; reflexivity. }
      rewrite Hf. simpl. now rewrite app_nil_r.
    + rewrite pdf_to_jpeg_no_document in Hrun by assumption.
      inversion Hrun; subst. exact Hmk.
  - rewrite pdf_to_jpeg_no_directory in Hrun by exact Hdir.
    inversion Hrun; subst. rewrite events_after_failed_makedirs.
    unfold output_dir_ok in Hdir. apply orb_false_iff in Hdir as [-> ->].
    reflexivity.
Qed.

(** X13.  In parallel mode a pool size that is given and not positive
    ends the run with the error of the pool, after the probe and before
    any page: nothing is submitted, no page is processed, no file is
    written, however many pages the document has. *)
Theorem parallel_mode_rejects_empty_pool
    sched pdf_path output_dir dpi max_workers img_format quality ps w r w' :
  pool_size_ok max_workers = false ->
  output_dir_ok output_dir w = true ->
  fitz_pages pdf_path = Some ps ->
  pdf_to_jpeg sched pdf_path output_dir dpi true max_workers img_format quality w
  = (r, w') ->
  r = Raise PoolSizeError /\
  submits (events_since w w') = [] /\
  calls (events_since w w') = [] /\
  writes (events_since w w') = [] /\
  printed (events_since w w') = [ShConverting (length ps) true].
Proof.
  intros Hpool Hdir Hpdf Hrun.
  destruct (pdf_to_jpeg_summary _ _ _ _ _ _ _ _ _ _ _ _ Hrun Hdir Hpdf)
    as (tail & Hev & Hr & _ & Hw & Hc & Hs & _).
  destruct (pdf_to_jpeg_trace _ _ _ _ _ _ _ _ _ _ _ _ Hrun Hdir Hpdf)
    as (delta & final & Hev' & _ & Hl & Hfinal).
  destruct (projections_after_probe w output_dir (next_doc w) pdf_path
              (length ps) true tail) as (Pw & Pc & Ps & _).
  unfold batch_result, batch_files, batch_calls, batch_submits, batch_reported in *.
  rewrite Hpool in *. subst r final.
  change (true && false)%bool with false in Hs.
  split; [reflexivity|].
  split; [now rewrite Hev, Ps, Hs|].
  split; [now rewrite Hev, Pc, Hc|].
  split; [now rewrite Hev, Pw, Hw|].
  rewrite Hev', !printed_app, Hl.
  assert (Hmk : printed (events_since w (world_after_makedirs w output_dir)) = []).
  { rewrite events_after_makedirs. now destruct (bool_decide _). }
  now rewrite Hmk.
Qed.

End BatchTrace.


(** ** The further properties on the demonstration libraries *)

Section ExtraRuns.

Lemma demo_webp_run_1 :
  @process_page Demo.lib "docs/sample.pdf" 1 "out" 300 "webp" 80 Demo.w0 =
  (Ret (1, 1%Q),
   world_after_page Demo.w0 "docs/sample.pdf" 1 "out/sample_2.webp"
     (list_byte_of_string "RIFF" ++ [x00; x00; x08])%list).
Proof. reflexivity. Defined.

Lemma demo_handles_fresh : handles_fresh Demo.w0.
Proof. intros h Hh. now apply elem_of_empty in Hh. Defined.

(** With the write of the second page failing, the sequential run stops
    there: the first file is written, the third page is never tried. *)
Example faulty_sequential_steps :
  fst Faulty.sequential_run = Raise IOError /\
  page_steps (trace (snd Faulty.sequential_run)) =
  [Called 0; Wrote "out/sample_1.png"; Logged 1; Called 1] /\
  fs (snd Faulty.sequential_run) !! "out/sample_3.png" = None.
Proof. repeat split; vm_compute; reflexivity. Qed.

(** The parallel run of the same document tries every page and writes
    the two files that can be written; only the page completed before the
    one that fails is reported. *)
Example faulty_parallel_steps :
  fst Faulty.parallel_run = Raise IOError /\
  page_steps (trace (snd Faulty.parallel_run)) =
  [Called 2; Wrote "out/sample_3.png"; Logged 3;
   Called 1; Called 0; Wrote "out/sample_1.png"] /\
  printed (trace (snd Faulty.parallel_run)) = [ShConverting 3 true; ShPage 3 3].
Proof. repeat split; vm_compute; reflexivity. Qed.

(** A format that holds a path separator can send the output to the path
    of the input. *)
Example format_with_separator_reaches_the_input :
  Str.contains posixpath.sep "x/a.pdf" = true /\
  written_path "out/a_1.x/a.pdf" 0 "out" "x/a.pdf" = "out/a_1.x/a.pdf".
Proof. split; vm_compute; reflexivity. Qed.

Lemma process_page_touches_one_path_witness :
  "out/notes.txt" <> written_path "docs/sample.pdf" 1 "out" "png" /\
  fs (snd More.png_page_run) !! "out/notes.txt" = fs More.w_used !! "out/notes.txt".
Proof.
  assert (Hne : "out/notes.txt" <> written_path "docs/sample.pdf" 1 "out" "png")
    by (intros H; vm_compute in H; discriminate H).
  split; [exact Hne|].
  exact (@process_page_touches_one_path Demo.lib "docs/sample.pdf" 1 "out" 150
           "png" 80 More.w_used _ _ "out/notes.txt"
           (surjective_pairing More.png_page_run) Hne).
Defined.

Lemma distinct_pages_distinct_files_witness :
  0 <> 1 /\
  exists pi bi pj bj,
    writes (events_since Demo.w0
              (world_after_page Demo.w0 "docs/sample.pdf" 0
                 "out/sample_1.webp" Demo.webp0)) = [(pi, bi)] /\
    writes (events_since Demo.w0
              (world_after_page Demo.w0 "docs/sample.pdf" 1 "out/sample_2.webp"
                 (list_byte_of_string "RIFF" ++ [x00; x00; x08])%list))
    = [(pj, bj)] /\
    pi <> pj.
Proof.
  assert (Hne : 0 <> 1) by lia.
  split; [exact Hne|].
  exact (@distinct_pages_distinct_files Demo.lib "docs/sample.pdf" "out" 300
           "webp" 80 0 1 Demo.w0 _ _ Demo.w0 _ _ Hne demo_webp_run demo_webp_run_1).
Defined.

Lemma process_page_spares_the_input_witness :
  Str.contains posixpath.sep "png" = false /\
  fs (snd More.png_page_run) !! "docs/sample.pdf" = fs More.w_used !! "docs/sample.pdf" /\
  forall p b,
    In (p, b) (writes (events_since More.w_used (snd More.png_page_run))) ->
    p <> "docs/sample.pdf".
Proof.
  split; [reflexivity|].
  exact (@process_page_spares_the_input Demo.lib "docs/sample.pdf" 1 "out" 150
           "png" 80 More.w_used _ _ eq_refl (surjective_pairing More.png_page_run)).
Defined.

Lemma base64_file_shape_witness :
  Str.lower "base64" = "base64" /\
  exists img webp_bytes p content,
    @rasterise Demo.lib "docs/sample.pdf" 0 300 = Ret img /\
    @Image_encode Demo.lib img (WEBP 80 0) = Some webp_bytes /\
    writes (events_since Demo.w0
              (world_after_page Demo.w0 "docs/sample.pdf" 0 "out/sample_1.b64"
                 (list_byte_of_string "UklGRgAABw=="))) = [(p, content)] /\
    length content = 4 * ((length webp_bytes + 2) / 3) /\
    Forall (fun c => In c Base64.alphabet \/ c = Base64.pad) content.
Proof.
  split; [reflexivity|].
  exact (@base64_file_shape Demo.lib "docs/sample.pdf" 0 "out" 300 "base64" 80
           Demo.w0 _ _ eq_refl demo_base64_run).
Defined.

Lemma file_name_of_plain_path_witness :
  Str.contains posixpath.sep "sample" = false /\
  Str.all_char posixpath.extsep "sample" = false /\
  Str.contains posixpath.extsep "pdf" = false /\
  Str.contains posixpath.sep "pdf" = false /\
  file_name ("docs" ++ "/" ++ "sample" ++ "." ++ "pdf") = "sample" /\
  file_name ("sample" ++ "." ++ "pdf") = "sample".
Proof.
  split; [reflexivity|]. split; [reflexivity|]. split; [reflexivity|].
  split; [reflexivity|].
  exact (file_name_of_plain_path "docs" "sample" "pdf"
           eq_refl eq_refl eq_refl eq_refl).
Defined.

Lemma modes_agree_on_success_witness :
  pool_size_ok None = true /\
  (fst More.sequential_in_place = Ret tt <-> fst More.rerun_in_place = Ret tt) /\
  (fst More.sequential_in_place = Ret tt ->
   fs (snd More.rerun_in_place) = fs (snd More.sequential_in_place) /\
   Permutation
     (writes (events_since More.w_used (snd More.rerun_in_place)))
     (writes (events_since More.w_used (snd More.sequential_in_place)))).
Proof.
  split; [reflexivity|].
  exact (@modes_agree_on_success Demo.lib Demo.lifo "docs/sample.pdf" "out" 150
           None "png" 80 More.w_used _ _ _ _ lifo_permutation eq_refl
           (surjective_pairing More.sequential_in_place)
           (surjective_pairing More.rerun_in_place)).
Defined.

Lemma parallel_mode_runs_every_page_witness :
  pool_size_ok (Some 2%Z) = true /\
  @output_dir_ok Faulty.lib "out" Demo.w0 = true /\
  @fitz_pages Faulty.lib "docs/sample.pdf" = Some [7; 8; 9] /\
  Permutation (calls (events_since Demo.w0 (snd Faulty.parallel_run))) (seq 0 3) /\
  (forall i p b,
     i < 3 ->
     @page_file Faulty.lib "docs/sample.pdf" i "out" 150 "png" 80 = Ret (p, b) ->
     fs (snd Faulty.parallel_run) !! p = Some (File b)) /\
  match fst Faulty.parallel_run with
  | Ret _ =>
      forall i, i < 3 ->
                exists b, @page_file Faulty.lib "docs/sample.pdf" i "out" 150 "png" 80
                          = Ret (written_path "docs/sample.pdf" i "out" "png", b)
  | Raise e =>
      exists i, i < 3 /\
                @page_file Faulty.lib "docs/sample.pdf" i "out" 150 "png" 80 = Raise e
  end.
Proof.
  split; [reflexivity|]. split; [reflexivity|]. split; [reflexivity|].
  exact (@parallel_mode_runs_every_page Faulty.lib Demo.lifo "docs/sample.pdf" "out"
           150 (Some 2%Z) "png" 80 [7; 8; 9] Demo.w0 _ _
           lifo_permutation eq_refl eq_refl eq_refl
           (surjective_pairing Faulty.parallel_run)).
Defined.

Lemma sequential_mode_stops_at_first_failure_witness :
  @output_dir_ok Faulty.lib "out" Demo.w0 = true /\
  @fitz_pages Faulty.lib "docs/sample.pdf" = Some [7; 8; 9] /\
  Faulty.sequential_run = (Raise IOError, snd Faulty.sequential_run) /\
  exists k,
    k < 3 /\
    @page_file Faulty.lib "docs/sample.pdf" k "out" 150 "png" 80 = Raise IOError /\
    calls (events_since Demo.w0 (snd Faulty.sequential_run)) = seq 0 (S k) /\
    forall i, i < k ->
      exists b,
        @page_file Faulty.lib "docs/sample.pdf" i "out" 150 "png" 80
        = Ret (written_path "docs/sample.pdf" i "out" "png", b) /\
        fs (snd Faulty.sequential_run) !! written_path "docs/sample.pdf" i "out" "png"
        = Some (File b).
Proof.
  assert (Hrun : Faulty.sequential_run = (Raise IOError, snd Faulty.sequential_run))
    by (apply run_with_outcome; reflexivity).
  split; [reflexivity|]. split; [reflexivity|]. split; [exact Hrun|].
  exact (@sequential_mode_stops_at_first_failure Faulty.lib Demo.fifo
           "docs/sample.pdf" "out" 150 None "png" 80 [7; 8; 9] Demo.w0 IOError _
           eq_refl eq_refl Hrun).
Defined.



Lemma normal_run_closes_every_document_witness :
  handles_fresh Demo.w0 /\
  Demo.parallel_run = (Ret tt, snd Demo.parallel_run) /\
  exists ps,
    @fitz_pages Demo.lib "docs/sample.pdf" = Some ps /\
    length (opens (events_since Demo.w0 (snd Demo.parallel_run))) = S (length ps) /\
    NoDup (opens (events_since Demo.w0 (snd Demo.parallel_run))) /\
    Permutation (closes (events_since Demo.w0 (snd Demo.parallel_run)))
      (opens (events_since Demo.w0 (snd Demo.parallel_run))) /\
    open_docs (snd Demo.parallel_run) = open_docs Demo.w0 /\
    (true = false ->
     handle_events (events_since Demo.w0 (snd Demo.parallel_run)) =
     flat_map (fun h => [EvOpen h "docs/sample.pdf"; EvClose h])
       (seq (next_doc Demo.w0) (S (length ps)))).
Proof.
  assert (Hrun : Demo.parallel_run = (Ret tt, snd Demo.parallel_run))
    by (apply run_with_outcome; reflexivity).
  split; [exact demo_handles_fresh|]. split; [exact Hrun|].
  exact (@normal_run_closes_every_document Demo.lib Demo.lifo "docs/sample.pdf"
           "out" 150 true (Some 2%Z) "png" 80 Demo.w0 _
           lifo_permutation demo_handles_fresh Hrun).
Defined.

Lemma lines_of_a_run_witness :
  @output_dir_ok Faulty.lib "out" Demo.w0 = true /\
  @fitz_pages Faulty.lib "docs/sample.pdf" = Some [7; 8; 9] /\
  Faulty.parallel_run = (Raise IOError, snd Faulty.parallel_run) /\
  @batch_reported Faulty.lib "docs/sample.pdf" "out" 150 "png" 80 Demo.lifo true
    (Some 2%Z) 3 = [2] /\
  printed (events_since Demo.w0 (snd Faulty.parallel_run)) =
  [ShConverting 3 true; ShPage 3 3].
Proof.
  assert (Hrun : Faulty.parallel_run = (Raise IOError, snd Faulty.parallel_run))
    by (apply run_with_outcome; reflexivity).
  split; [reflexivity|]. split; [reflexivity|]. split; [exact Hrun|].
  split; [reflexivity|].
  exact (proj1 (@lines_of_a_run Faulty.lib Demo.lifo "docs/sample.pdf" "out" 150
                  true (Some 2%Z) "png" 80 [7; 8; 9] Demo.w0 (Raise IOError) _
                  lifo_permutation eq_refl eq_refl Hrun)).
Defined.

Lemma makedirs_only_when_absent_witness :
  makedirs_of (events_since Demo.w0 (snd Demo.sequential_run)) = ["out"] /\
  makedirs_of (events_since More.w_used (snd More.sequential_in_place)) = [].
Proof.
  split.
  - exact (@makedirs_only_when_absent Demo.lib Demo.fifo "docs/sample.pdf" "out"
             150 false None "png" 80 Demo.w0 _ _
             (surjective_pairing Demo.sequential_run)).
  - exact (@makedirs_only_when_absent Demo.lib Demo.lifo "docs/sample.pdf" "out"
             150 false None "png" 80 More.w_used _ _
             (surjective_pairing More.sequential_in_place)).
Defined.

Lemma parallel_mode_rejects_empty_pool_witness :
  pool_size_ok (Some 0%Z) = false /\
  @output_dir_ok Demo.lib "out" Demo.w0 = true /\
  @fitz_pages Demo.lib "docs/sample.pdf" = Some [7; 8; 9] /\
  fst More.empty_pool_run = Raise PoolSizeError /\
  submits (events_since Demo.w0 (snd More.empty_pool_run)) = [] /\
  calls (events_since Demo.w0 (snd More.empty_pool_run)) = [] /\
  writes (events_since Demo.w0 (snd More.empty_pool_run)) = [] /\
  printed (events_since Demo.w0 (snd More.empty_pool_run)) = [ShConverting 3 true].
Proof.
  split; [reflexivity|]. split; [reflexivity|]. split; [reflexivity|].
  exact (@parallel_mode_rejects_empty_pool Demo.lib Demo.fifo "docs/sample.pdf"
           "out" 150 (Some 0%Z) "png" 80 [7; 8; 9] Demo.w0 _ _
           eq_refl eq_refl eq_refl (surjective_pairing More.empty_pool_run)).
Defined.

End ExtraRuns.
